(** * Budgeting PWA: the IndexedDB wrapper (storage, migration, queries)

    A shallow embedding of the persistence layer (the [db.js] of the
    multi-budget version): the three object stores, the one-time migration
    run by [initDB], and the range queries over transactions.

    JavaScript values are a small tagged union, records are finite maps from
    property names to values, object stores are finite maps from primary keys
    to records.  Promises are computations in a state-and-error monad over a
    [World]; an IndexedDB request that the engine may fail consumes one entry
    of a fault schedule carried by the world. *)

From Stdlib Require Import ZArith Lia.
From stdpp Require Import base option list gmap strings sorting fin_maps.

Local Open Scope Z_scope.

(** ** JavaScript values *)

(** The primitives this layer stores and inspects.  Numbers are the integers
    (ids, millisecond timestamps, counts, targets); fractions, NaN and
    infinities are outside the fragment.  [JObj] is any structured value
    (object, array) in some serialised form: truthy, and never [===] to a
    value read back from the store, which is a fresh clone. *)
Inductive jsval :=
  | JUndefined
  | JNull
  | JBool (b : bool)
  | JNum (n : Z)
  | JStr (s : string)
  | JObj (repr : string).

Global Instance jsval_eq_dec : EqDecision jsval.
Proof. solve_decision. Defined.

(** ToBoolean. *)
Definition truthy (v : jsval) : bool :=
  match v with
  | JUndefined | JNull => false
  | JBool b => b
  | JNum n => negb (Z.eqb n 0)
  | JStr s => negb (String.eqb s "")
  | JObj _ => true
  end.

(** [a || b]. *)
Definition js_or (a b : jsval) : jsval := if truthy a then a else b.

(** [a === b]. *)
Definition strict_eq (a b : jsval) : bool :=
  match a, b with
  | JObj _, _ | _, JObj _ => false
  | _, _ => bool_decide (a = b)
  end.

(** A plain object: property name to value.  Reading a missing property
    gives [undefined]. *)
Abbreviation obj := (gmap string jsval).

Definition get_field (o : obj) (f : string) : jsval := default JUndefined (o !! f).

(** ** Object stores *)

(** A store with [keyPath: 'id', autoIncrement: true]: the records by primary
    key, and the key generator's current number. *)
Record ObjectStore := mkStore { recs : gmap Z obj; keygen : Z }.

(** The key generator is ahead of every key in use, and starts at 1. *)
Definition keygen_ok (st : ObjectStore) : Prop :=
  1 ≤ keygen st ∧ map_Forall (λ k _, k < keygen st) (recs st).

(** [store.add(record)] for a record literal without an [id]: the generator
    supplies the key, which is written into the record at the key path.  The
    source only ever adds such literals. *)
Definition os_add (record : obj) (st : ObjectStore) : Z * ObjectStore :=
  let k := keygen st in
  (k, {| recs := <[k := <["id" := JNum k]> record]> (recs st); keygen := k + 1 |}).

(** The in-line key of a record. *)
Definition inline_key (record : obj) : option Z :=
  match record !! "id" with
  | Some (JNum k) => Some k
  | _ => None
  end.

(** [store.put(record)]: overwrite at the record's in-line key; a record
    without one gets a generated key as in [os_add]. *)
Definition os_put (record : obj) (st : ObjectStore) : Z * ObjectStore :=
  match inline_key record with
  | Some k => (k, {| recs := <[k := record]> (recs st); keygen := Z.max (keygen st) (k + 1) |})
  | None => os_add record st
  end.

(** [store.delete(id)]: succeeds whether or not the key is present. *)
Definition os_delete (k : Z) (st : ObjectStore) : ObjectStore :=
  {| recs := delete k (recs st); keygen := keygen st |}.

(** Entries in primary-key order, as [getAll()] and a plain [openCursor()]
    deliver them. *)
Definition key_le (a b : Z * obj) : Prop := a.1 ≤ b.1.

Global Instance key_le_dec a b : Decision (key_le a b).
Proof. unfold key_le. apply _. Defined.

Definition entries_by_key (st : ObjectStore) : list (Z * obj) :=
  merge_sort key_le (map_to_list (recs st)).

(** ** The database and the world around it *)

(** The persisted state.  The [settings] store has [keyPath: 'key']; its
    records are [{ key, value }] objects. *)
Record Database := mkDatabase {
  transactions : ObjectStore;
  budgets : ObjectStore;
  settings : gmap string obj
}.

(** Successful write requests, in the order they were served. *)
Inductive WriteOp :=
  | WSettingPut (key : string) (value : jsval)
  | WBudgetAdd (id : Z)
  | WBudgetPut (id : Z)
  | WTxAdd (id : Z)
  | WTxPut (id : Z)
  | WTxDelete (id : Z).

Global Instance WriteOp_eq_dec : EqDecision WriteOp.
Proof. solve_decision. Defined.

(** [dbInstance] is the module-level memo of the connection; [opened] counts
    the connections established so far (a handle is its ordinal); [faults]
    says, request by request, which of the coming requests the engine fails
    (an exhausted schedule fails none); [clock] is what [Date.now()] reads. *)
Record World := mkWorld {
  db : Database;
  dbInstance : option Z;
  opened : Z;
  faults : list bool;
  clock : Z;
  writes : list WriteOp
}.

Definition set_db (d : Database) (w : World) : World :=
  {| db := d; dbInstance := dbInstance w; opened := opened w;
     faults := faults w; clock := clock w; writes := writes w |}.

Definition set_faults (f : list bool) (w : World) : World :=
  {| db := db w; dbInstance := dbInstance w; opened := opened w;
     faults := f; clock := clock w; writes := writes w |}.

Definition log_write (x : WriteOp) (w : World) : World :=
  {| db := db w; dbInstance := dbInstance w; opened := opened w;
     faults := faults w; clock := clock w; writes := writes w ++ [x] |}.

Definition set_transactions (st : ObjectStore) (d : Database) : Database :=
  {| transactions := st; budgets := budgets d; settings := settings d |}.

Definition set_budgets (st : ObjectStore) (d : Database) : Database :=
  {| transactions := transactions d; budgets := st; settings := settings d |}.

Definition set_settings (s : gmap string obj) (d : Database) : Database :=
  {| transactions := transactions d; budgets := budgets d; settings := s |}.

(** ** Promises *)

Inductive Err :=
  | OpenError                 (* [indexedDB.open] fired [onerror] *)
  | StorageError              (* a request fired [onerror] *)
  | DataError                 (* thrown by [IDBKeyRange.bound] *)
  | NotFound (msg : string).  (* [new Error(msg)] of the update paths *)

Inductive Res (A : Type) :=
  | Resolved (a : A)
  | Rejected (e : Err).
Arguments Resolved {A} a.
Arguments Rejected {A} e.

(** An asynchronous computation run to settlement. *)
Definition M (A : Type) : Type := World → Res A * World.

Global Instance M_ret : MRet M := λ A a w, (Resolved a, w).

Global Instance M_bind : MBind M := λ A B f m w,
  match m w with
  | (Resolved a, w') => f a w'
  | (Rejected e, w') => (Rejected e, w')
  end.

Definition reject {A} (e : Err) : M A := λ w, (Rejected e, w).

(** One request to the engine: it fires [onerror] when the schedule says so
    and [onsuccess] otherwise. *)
Definition request : M unit := λ w,
  match faults w with
  | true :: f => (Rejected StorageError, set_faults f w)
  | false :: f => (Resolved (), set_faults f w)
  | [] => (Resolved (), w)
  end.

(** The body of one IndexedDB transaction: when a request in it fails the
    transaction aborts and the stores are as they were. *)
Definition transaction {A} (body : M A) : M A := λ w,
  match body w with
  | (Resolved a, w') => (Resolved a, w')
  | (Rejected e, w') => (Rejected e, set_db (db w) w')
  end.

Definition read {A} (f : Database → A) : M A := λ w, (Resolved (f (db w)), w).

Definition write (f : Database → Database) (x : WriteOp) : M unit := λ w,
  (Resolved (), log_write x (set_db (f (db w)) w)).

(** ** Settings *)

Definition setting_record (key : string) (value : jsval) : obj :=
  <["key" := JStr key]> (<["value" := value]> ∅).

(** [request.result ? request.result.value : null] *)
Definition setting_value (d : Database) (key : string) : jsval :=
  match settings d !! key with
  | Some record => get_field record "value"
  | None => JNull
  end.

Definition getSettingInternal (key : string) : M jsval :=
  transaction (request ;; read (λ d, setting_value d key)).

Definition setSettingInternal (key : string) (value : jsval) : M unit :=
  transaction (request ;;
    write (λ d, set_settings (<[key := setting_record key value]> (settings d)) d)
          (WSettingPut key value)).

(** ** Budgets *)

Definition now : M Z := λ w, (Resolved (clock w), w).

(** The [onsuccess] of [store.add(record)] on the budgets store:
    [request.result] is the generated key. *)
Definition budgets_add (record : obj) : M Z := λ w,
  let '(k, st) := os_add record (budgets (db w)) in
  (Resolved k, log_write (WBudgetAdd k) (set_db (set_budgets st (db w)) w)).

Definition budgets_put (record : obj) : M unit := λ w,
  let '(k, st) := os_put record (budgets (db w)) in
  (Resolved (), log_write (WBudgetPut k) (set_db (set_budgets st (db w)) w)).

Definition createBudgetInternal (name target : jsval) : M Z :=
  transaction (
    created ← now;
    let record : obj :=
      <["name" := name]> (<["target" := target]> (<["created" := JNum created]> ∅)) in
    request ;; budgets_add record).

Definition getAllBudgetsInternal : M (list obj) :=
  transaction (request ;; read (λ d, (entries_by_key (budgets d)).*2)).

(** ** Transactions: the primitives *)

Definition transactions_add (record : obj) : M Z := λ w,
  let '(k, st) := os_add record (transactions (db w)) in
  (Resolved k, log_write (WTxAdd k) (set_db (set_transactions st (db w)) w)).

Definition transactions_put (record : obj) : M unit := λ w,
  let '(k, st) := os_put record (transactions (db w)) in
  (Resolved (), log_write (WTxPut k) (set_db (set_transactions st (db w)) w)).

(** [cursor.update(record)] with the cursor on primary key [k].  The records
    of a store with in-line keys carry their key in [id], and the source
    never changes it, so the engine's check that they agree passes. *)
Definition cursor_update (k : Z) (record : obj) : M unit := λ w,
  let st := transactions (db w) in
  (Resolved (),
   log_write (WTxPut k)
     (set_db (set_transactions {| recs := <[k := record]> (recs st); keygen := keygen st |} (db w)) w)).

(** [cursor.delete()] with the cursor on primary key [k], and
    [store.delete(k)]. *)
Definition transactions_delete (k : Z) : M unit := λ w,
  (Resolved (),
   log_write (WTxDelete k) (set_db (set_transactions (os_delete k (transactions (db w))) (db w)) w)).

(** ** The migration *)

(** The cursor loop of [migrateTransactionsToBudget].  Each success event of
    the cursor request is one request served; so is each [cursor.update]. *)
Fixpoint migrate_cursor (budgetId : jsval) (es : list (Z * obj)) : M unit :=
  match es with
  | [] => request
  | (k, record) :: es' =>
      request ;;
      (if truthy (get_field record "budgetId") then mret ()
       else request ;; cursor_update k (<["budgetId" := budgetId]> record)) ;;
      migrate_cursor budgetId es'
  end.

Definition migrateTransactionsToBudget (budgetId : jsval) : M unit :=
  transaction (
    es ← read (λ d, entries_by_key (transactions d));
    migrate_cursor budgetId es).

Definition runMigrationIfNeeded : M unit :=
  migrationDone ← getSettingInternal "migrationV2Done";
  if truthy migrationDone then mret () else
  budgets ← getAllBudgetsInternal;
  if decide (0 < length budgets)%nat then
    setSettingInternal "migrationV2Done" (JBool true)
  else
  monthlyTarget ← getSettingInternal "monthlyTarget";
  let oldTarget := js_or monthlyTarget (JNum 1000) in
  defaultBudgetId ← createBudgetInternal (JStr "Personal Budget") oldTarget;
  migrateTransactionsToBudget (JNum defaultBudgetId) ;;
  setSettingInternal "currentBudgetId" (JNum defaultBudgetId) ;;
  setSettingInternal "migrationV2Done" (JBool true).

(** ** Opening the database *)

(** [indexedDB.open(DB_NAME, DB_VERSION)] settling.  [onupgradeneeded] only
    declares stores and indexes; it writes no record. *)
Definition open_request : M unit := λ w,
  match request w with
  | (Rejected _, w') => (Rejected OpenError, w')
  | r => r
  end.

(** [request.onsuccess]: a new connection, memoized in [dbInstance]. *)
Definition open_success : M Z := λ w,
  let h := opened w in
  (Resolved h,
   {| db := db w; dbInstance := Some h; opened := h + 1;
      faults := faults w; clock := clock w; writes := writes w |}).

(** One call of [initDB] run to settlement with nothing interleaved. *)
Definition initDB : M Z :=
  h ← (λ w, match dbInstance w with
            | Some h => (Resolved h, w)
            | None => (open_request ;; open_success) w
            end);
  runMigrationIfNeeded ;;
  mret h.

(** ** Public budget methods *)

(** [target = 1000] is a default parameter: it stands in for [undefined]
    only. *)
Definition createBudget (name target : jsval) : M Z :=
  let target := if decide (target = JUndefined) then JNum 1000 else target in
  initDB ;; createBudgetInternal name target.

Definition updateBudget (id : Z) (updates : obj) : M unit :=
  initDB ;;
  transaction (
    request ;;
    result ← read (λ d, recs (budgets d) !! id);
    match result with
    | Some record =>
        let record1 :=
          if decide (get_field updates "name" = JUndefined) then record
          else <["name" := get_field updates "name"]> record in
        let record2 :=
          if decide (get_field updates "target" = JUndefined) then record1
          else <["target" := get_field updates "target"]> record1 in
        request ;; budgets_put record2
    | None => reject (NotFound "Budget not found")
    end).

(** ** Public transaction methods *)

Definition addTransaction (transaction_ : obj) : M Z :=
  initDB ;;
  transaction (
    timestamp ← now;
    let record : obj :=
      <["amount" := get_field transaction_ "amount"]>
      (<["category" := get_field transaction_ "category"]>
      (<["note" := js_or (get_field transaction_ "note") (JStr "")]>
      (<["budgetId" := get_field transaction_ "budgetId"]>
      (<["timestamp" := JNum timestamp]> ∅)))) in
    request ;; transactions_add record).

Definition getSetting (key : string) : M jsval :=
  initDB ;; getSettingInternal key.

Definition setSetting (key : string) (value : jsval) : M unit :=
  initDB ;; setSettingInternal key value.

Definition deleteTransaction (id : Z) : M unit :=
  initDB ;;
  transaction (request ;; transactions_delete id).

Definition updateTransactionNote (id : Z) (note : jsval) : M unit :=
  initDB ;;
  transaction (
    request ;;
    result ← read (λ d, recs (transactions d) !! id);
    match result with
    | Some record => request ;; transactions_put (<["note" := note]> record)
    | None => reject (NotFound "Transaction not found")
    end).

(** ** The timestamp index *)

(** The index holds a record when its [timestamp] is a valid key.  Among the
    values of this fragment that is a number; strings sort after every number
    and so never fall in a numeric range. *)
Definition timestamp_key (e : Z * obj) : option Z :=
  match get_field e.2 "timestamp" with
  | JNum t => Some t
  | _ => None
  end.

Definition in_range (lo hi : Z) (e : Z * obj) : Prop :=
  match timestamp_key e with
  | Some t => lo ≤ t ≤ hi
  | None => False
  end.

Global Instance in_range_dec lo hi e : Decision (in_range lo hi e).
Proof. unfold in_range. destruct (timestamp_key e); apply _. Defined.

(** Index order: by index key, then by primary key. *)
Definition index_le (a b : Z * obj) : Prop :=
  let ta := default 0 (timestamp_key a) in
  let tb := default 0 (timestamp_key b) in
  ta < tb ∨ (ta = tb ∧ a.1 ≤ b.1).

Global Instance index_le_dec a b : Decision (index_le a b).
Proof. unfold index_le. apply _. Defined.

(** [index.openCursor(IDBKeyRange.bound(lo, hi))]: what the cursor visits. *)
Definition timestamp_cursor (lo hi : Z) (st : ObjectStore) : list (Z * obj) :=
  merge_sort index_le (filter (in_range lo hi) (map_to_list (recs st))).

(** [IDBKeyRange.bound(lower, upper)] on the results of [getTime()], where
    [None] is the NaN of an invalid date: it throws a [DataError] when a
    bound is not a valid key or the lower one is greater than the upper. *)
Definition IDBKeyRange_bound (lower upper : option Z) : M (Z * Z) :=
  match lower, upper with
  | Some lo, Some hi => if decide (hi < lo) then reject DataError else mret (lo, hi)
  | _, _ => reject DataError
  end.

(** The cursor loop shared by [getTransactionsByMonth] and
    [getTransactionsByDateRange]. *)
Fixpoint collect_cursor (budgetId : jsval) (es : list (Z * obj)) (results : list obj)
    : M (list obj) :=
  match es with
  | [] => request ;; mret results
  | (_, value) :: es' =>
      request ;;
      collect_cursor budgetId es'
        (if strict_eq (get_field value "budgetId") budgetId
         then results ++ [value] else results)
  end.

(** The cursor loop of [deleteTransactionsByDateRange]. *)
Fixpoint delete_cursor (budgetId : jsval) (es : list (Z * obj)) (count : Z) : M Z :=
  match es with
  | [] => request ;; mret count
  | (k, value) :: es' =>
      request ;;
      if strict_eq (get_field value "budgetId") budgetId
      then request ;; transactions_delete k ;; delete_cursor budgetId es' (count + 1)
      else delete_cursor budgetId es' count
  end.

(** [startDate] and [endDate] are the [getTime()] of the two [Date]s. *)
Definition getTransactionsByDateRange (startDate endDate : option Z) (budgetId : jsval)
    : M (list obj) :=
  initDB ;;
  transaction (
    range ← IDBKeyRange_bound startDate endDate;
    es ← read (λ d, timestamp_cursor range.1 range.2 (transactions d));
    collect_cursor budgetId es []).

Definition deleteTransactionsByDateRange (startDate endDate : option Z) (budgetId : jsval)
    : M Z :=
  initDB ;;
  transaction (
    range ← IDBKeyRange_bound startDate endDate;
    es ← read (λ d, timestamp_cursor range.1 range.2 (transactions d));
    delete_cursor budgetId es 0).

(** ** Dates *)

(** The abstract operations behind [new Date(year, month, date, ...)], on
    integer arguments. *)
Definition msPerDay : Z := 86400000.

Definition DayFromYear (y : Z) : Z :=
  365 * (y - 1970) + (y - 1969) / 4 - (y - 1901) / 100 + (y - 1601) / 400.

Definition InLeapYear (y : Z) : bool :=
  (y mod 4 =? 0) && (negb (y mod 100 =? 0) || (y mod 400 =? 0)).

(** Days of the year before month [mn] (0 is January). *)
Definition days_before_month (mn : Z) (leap : bool) : Z :=
  let l := if leap then 1 else 0 in
  if mn =? 0 then 0
  else if mn =? 1 then 31
  else if mn =? 2 then 59 + l
  else if mn =? 3 then 90 + l
  else if mn =? 4 then 120 + l
  else if mn =? 5 then 151 + l
  else if mn =? 6 then 181 + l
  else if mn =? 7 then 212 + l
  else if mn =? 8 then 243 + l
  else if mn =? 9 then 273 + l
  else if mn =? 10 then 304 + l
  else 334 + l.

(** [MakeDay]: months beyond 0..11 carry into the year, and the day of the
    month counts on from day 1 in either direction. *)
Definition MakeDay (year month date : Z) : Z :=
  let ym := year + month / 12 in
  let mn := month mod 12 in
  DayFromYear ym + days_before_month mn (InLeapYear ym) + date - 1.

Definition MakeTime (hour min sec ms : Z) : Z :=
  hour * 3600000 + min * 60000 + sec * 1000 + ms.

Definition MakeDate (day time : Z) : Z := day * msPerDay + time.

(** A time value beyond 8.64e15 ms from the epoch is NaN. *)
Definition TimeClip (t : Z) : option Z :=
  if decide (Z.abs t ≤ 8640000000000000) then Some t else None.

Section LocalTime.
(** The host's conversion from local time to UTC. *)
Variable UTC : Z → Z.

(** [new Date(year, month, date, hours, minutes, seconds, ms).getTime()].
    A year from 0 to 99 stands for 1900 + year. *)
Definition new_Date (year month date hours minutes seconds ms : Z) : option Z :=
  let yr := if decide (0 ≤ year ≤ 99) then 1900 + year else year in
  TimeClip (UTC (MakeDate (MakeDay yr month date) (MakeTime hours minutes seconds ms))).

Definition getTransactionsByMonth (year month : Z) (budgetId : jsval) : M (list obj) :=
  initDB ;;
  transaction (
    let startOfMonth := new_Date year month 1 0 0 0 0 in
    let endOfMonth := new_Date year (month + 1) 0 23 59 59 999 in
    range ← IDBKeyRange_bound startOfMonth endOfMonth;
    es ← read (λ d, timestamp_cursor range.1 range.2 (transactions d));
    collect_cursor budgetId es []).

(** *** The month of the calendar, in the words of the specification *)

(** Length of month [m] (0..11) of year [y]. *)
Definition days_in_month (y m : Z) : Z :=
  if m =? 1 then (if InLeapYear y then 29 else 28)
  else if (m =? 3) || (m =? 5) || (m =? 8) || (m =? 10) then 30
  else 31.

(** Day number (days since the epoch) of day [d] of month [m] of year [y]. *)
Definition day_number (y m d : Z) : Z :=
  DayFromYear y + days_before_month m (InLeapYear y) + (d - 1).

(** Day 1, 00:00:00.000 local time. *)
Definition first_instant_of_month (y m : Z) : Z :=
  UTC (day_number y m 1 * msPerDay).

(** Last day, 23:59:59.999 local time. *)
Definition last_instant_of_month (y m : Z) : Z :=
  UTC (day_number y m (days_in_month y m) * msPerDay
       + (23 * 3600000 + 59 * 60000 + 59 * 1000 + 999)).
End LocalTime.

(** ** Calls of [initDB] in flight together *)

(** [initDB] suspends between [indexedDB.open] and the request's [onsuccess]
    or [onerror]; other calls may be issued meanwhile.  The events of the
    event loop are a fresh call and the settling of a pending open request. *)
Module InitRace.

Inductive Event :=
  | Call                      (* some caller invokes [initDB()] *)
  | OpenSucceeds (req : nat)  (* [request.onsuccess] of open request [req] *)
  | OpenFails (req : nat).    (* [request.onerror] of open request [req] *)

Inductive Outcome :=
  | Handle (h : nat)          (* the promise resolved with connection [h] *)
  | Failed.

(** [requests] counts the [indexedDB.open] calls made, [connections] those
    that succeeded; the connection of request [r] is handle [r].  [pending]
    pairs each unsettled request with its caller, [delivered] each settled
    caller with what its promise settled to. *)
Record State := mkState {
  dbInstance : option nat;
  calls : nat;
  requests : nat;
  connections : nat;
  pending : list (nat * nat);
  delivered : list (nat * Outcome)
}.

Definition init : State :=
  {| dbInstance := None; calls := 0; requests := 0; connections := 0;
     pending := []; delivered := [] |}.

Definition find_pending (r : nat) (p : list (nat * nat)) : option nat :=
  (λ ix, ix.2.2) <$> list_find (λ x, x.1 = r) p.

Definition drop_pending (r : nat) (p : list (nat * nat)) : list (nat * nat) :=
  filter (λ x, x.1 ≠ r) p.

Definition step (s : State) (e : Event) : State :=
  match e with
  | Call =>
      let c := calls s in
      match dbInstance s with
      | Some h =>
          {| dbInstance := Some h; calls := S c; requests := requests s;
             connections := connections s; pending := pending s;
             delivered := delivered s ++ [(c, Handle h)] |}
      | None =>
          {| dbInstance := None; calls := S c; requests := S (requests s);
             connections := connections s;
             pending := pending s ++ [(requests s, c)];
             delivered := delivered s |}
      end
  | OpenSucceeds r =>
      match find_pending r (pending s) with
      | Some c =>
          {| dbInstance := Some r; calls := calls s; requests := requests s;
             connections := S (connections s);
             pending := drop_pending r (pending s);
             delivered := delivered s ++ [(c, Handle r)] |}
      | None => s
      end
  | OpenFails r =>
      match find_pending r (pending s) with
      | Some c =>
          {| dbInstance := dbInstance s; calls := calls s; requests := requests s;
             connections := connections s;
             pending := drop_pending r (pending s);
             delivered := delivered s ++ [(c, Failed)] |}
      | None => s
      end
  end.

Definition run (s : State) (tr : list Event) : State := foldl step s tr.

(** The handles callers were given. *)
Definition handles (s : State) : list nat :=
  omap (λ x, match x.2 with Handle h => Some h | Failed => None end) (delivered s).

(** No call is issued while an open request is unsettled. *)
Fixpoint one_at_a_time (s : State) (tr : list Event) : bool :=
  match tr with
  | [] => true
  | Call :: tr' => bool_decide (pending s = []) && one_at_a_time (step s Call) tr'
  | e :: tr' => one_at_a_time (step s e) tr'
  end.

(** What holds while calls come one at a time: at most one request is
    pending; before the first success nothing was handed out, and after it
    the memo is the one connection, which is what everyone got. *)
Definition settled (s : State) : Prop :=
  (length (pending s) ≤ 1)%nat ∧
  match dbInstance s with
  | None => connections s = 0%nat ∧ handles s = []
  | Some h => connections s = 1%nat ∧ pending s = [] ∧ Forall (λ x, x = h) (handles s)
  end.

End InitRace.

(** ** The rest of the public interface *)

(** [request.result || null]: the record, or [None] for [null]. *)
Definition getBudget (id : Z) : M (option obj) :=
  initDB ;;
  transaction (request ;; read (λ d, recs (budgets d) !! id)).

Definition getAllBudgets : M (list obj) :=
  initDB ;; getAllBudgetsInternal.

(** [index.getAll(budgetId)] on the [budgetId] index, for a number: the
    records whose [budgetId] is that number, in primary-key order. *)
Definition budgetId_index (budgetId : Z) (st : ObjectStore) : list (Z * obj) :=
  merge_sort key_le
    (filter (λ e, get_field e.2 "budgetId" = JNum budgetId) (map_to_list (recs st))).

Definition getAllTransactions (budgetId : Z) : M (list obj) :=
  initDB ;;
  transaction (request ;; read (λ d, (budgetId_index budgetId (transactions d)).*2)).

(** [{ min, max }]: each is [null] ([None]), or a [Date] by its time value,
    where [Some None] is an invalid date. *)
Record DateBounds := mkDateBounds {
  min_date : option (option Z);
  max_date : option (option Z)
}.

Section Bounds.
(** [ToNumber], where [None] is NaN.  Only what it does to numbers matters
    below. *)
Variable ToNumber : jsval → option Z.

(** [Math.min(...args)] and [Math.max(...args)] for at least one argument:
    NaN as soon as one argument converts to NaN. *)
Definition Math_min (arg : jsval) (args : list jsval) : option Z :=
  foldl (λ acc v, a ← acc; n ← ToNumber v; Some (Z.min a n)) (ToNumber arg) args.

Definition Math_max (arg : jsval) (args : list jsval) : option Z :=
  foldl (λ acc v, a ← acc; n ← ToNumber v; Some (Z.max a n)) (ToNumber arg) args.

(** [new Date(value)] for a number. *)
Definition Date_of_number (value : option Z) : option Z := value ≫= TimeClip.

Definition getDataDateBounds (budgetId : Z) : M DateBounds :=
  initDB ;;
  transactions ← getAllTransactions budgetId;
  match transactions with
  | [] => mret {| min_date := None; max_date := None |}
  | t :: ts =>
      let timestamp := get_field t "timestamp" in
      let timestamps := (λ t : obj, get_field t "timestamp") <$> ts in
      mret {| min_date := Some (Date_of_number (Math_min timestamp timestamps));
              max_date := Some (Date_of_number (Math_max timestamp timestamps)) |}
  end.
End Bounds.

(** ** The note sanitizer of the user interface *)

(** A string by its UTF-16 code units.  [trim] removes white space and line
    terminators from both ends. *)
Definition is_white_space (c : N) : bool :=
  ((c =? 9) || (c =? 10) || (c =? 11) || (c =? 12) || (c =? 13) || (c =? 32)
   || (c =? 160) || (c =? 5760) || ((8192 <=? c) && (c <=? 8202))
   || (c =? 8232) || (c =? 8233) || (c =? 8239) || (c =? 8287)
   || (c =? 12288) || (c =? 65279))%N.

Fixpoint trimStart (s : list N) : list N :=
  match s with
  | c :: s' => if is_white_space c then trimStart s' else s
  | [] => []
  end.

Definition trimEnd (s : list N) : list N := reverse (trimStart (reverse s)).

Definition trim (s : list N) : list N := trimEnd (trimStart s).

(** [c] is neither [<] nor [>]. *)
Definition not_angle (c : N) : Prop := c ≠ 60%N ∧ c ≠ 62%N.

Global Instance not_angle_dec c : Decision (not_angle c).
Proof. unfold not_angle. apply _. Defined.

(** [text.trim().replace(/[<>]/g, '').substring(0, 200)], and [''] for the
    empty string. *)
Definition sanitizeText (text : list N) : list N :=
  match text with
  | [] => []
  | _ => take 200 (filter not_angle (trim text))
  end.

(** ** Well-formed stores *)

(** Every record carries its primary key at the key path. *)
Definition inline_keys_ok (st : ObjectStore) : Prop :=
  map_Forall (λ k record, inline_key record = Some k) (recs st).

Definition store_ok (st : ObjectStore) : Prop := keygen_ok st ∧ inline_keys_ok st.

(** The timestamp a record is ordered by, and the order. *)
Definition timestamp_of (record : obj) : Z :=
  match get_field record "timestamp" with
  | JNum t => t
  | _ => 0
  end.

Definition timestamp_le (a b : obj) : Prop := timestamp_of a ≤ timestamp_of b.

(** The record has a number as its timestamp. *)
Definition has_time (record : obj) : Prop := ∃ t, get_field record "timestamp" = JNum t.

(** Both auto-increment stores are well formed. *)
Definition stores_ok (d : Database) : Prop :=
  store_ok (transactions d) ∧ store_ok (budgets d).

(** A computation that keeps the stores well formed, however it settles. *)
Definition preserves_ok {A} (m : M A) : Prop :=
  ∀ w r w', m w = (r, w') → stores_ok (db w) → stores_ok (db w').

(** A step that leaves the connection and the clock alone. *)
Definition keeps_connection {A} (m : M A) : Prop :=
  ∀ w r w', m w = (r, w') →
    dbInstance w' = dbInstance w ∧ opened w' = opened w ∧ clock w' = clock w.

(** ** What the statements below speak of *)

(** What a request leaves of the world: everything but the schedule. *)
Definition same_but_faults (w w' : World) : Prop :=
  db w' = db w ∧ dbInstance w' = dbInstance w ∧ opened w' = opened w ∧
  clock w' = clock w ∧ writes w' = writes w.

(** The record [createBudgetInternal] stores. *)
Definition budget_record (id : Z) (name target : jsval) (created : Z) : obj :=
  <["id" := JNum id]>
    (<["name" := name]> (<["target" := target]> (<["created" := JNum created]> ∅))).

(** What the cursor loop does to one record. *)
Definition backfill (budgetId : jsval) (record : obj) : obj :=
  if truthy (get_field record "budgetId") then record
  else <["budgetId" := budgetId]> record.

(** The updates the loop issues, in cursor order. *)
Definition backfill_puts (es : list (Z * obj)) : list WriteOp :=
  omap (λ e, if truthy (get_field e.2 "budgetId") then None else Some (WTxPut e.1)) es.

Definition backfill_step (budgetId : jsval) (m : gmap Z obj) (e : Z * obj) : gmap Z obj :=
  if truthy (get_field e.2 "budgetId") then m
  else <[e.1 := <["budgetId" := budgetId]> e.2]> m.

Definition is_tx_put (x : WriteOp) : Prop := ∃ k, x = WTxPut k.

Definition flag_write (x : WriteOp) : Prop := ∃ v, x = WSettingPut "migrationV2Done" v.

(** From [w] to [w'] the writes [l] were served, none of them to the
    completion flag, whose record is as it was. *)
Definition quiet (w w' : World) (l : list WriteOp) : Prop :=
  settings (db w') !! "migrationV2Done" = settings (db w) !! "migrationV2Done" ∧
  writes w' = writes w ++ l ∧
  Forall (λ x, ¬ flag_write x) l.

(** The last step: either the flag is written, as the last write, or
    nothing is. *)
Definition outcome (w : World) (r : Res ()) (w' : World) : Prop :=
  ∃ l, writes w' = writes w ++ l ∧
    match r with
    | Rejected _ =>
        settings (db w') !! "migrationV2Done" = settings (db w) !! "migrationV2Done" ∧
        Forall (λ x, ¬ flag_write x) l
    | Resolved _ =>
        truthy (setting_value (db w') "migrationV2Done") = true ∧
        ((db w' = db w ∧ l = []) ∨
         (truthy (setting_value (db w) "migrationV2Done") = false ∧
          setting_value (db w') "migrationV2Done" = JBool true ∧
          ∃ l0, l = l0 ++ [WSettingPut "migrationV2Done" (JBool true)] ∧
                Forall (λ x, ¬ flag_write x) l0))
    end.

(** The world a served run leaves when it finds no flag and no budget. *)
Definition first_migration (w : World) : World :=
  let id := keygen (budgets (db w)) in
  let monthlyTarget := setting_value (db w) "monthlyTarget" in
  {| db :=
       {| transactions :=
            {| recs := backfill (JNum id) <$> recs (transactions (db w));
               keygen := keygen (transactions (db w)) |};
          budgets :=
            {| recs := <[id := budget_record id (JStr "Personal Budget")
                                 (js_or monthlyTarget (JNum 1000)) (clock w)]>
                         (recs (budgets (db w)));
               keygen := id + 1 |};
          settings :=
            <["migrationV2Done" := setting_record "migrationV2Done" (JBool true)]>
              (<["currentBudgetId" := setting_record "currentBudgetId" (JNum id)]>
                 (settings (db w))) |};
     dbInstance := dbInstance w; opened := opened w; faults := [];
     clock := clock w;
     writes :=
       ((((writes w ++ [WBudgetAdd id])
          ++ backfill_puts (entries_by_key (transactions (db w))))
         ++ [WSettingPut "currentBudgetId" (JNum id)])
        ++ [WSettingPut "migrationV2Done" (JBool true)]) |}.

(** *** Requests served and requests failed *)

(** Between [w] and [w'] the schedule lost the entries [pre], all of them
    requests that were served. *)
Definition served_all (w w' : World) : Prop :=
  ∃ pre, faults w = pre ++ faults w' ∧ Forall (λ b, b = false) pre.

(** Between [w] and [w'] some requests were served and then one failed;
    nothing was asked of the engine after it. *)
Definition failed_one (w w' : World) : Prop :=
  ∃ pre, faults w = pre ++ true :: faults w' ∧ Forall (λ b, b = false) pre.

(** A computation that resolves exactly when every request it makes is
    served, and otherwise rejects with the error of the first failed one. *)
Definition fails_with_engine {A} (m : M A) : Prop :=
  ∀ w r w', m w = (r, w') →
    match r with
    | Resolved _ => served_all w w'
    | Rejected e => e = StorageError ∧ failed_one w w'
    end.

(** A step that makes no request. *)
Definition no_request {A} (m : M A) : Prop :=
  ∀ w, ∃ a w', m w = (Resolved a, w') ∧ faults w' = faults w.

(** *** A legacy store *)

(** A version-1 transaction: no [budgetId]. *)
Definition legacy_transaction (id timestamp : Z) : obj :=
  <["id" := JNum id]> (<["amount" := JNum 5]> (<["category" := JStr "Food"]>
    (<["note" := JStr ""]> (<["timestamp" := JNum timestamp]> ∅)))).

(** [monthlyTarget] 1500 and three transactions without [budgetId]. *)
Definition legacy_store : Database :=
  {| transactions :=
       {| recs := <[1 := legacy_transaction 1 100]>
                    (<[2 := legacy_transaction 2 50]>
                       (<[3 := legacy_transaction 3 70]> ∅));
          keygen := 4 |};
     budgets := {| recs := ∅; keygen := 1 |};
     settings := <["monthlyTarget" := setting_record "monthlyTarget" (JNum 1500)]> ∅ |}.

Definition legacy_world (schedule : list bool) : World :=
  {| db := legacy_store; dbInstance := None; opened := 0; faults := schedule;
     clock := 1700000000000; writes := [] |}.

(** A store just created: nothing in it. *)
Definition fresh_world : World :=
  {| db := {| transactions := {| recs := ∅; keygen := 1 |};
              budgets := {| recs := ∅; keygen := 1 |};
              settings := ∅ |};
     dbInstance := None; opened := 0; faults := []; clock := 1700000000000;
     writes := [] |}.

(** The [budgetId] of a record is the key of a stored budget. *)
Definition references_budget (d : Database) (record : obj) : Prop :=
  ∃ b, get_field record "budgetId" = JNum b ∧ is_Some (recs (budgets d) !! b).

(** A migrated store holding falsy settings. *)
Definition settled_world : World :=
  {| db :=
       {| transactions := {| recs := ∅; keygen := 1 |};
          budgets := {| recs := ∅; keygen := 1 |};
          settings :=
            <["migrationV2Done" := setting_record "migrationV2Done" (JBool true)]>
              (<["monthlyTarget" := setting_record "monthlyTarget" (JNum 0)]>
                 (<["onboarded" := setting_record "onboarded" (JBool false)]>
                    (<["nickname" := setting_record "nickname" (JStr "")]> ∅))) |};
     dbInstance := None; opened := 0; faults := []; clock := 1700000000000;
     writes := [] |}.

(** A valid input of [addTransaction]: amount, category, budget, and a note
    or none. *)
Definition transaction_input
    (amount : Z) (category : string) (note : option string) (budgetId : Z) : obj :=
  let o : obj :=
    <["amount" := JNum amount]>
      (<["category" := JStr category]> (<["budgetId" := JNum budgetId]> ∅)) in
  match note with
  | Some n => <["note" := JStr n]> o
  | None => o
  end.

(** The record literal [addTransaction] builds from its argument. *)
Definition transaction_record (input : obj) (timestamp : Z) : obj :=
  <["amount" := get_field input "amount"]>
  (<["category" := get_field input "category"]>
  (<["note" := js_or (get_field input "note") (JStr "")]>
  (<["budgetId" := get_field input "budgetId"]>
  (<["timestamp" := JNum timestamp]> ∅)))).

Definition budget_matches (budgetId : jsval) (e : Z * obj) : Prop :=
  strict_eq (get_field e.2 "budgetId") budgetId = true.

Global Instance budget_matches_dec budgetId e : Decision (budget_matches budgetId e).
Proof. unfold budget_matches. apply _. Defined.

(** A record inside the bounds, timestamp and budget. *)
Definition within (lo hi : Z) (budgetId : jsval) (e : Z * obj) : Prop :=
  budget_matches budgetId e ∧ in_range lo hi e.

Global Instance within_dec lo hi budgetId e : Decision (within lo hi budgetId e).
Proof. unfold within. apply _. Defined.

(** A transaction of a given instant and budget. *)
Definition dated_transaction (id timestamp budgetId : Z) : obj :=
  <["id" := JNum id]>
    (<["timestamp" := JNum timestamp]>
       (transaction_input 1250 "Food" (Some "") budgetId)).

(** Budget 1 has a transaction on the first and on the last millisecond of
    February 2024 (UTC), one on the first of March, and one from January
    1999; budget 2 has one in mid February. *)
Definition calendar_world : World :=
  {| db :=
       {| transactions :=
            {| recs :=
                 <[1 := dated_transaction 1 1706745600000 1]>
                 (<[2 := dated_transaction 2 1709251199999 1]>
                 (<[3 := dated_transaction 3 1709251200000 1]>
                 (<[4 := dated_transaction 4 1707000000000 2]>
                 (<[5 := dated_transaction 5 915148800000 1]> ∅))));
               keygen := 6 |};
          budgets :=
            {| recs := <[1 := budget_record 1 (JStr "Personal Budget") (JNum 1000) 0]>
                         (<[2 := budget_record 2 (JStr "Travel") (JNum 300) 0]> ∅);
               keygen := 3 |};
          settings :=
            <["migrationV2Done" := setting_record "migrationV2Done" (JBool true)]> ∅ |};
     dbInstance := None; opened := 0; faults := []; clock := 1710000000000;
     writes := [] |}.

(** A store met half-way: transaction 1 already belongs to budget 7,
    transaction 2 to none; no budget, no flag. *)
Definition mixed_world (schedule : list bool) : World :=
  {| db :=
       {| transactions :=
            {| recs := <[1 := <["budgetId" := JNum 7]> (legacy_transaction 1 100)]>
                         (<[2 := legacy_transaction 2 50]> ∅);
               keygen := 3 |};
          budgets := {| recs := ∅; keygen := 1 |};
          settings := ∅ |};
     dbInstance := None; opened := 0; faults := schedule; clock := 1700000000000;
     writes := [] |}.

(** The operation changes nothing but the schedule of failures it consumes. *)
Definition read_only {A} (m : M A) : Prop :=
  ∀ w r w', m w = (r, w') → same_but_faults w w'.

(** The operation leaves everything as its [initDB] left it. *)
Definition reads_after_initDB {A} (m : M A) : Prop :=
  ∀ w r w', m w = (r, w') → ∃ r0 w1, initDB w = (r0, w1) ∧ same_but_faults w1 w'.

(** * Properties *)

(** ** Running a computation *)

Lemma bind_resolved {A B} (m : M A) (f : A → M B) w a w' :
  m w = (Resolved a, w') → (m ≫= f) w = f a w'.
Proof. intros H. unfold mbind, M_bind. by rewrite H. Qed.

Lemma bind_rejected {A B} (m : M A) (f : A → M B) w e w' :
  m w = (Rejected e, w') → (m ≫= f) w = (Rejected e, w').
Proof. intros H. unfold mbind, M_bind. by rewrite H. Qed.

Lemma bind_inv {A B} (m : M A) (f : A → M B) w r w' :
  (m ≫= f) w = (r, w') →
  (∃ e, m w = (Rejected e, w') ∧ r = Rejected e) ∨
  (∃ a w1, m w = (Resolved a, w1) ∧ f a w1 = (r, w')).
Proof.
  unfold mbind, M_bind. destruct (m w) as [[a|e] w1]; intros H.
  - right. eauto.
  - left. exists e. by inversion H.
Qed.

Lemma transaction_inv {A} (body : M A) w r w' :
  transaction body w = (r, w') →
  (∃ a, r = Resolved a ∧ body w = (Resolved a, w')) ∨
  (∃ e w1, r = Rejected e ∧ body w = (Rejected e, w1) ∧ w' = set_db (db w) w1).
Proof.
  unfold transaction. destruct (body w) as [[a|e] w1]; intros H; inversion H; subst.
  - left. eauto.
  - right. eauto.
Qed.

Lemma transaction_resolved {A} (body : M A) w a w' :
  body w = (Resolved a, w') → transaction body w = (Resolved a, w').
Proof. intros H. unfold transaction. by rewrite H. Qed.

Lemma request_served w : faults w = [] → request w = (Resolved (), w).
Proof. intros H. unfold request. by rewrite H. Qed.

Lemma request_inv w r w' : request w = (r, w') → same_but_faults w w'.
Proof.
  unfold request. destruct (faults w) as [|[] f]; intros H; inversion H; subst;
    by repeat split.
Qed.

(** ** Settings *)

Lemma setting_value_record d key value :
  settings d !! key = Some (setting_record key value) → setting_value d key = value.
Proof.
  intros H. unfold setting_value. rewrite H. unfold get_field, setting_record.
  rewrite lookup_insert_ne by done. by rewrite lookup_insert_eq.
Qed.

Lemma setting_value_insert d key value :
  setting_value (set_settings (<[key := setting_record key value]> (settings d)) d) key = value.
Proof.
  unfold setting_value. simpl. rewrite lookup_insert_eq.
  unfold get_field, setting_record.
  rewrite lookup_insert_ne by done. by rewrite lookup_insert_eq.
Qed.

Lemma setting_value_insert_ne d key key' value :
  key ≠ key' →
  setting_value (set_settings (<[key := setting_record key value]> (settings d)) d) key'
  = setting_value d key'.
Proof. intros H. unfold setting_value. simpl. by rewrite lookup_insert_ne. Qed.

Lemma getSettingInternal_served key w :
  faults w = [] →
  getSettingInternal key w = (Resolved (setting_value (db w) key), w).
Proof.
  intros H. unfold getSettingInternal, transaction.
  by rewrite (bind_resolved _ _ _ _ _ (request_served w H)).
Qed.

Lemma getSettingInternal_inv key w r w' :
  getSettingInternal key w = (r, w') →
  same_but_faults w w' ∧ ∀ v, r = Resolved v → v = setting_value (db w) key.
Proof.
  unfold getSettingInternal. intros H.
  apply transaction_inv in H as [(a & -> & H)|(e & w1 & -> & H & ->)];
    apply bind_inv in H as [(e' & H & ?)|(? & w2 & H & H2)]; try done.
  - apply request_inv in H as (Hd & ? & ? & ? & ?). inversion H2; subst.
    split; [done|]. intros v [= <-]. by rewrite Hd.
  - apply request_inv in H as (Hd & ? & ? & ? & ?). by split.
Qed.

Lemma setSettingInternal_served key value w :
  faults w = [] →
  setSettingInternal key value w =
    (Resolved (),
     log_write (WSettingPut key value)
       (set_db (set_settings (<[key := setting_record key value]> (settings (db w))) (db w)) w)).
Proof.
  intros H. unfold setSettingInternal, transaction.
  by rewrite (bind_resolved _ _ _ _ _ (request_served w H)).
Qed.

Lemma setSettingInternal_inv key value w r w' :
  setSettingInternal key value w = (r, w') →
  (r = Resolved () ∧
   db w' = set_settings (<[key := setting_record key value]> (settings (db w))) (db w) ∧
   writes w' = writes w ++ [WSettingPut key value]) ∨
  (∃ e, r = Rejected e ∧ db w' = db w ∧ writes w' = writes w).
Proof.
  unfold setSettingInternal. intros H.
  apply transaction_inv in H as [(a & -> & H)|(e & w1 & -> & H & ->)];
    apply bind_inv in H as [(e' & H & ?)|(? & w2 & H & H2)]; try done.
  - apply request_inv in H as (Hd & ? & ? & ? & Hw). inversion H2; subst.
    left. simpl. by rewrite Hd, Hw.
  - apply request_inv in H as (Hd & ? & ? & ? & Hw). right. by exists e.
Qed.

(** ** Budgets *)

Lemma entries_by_key_perm st : entries_by_key st ≡ₚ map_to_list (recs st).
Proof. apply merge_sort_Permutation. Qed.

Lemma entries_by_key_empty st : entries_by_key st = [] ↔ recs st = ∅.
Proof.
  rewrite <- map_to_list_empty_iff. split; intros H.
  - apply Permutation_nil_r. rewrite <- H. symmetry. apply entries_by_key_perm.
  - apply Permutation_nil_r. rewrite <- H at 1. apply entries_by_key_perm.
Qed.

Lemma getAllBudgetsInternal_served w :
  faults w = [] →
  getAllBudgetsInternal w = (Resolved ((entries_by_key (budgets (db w))).*2), w).
Proof.
  intros H. unfold getAllBudgetsInternal, transaction.
  by rewrite (bind_resolved _ _ _ _ _ (request_served w H)).
Qed.

Lemma getAllBudgetsInternal_inv w r w' :
  getAllBudgetsInternal w = (r, w') →
  same_but_faults w w' ∧ ∀ l, r = Resolved l → l = (entries_by_key (budgets (db w))).*2.
Proof.
  unfold getAllBudgetsInternal. intros H.
  apply transaction_inv in H as [(a & -> & H)|(e & w1 & -> & H & ->)];
    apply bind_inv in H as [(e' & H & ?)|(? & w2 & H & H2)]; try done.
  - apply request_inv in H as (Hd & ? & ? & ? & ?). inversion H2; subst.
    split; [done|]. intros v [= <-]. by rewrite Hd.
  - apply request_inv in H as (Hd & ? & ? & ? & ?). by split.
Qed.

Lemma createBudgetInternal_served name target w :
  faults w = [] →
  createBudgetInternal name target w =
    (Resolved (keygen (budgets (db w))),
     log_write (WBudgetAdd (keygen (budgets (db w))))
       (set_db (set_budgets
          {| recs := <[keygen (budgets (db w)) :=
                        budget_record (keygen (budgets (db w))) name target (clock w)]>
                       (recs (budgets (db w)));
             keygen := keygen (budgets (db w)) + 1 |} (db w)) w)).
Proof.
  intros H. unfold createBudgetInternal, transaction, now.
  unfold mbind at 1, M_bind at 1.
  by rewrite (bind_resolved _ _ _ _ _ (request_served w H)).
Qed.

Lemma createBudgetInternal_inv name target w r w' :
  createBudgetInternal name target w = (r, w') →
  settings (db w') = settings (db w) ∧
  transactions (db w') = transactions (db w) ∧
  ((r = Resolved (keygen (budgets (db w))) ∧
    writes w' = writes w ++ [WBudgetAdd (keygen (budgets (db w)))]) ∨
   (∃ e, r = Rejected e ∧ db w' = db w ∧ writes w' = writes w)).
Proof.
  unfold createBudgetInternal, now. intros H.
  apply transaction_inv in H as [(a & -> & H)|(e & w1 & -> & H & ->)];
    unfold mbind at 1, M_bind at 1 in H;
    apply bind_inv in H as [(e' & H & ?)|(? & w2 & H & H2)]; try done.
  - apply request_inv in H as (Hd & ? & ? & ? & Hw).
    unfold budgets_add in H2. simpl in H2. inversion H2; subst. simpl.
    rewrite Hd, Hw. repeat split; auto.
  - apply request_inv in H as (Hd & ? & ? & ? & Hw). simpl.
    repeat split; auto. right. by exists e.
Qed.

(** ** The backfill of transactions *)

Lemma backfill_puts_cons k record es :
  backfill_puts ((k, record) :: es) =
  (if truthy (get_field record "budgetId") then [] else [WTxPut k]) ++ backfill_puts es.
Proof. unfold backfill_puts. simpl. by destruct (truthy _). Qed.

Lemma migrate_cursor_served budgetId es : ∀ w,
  faults w = [] →
  migrate_cursor budgetId es w =
    (Resolved (),
     {| db := set_transactions
                {| recs := foldl (backfill_step budgetId) (recs (transactions (db w))) es;
                   keygen := keygen (transactions (db w)) |} (db w);
        dbInstance := dbInstance w; opened := opened w; faults := [];
        clock := clock w; writes := writes w ++ backfill_puts es |}).
Proof.
  induction es as [|[k record] es IH]; intros w Hf.
  - simpl. rewrite (request_served w Hf). f_equal.
    destruct w as [[[] ? ?] ? ? ? ? ?]; simpl in *. subst.
    by rewrite app_nil_r.
  - cbn [migrate_cursor].
    rewrite (bind_resolved _ _ _ _ _ (request_served w Hf)).
    rewrite backfill_puts_cons. cbn [foldl].
    unfold backfill_step at 2. cbn [fst snd].
    destruct (truthy (get_field record "budgetId")) eqn:Ht.
    + unfold mbind at 1, M_bind at 1, mret, M_ret. by rewrite (IH w Hf).
    + rewrite (bind_resolved _ _ w ()
        (log_write (WTxPut k)
           (set_db (set_transactions
              {| recs := <[k := <["budgetId" := budgetId]> record]> (recs (transactions (db w)));
                 keygen := keygen (transactions (db w)) |} (db w)) w))).
      2:{ by rewrite (bind_resolved _ _ _ _ _ (request_served w Hf)). }
      rewrite IH by done. simpl. by rewrite <- app_assoc.
Qed.

Lemma migrate_cursor_inv budgetId es : ∀ w r w',
  migrate_cursor budgetId es w = (r, w') →
  settings (db w') = settings (db w) ∧ budgets (db w') = budgets (db w) ∧
  ∃ l, writes w' = writes w ++ l ∧ Forall is_tx_put l.
Proof.
  induction es as [|[k record] es IH]; intros w r w' H.
  - simpl in H. apply request_inv in H as (Hd & ? & ? & ? & Hw).
    rewrite Hd. repeat split. exists []. by rewrite app_nil_r.
  - cbn [migrate_cursor] in H.
    apply bind_inv in H as [(e & H & ->)|([] & w1 & H & H2)].
    { apply request_inv in H as (Hd & ? & ? & ? & Hw).
      rewrite Hd. repeat split. exists []. by rewrite app_nil_r. }
    apply request_inv in H as (Hd & ? & ? & ? & Hw).
    apply bind_inv in H2 as [(e & H2 & ->)|([] & w2 & H2 & H3)].
    + destruct (truthy (get_field record "budgetId")); [done|].
      apply bind_inv in H2 as [(e' & H2 & ?)|([] & w3 & H2 & H4)]; [|done].
      apply request_inv in H2 as (Hd2 & ? & ? & ? & Hw2).
      rewrite Hd2, Hd. repeat split. exists []. rewrite app_nil_r.
      split; [congruence|constructor].
    + destruct (truthy (get_field record "budgetId")).
      * inversion H2; subst. apply IH in H3 as (Hs & Hb & l & Hl & HF).
        rewrite Hs, Hb, Hd. repeat split. exists l. by rewrite Hl, Hw.
      * apply bind_inv in H2 as [(e' & H2 & ?)|([] & w3 & H2 & H4)]; [done|].
        apply request_inv in H2 as (Hd2 & ? & ? & ? & Hw2).
        unfold cursor_update in H4. inversion H4; subst. clear H4.
        apply IH in H3 as (Hs & Hb & l & Hl & HF).
        rewrite Hs, Hb. simpl. rewrite Hd2, Hd. repeat split.
        exists (WTxPut k :: l). split.
        -- rewrite Hl. simpl. rewrite Hw2, Hw. by rewrite <- app_assoc.
        -- constructor; [by exists k|done].
Qed.

(** Visiting every record once, in any order, is a map over the store. *)
Lemma backfill_fold_lookup budgetId es : ∀ m : gmap Z obj,
  NoDup es.*1 →
  (∀ k r, (k, r) ∈ es → m !! k = Some r) →
  ∀ k, foldl (backfill_step budgetId) m es !! k =
       if decide (k ∈ es.*1) then backfill budgetId <$> m !! k else m !! k.
Proof.
  induction es as [|[k0 r0] es IH]; intros m Hnd Hm k.
  - cbn [foldl]. case_decide as Hin; [|done]. by apply elem_of_nil in Hin.
  - rewrite fmap_cons in Hnd. apply NoDup_cons in Hnd as [Hk0 Hnd]. cbn [foldl].
    assert (Hm0 : m !! k0 = Some r0) by (apply Hm; left).
    rewrite IH; [|done|].
    + destruct (decide (k = k0)) as [->|Hne].
      * rewrite decide_False by done.
        rewrite decide_True by (rewrite fmap_cons; left).
        rewrite Hm0. unfold backfill_step, backfill. simpl.
        destruct (truthy (get_field r0 "budgetId")); [done|].
        by rewrite lookup_insert_eq.
      * assert (Hsame : backfill_step budgetId m (k0, r0) !! k = m !! k).
        { unfold backfill_step. simpl. destruct (truthy _); [done|].
          by rewrite lookup_insert_ne. }
        rewrite Hsame.
        destruct (decide (k ∈ es.*1)) as [Hin|Hin].
        -- by rewrite decide_True by (rewrite fmap_cons; by right).
        -- rewrite decide_False; [done|].
           rewrite fmap_cons. intros [?|?]%elem_of_cons; done.
    + intros k1 r Hin.
      assert (k1 ≠ k0).
      { intros ->. apply Hk0. apply list_elem_of_fmap. by exists (k0, r). }
      unfold backfill_step. simpl. destruct (truthy _).
      * apply Hm. by right.
      * rewrite lookup_insert_ne by done. apply Hm. by right.
Qed.

Lemma backfill_fold budgetId (m : gmap Z obj) es :
  es ≡ₚ map_to_list m →
  foldl (backfill_step budgetId) m es = backfill budgetId <$> m.
Proof.
  intros Hp. apply map_eq. intros k.
  rewrite backfill_fold_lookup.
  - rewrite lookup_fmap. destruct (decide (k ∈ es.*1)) as [Hin|Hin]; [done|].
    destruct (m !! k) as [r|] eqn:Hk; [|done].
    exfalso. apply Hin. apply list_elem_of_fmap. exists (k, r). split; [done|].
    rewrite Hp. by apply elem_of_map_to_list.
  - rewrite Hp. apply NoDup_fst_map_to_list.
  - intros k' r. rewrite Hp. by rewrite elem_of_map_to_list.
Qed.

Lemma migrateTransactionsToBudget_served budgetId w :
  faults w = [] →
  migrateTransactionsToBudget budgetId w =
    (Resolved (),
     {| db := set_transactions
                {| recs := backfill budgetId <$> recs (transactions (db w));
                   keygen := keygen (transactions (db w)) |} (db w);
        dbInstance := dbInstance w; opened := opened w; faults := [];
        clock := clock w;
        writes := writes w ++ backfill_puts (entries_by_key (transactions (db w))) |}).
Proof.
  intros Hf. unfold migrateTransactionsToBudget.
  apply transaction_resolved.
  unfold mbind, M_bind, read. rewrite migrate_cursor_served by done.
  by rewrite backfill_fold by apply entries_by_key_perm.
Qed.

Lemma migrateTransactionsToBudget_inv budgetId w r w' :
  migrateTransactionsToBudget budgetId w = (r, w') →
  settings (db w') = settings (db w) ∧ budgets (db w') = budgets (db w) ∧
  ∃ l, writes w' = writes w ++ l ∧ Forall is_tx_put l.
Proof.
  unfold migrateTransactionsToBudget. intros H.
  apply transaction_inv in H as [(a & -> & H)|(e & w1 & -> & H & ->)];
    unfold mbind, M_bind, read in H;
    apply migrate_cursor_inv in H as (Hs & Hb & l & Hl & HF); eauto.
Qed.

(** ** The migration run, whatever the engine does *)

Lemma quiet_trans w w1 w2 l1 l2 :
  quiet w w1 l1 → quiet w1 w2 l2 → quiet w w2 (l1 ++ l2).
Proof.
  intros (Hs1 & Hw1 & HF1) (Hs2 & Hw2 & HF2). repeat split.
  - congruence.
  - by rewrite Hw2, Hw1, app_assoc.
  - by apply Forall_app.
Qed.

Lemma quiet_same w w' : same_but_faults w w' → quiet w w' [].
Proof.
  intros (Hd & _ & _ & _ & Hw). repeat split.
  - by rewrite Hd.
  - by rewrite app_nil_r.
  - constructor.
Qed.

Lemma createBudgetInternal_quiet name target w r w' :
  createBudgetInternal name target w = (r, w') → ∃ l, quiet w w' l.
Proof.
  intros H. apply createBudgetInternal_inv in H as (Hs & _ & [[_ Hw]|(e & _ & _ & Hw)]).
  - eexists. repeat split; [by rewrite Hs|done|].
    constructor; [|constructor]. by intros [v Hv].
  - exists []. repeat split; [by rewrite Hs|by rewrite app_nil_r|constructor].
Qed.

Lemma migrateTransactionsToBudget_quiet budgetId w r w' :
  migrateTransactionsToBudget budgetId w = (r, w') → ∃ l, quiet w w' l.
Proof.
  intros H. apply migrateTransactionsToBudget_inv in H as (Hs & _ & l & Hw & HF).
  exists l. repeat split; [by rewrite Hs|done|].
  eapply Forall_impl; [done|]. intros x [k ->] [v Hv]. done.
Qed.

Lemma setSettingInternal_quiet key value w r w' :
  key ≠ "migrationV2Done" →
  setSettingInternal key value w = (r, w') → ∃ l, quiet w w' l.
Proof.
  intros Hk H. apply setSettingInternal_inv in H as [(_ & Hd & Hw)|(e & _ & Hd & Hw)].
  - eexists. repeat split; [|done|].
    + rewrite Hd. simpl. by rewrite lookup_insert_ne.
    + constructor; [|constructor]. intros [v Hv]. congruence.
  - exists []. repeat split; [by rewrite Hd|by rewrite app_nil_r|constructor].
Qed.

Lemma outcome_rejected w r w' e l : r = Rejected e → quiet w w' l → outcome w r w'.
Proof. intros -> (Hs & Hw & HF). exists l. by repeat split. Qed.

Lemma mark_done w w1 r w' l :
  truthy (setting_value (db w) "migrationV2Done") = false →
  quiet w w1 l →
  setSettingInternal "migrationV2Done" (JBool true) w1 = (r, w') →
  outcome w r w'.
Proof.
  intros Hfl Hq H.
  apply setSettingInternal_inv in H as [(-> & Hd & Hw)|(e & -> & Hd & Hw)].
  - destruct Hq as (Hs & Hw1 & HF).
    exists (l ++ [WSettingPut "migrationV2Done" (JBool true)]).
    split; [by rewrite Hw, Hw1, app_assoc|].
    rewrite Hd, setting_value_insert. split; [done|]. right. eauto.
  - apply (outcome_rejected _ _ _ e (l ++ [])); [done|].
    eapply quiet_trans; [done|].
    repeat split; [by rewrite Hd|by rewrite app_nil_r|constructor].
Qed.

Lemma runMigrationIfNeeded_outcome w r w' :
  runMigrationIfNeeded w = (r, w') → outcome w r w'.
Proof.
  unfold runMigrationIfNeeded. intros H.
  apply bind_inv in H as [(e & H & ->)|(done_ & w1 & H & H1)].
  { apply getSettingInternal_inv in H as [Hq _].
    eapply outcome_rejected; [done|]. by apply quiet_same. }
  apply getSettingInternal_inv in H as [Hs1 Hv]. specialize (Hv _ eq_refl). subst done_.
  destruct (truthy (setting_value (db w) "migrationV2Done")) eqn:Hfl.
  { inversion H1; subst. destruct Hs1 as (Hd & _ & _ & _ & Hw).
    exists []. split; [by rewrite app_nil_r|]. rewrite Hd. split; [done|]. by left. }
  apply quiet_same in Hs1.
  apply bind_inv in H1 as [(e & H1 & ->)|(bs & w2 & H1 & H2)].
  { apply getAllBudgetsInternal_inv in H1 as [Hq _]. apply quiet_same in Hq.
    eapply outcome_rejected; [done|]. apply (quiet_trans _ _ _ _ _ Hs1 Hq). }
  apply getAllBudgetsInternal_inv in H1 as [Hs2 _]. apply quiet_same in Hs2.
  pose proof (quiet_trans _ _ _ _ _ Hs1 Hs2) as Hq2. clear Hs1 Hs2.
  destruct (decide (0 < length bs)%nat).
  { eapply mark_done; eauto. }
  apply bind_inv in H2 as [(e & H2 & ->)|(target & w3 & H2 & H3)].
  { apply getSettingInternal_inv in H2 as [Hq _]. apply quiet_same in Hq.
    eapply outcome_rejected; [done|]. apply (quiet_trans _ _ _ _ _ Hq2 Hq). }
  apply getSettingInternal_inv in H2 as [Hs3 _]. apply quiet_same in Hs3.
  pose proof (quiet_trans _ _ _ _ _ Hq2 Hs3) as Hq3. clear Hq2 Hs3.
  apply bind_inv in H3 as [(e & H3 & ->)|(id & w4 & H3 & H4)].
  { apply createBudgetInternal_quiet in H3 as [l Hq].
    eapply outcome_rejected; [done|]. apply (quiet_trans _ _ _ _ _ Hq3 Hq). }
  apply createBudgetInternal_quiet in H3 as [l4 Hs4].
  pose proof (quiet_trans _ _ _ _ _ Hq3 Hs4) as Hq4. clear Hq3 Hs4.
  apply bind_inv in H4 as [(e & H4 & ->)|([] & w5 & H4 & H5)].
  { apply migrateTransactionsToBudget_quiet in H4 as [l Hq].
    eapply outcome_rejected; [done|]. apply (quiet_trans _ _ _ _ _ Hq4 Hq). }
  apply migrateTransactionsToBudget_quiet in H4 as [l5 Hs5].
  pose proof (quiet_trans _ _ _ _ _ Hq4 Hs5) as Hq5. clear Hq4 Hs5.
  apply bind_inv in H5 as [(e & H5 & ->)|([] & w6 & H5 & H6)].
  { apply setSettingInternal_quiet in H5 as [l Hq]; [|done].
    eapply outcome_rejected; [done|]. apply (quiet_trans _ _ _ _ _ Hq5 Hq). }
  apply setSettingInternal_quiet in H5 as [l6 Hs6]; [|done].
  pose proof (quiet_trans _ _ _ _ _ Hq5 Hs6) as Hq6.
  eapply mark_done; eauto.
Qed.

(** ** A failed request aborts the run *)

Create HintDb engine.

Lemma served_all_refl w w' : faults w' = faults w → served_all w w'.
Proof. intros H. exists []. by rewrite H. Qed.

Lemma served_all_trans w w1 w2 : served_all w w1 → served_all w1 w2 → served_all w w2.
Proof.
  intros (p1 & H1 & F1) (p2 & H2 & F2). exists (p1 ++ p2). split.
  - by rewrite H1, H2, app_assoc.
  - by apply Forall_app.
Qed.

Lemma served_then_failed w w1 w2 : served_all w w1 → failed_one w1 w2 → failed_one w w2.
Proof.
  intros (p1 & H1 & F1) (p2 & H2 & F2). exists (p1 ++ p2). split.
  - by rewrite H1, H2, app_assoc.
  - by apply Forall_app.
Qed.

Lemma fails_with_engine_request : fails_with_engine request.
Proof.
  intros w r w'. unfold request. destruct (faults w) as [|[] f] eqn:Hf;
    intros H; inversion H; subst.
  - by apply served_all_refl.
  - split; [done|]. exists []. by rewrite Hf.
  - exists [false]. rewrite Hf. split; [done|]. by constructor.
Qed.

Lemma fails_with_engine_no_request {A} (m : M A) : no_request m → fails_with_engine m.
Proof.
  intros Hm w r w' H. destruct (Hm w) as (a & w1 & Hw & Hf).
  rewrite Hw in H. inversion H; subst. by apply served_all_refl.
Qed.

Lemma fails_with_engine_bind {A B} (m : M A) (f : A → M B) :
  fails_with_engine m → (∀ a, fails_with_engine (f a)) → fails_with_engine (m ≫= f).
Proof.
  intros Hm Hf w r w' H.
  apply bind_inv in H as [(e & H & ->)|(a & w1 & H & H1)].
  - by apply Hm in H.
  - apply Hm in H. apply Hf in H1. destruct r as [b|e].
    + by eapply served_all_trans.
    + destruct H1 as [-> H1]. split; [done|]. by eapply served_then_failed.
Qed.

Lemma fails_with_engine_transaction {A} (body : M A) :
  fails_with_engine body → fails_with_engine (transaction body).
Proof.
  intros Hb w r w' H.
  apply transaction_inv in H as [(a & -> & H)|(e & w1 & -> & H & ->)];
    by apply Hb in H.
Qed.

Lemma no_request_ret {A} (a : A) : no_request (mret a).
Proof. intros w. by exists a, w. Qed.

Lemma no_request_read {A} (f : Database → A) : no_request (read f).
Proof. intros w. by eexists _, w. Qed.

Lemma no_request_write f x : no_request (write f x).
Proof. intros w. by eexists _, _. Qed.

Lemma no_request_now : no_request now.
Proof. intros w. by eexists _, w. Qed.

Lemma no_request_budgets_add record : no_request (budgets_add record).
Proof. intros w. by eexists _, _. Qed.

Lemma no_request_cursor_update k record : no_request (cursor_update k record).
Proof. intros w. by eexists _, _. Qed.

#[export] Hint Resolve fails_with_engine_request fails_with_engine_bind
  fails_with_engine_transaction fails_with_engine_no_request
  no_request_ret no_request_read no_request_write no_request_now
  no_request_budgets_add no_request_cursor_update : engine.

Lemma fails_with_engine_getSettingInternal key :
  fails_with_engine (getSettingInternal key).
Proof. unfold getSettingInternal. auto 10 with engine. Qed.

Lemma fails_with_engine_setSettingInternal key value :
  fails_with_engine (setSettingInternal key value).
Proof. unfold setSettingInternal. auto 10 with engine. Qed.

Lemma fails_with_engine_getAllBudgetsInternal :
  fails_with_engine getAllBudgetsInternal.
Proof. unfold getAllBudgetsInternal. auto 10 with engine. Qed.

Lemma fails_with_engine_createBudgetInternal name target :
  fails_with_engine (createBudgetInternal name target).
Proof. unfold createBudgetInternal. auto 10 with engine. Qed.

Lemma fails_with_engine_migrate_cursor budgetId es :
  fails_with_engine (migrate_cursor budgetId es).
Proof.
  induction es as [|[k record] es IH]; cbn [migrate_cursor]; [auto with engine|].
  apply fails_with_engine_bind; [auto with engine|]. intros _.
  apply fails_with_engine_bind; [|done].
  destruct (truthy _); auto 10 with engine.
Qed.

Lemma fails_with_engine_migrateTransactionsToBudget budgetId :
  fails_with_engine (migrateTransactionsToBudget budgetId).
Proof.
  unfold migrateTransactionsToBudget.
  auto 10 using fails_with_engine_migrate_cursor with engine.
Qed.

Lemma fails_with_engine_runMigrationIfNeeded : fails_with_engine runMigrationIfNeeded.
Proof.
  unfold runMigrationIfNeeded.
  apply fails_with_engine_bind; [apply fails_with_engine_getSettingInternal|].
  intros migrationDone. destruct (truthy migrationDone); [auto with engine|].
  apply fails_with_engine_bind; [apply fails_with_engine_getAllBudgetsInternal|].
  intros bs. destruct (decide _); [apply fails_with_engine_setSettingInternal|].
  apply fails_with_engine_bind; [apply fails_with_engine_getSettingInternal|].
  intros monthlyTarget.
  apply fails_with_engine_bind; [apply fails_with_engine_createBudgetInternal|].
  intros id.
  apply fails_with_engine_bind; [apply fails_with_engine_migrateTransactionsToBudget|].
  intros _.
  apply fails_with_engine_bind; [|intros _];
    apply fails_with_engine_setSettingInternal.
Qed.

(** ** The migration run when every request is served *)

Lemma runMigrationIfNeeded_done w :
  faults w = [] →
  truthy (setting_value (db w) "migrationV2Done") = true →
  runMigrationIfNeeded w = (Resolved (), w).
Proof.
  intros Hf Hfl. unfold runMigrationIfNeeded.
  rewrite (bind_resolved _ _ _ _ _ (getSettingInternal_served _ w Hf)).
  by rewrite Hfl.
Qed.

Lemma runMigrationIfNeeded_budgets_exist w :
  faults w = [] →
  truthy (setting_value (db w) "migrationV2Done") = false →
  recs (budgets (db w)) ≠ ∅ →
  runMigrationIfNeeded w =
    (Resolved (),
     log_write (WSettingPut "migrationV2Done" (JBool true))
       (set_db (set_settings
          (<["migrationV2Done" := setting_record "migrationV2Done" (JBool true)]>
             (settings (db w))) (db w)) w)).
Proof.
  intros Hf Hfl Hb. unfold runMigrationIfNeeded.
  rewrite (bind_resolved _ _ _ _ _ (getSettingInternal_served _ w Hf)).
  rewrite Hfl.
  rewrite (bind_resolved _ _ _ _ _ (getAllBudgetsInternal_served w Hf)).
  rewrite decide_True.
  - by apply setSettingInternal_served.
  - rewrite length_fmap.
    destruct (entries_by_key (budgets (db w))) eqn:He; [|simpl; lia].
    by apply entries_by_key_empty in He.
Qed.

Lemma runMigrationIfNeeded_no_budgets w :
  faults w = [] →
  truthy (setting_value (db w) "migrationV2Done") = false →
  recs (budgets (db w)) = ∅ →
  runMigrationIfNeeded w = (Resolved (), first_migration w).
Proof.
  intros Hf Hfl Hb. unfold runMigrationIfNeeded.
  rewrite (bind_resolved _ _ _ _ _ (getSettingInternal_served _ w Hf)).
  rewrite Hfl.
  rewrite (bind_resolved _ _ _ _ _ (getAllBudgetsInternal_served w Hf)).
  rewrite decide_False.
  2:{ rewrite length_fmap.
      apply entries_by_key_empty in Hb. rewrite Hb. simpl. lia. }
  rewrite (bind_resolved _ _ _ _ _ (getSettingInternal_served _ w Hf)).
  rewrite (bind_resolved _ _ _ _ _ (createBudgetInternal_served _ _ w Hf)).
  erewrite bind_resolved; [|by apply migrateTransactionsToBudget_served].
  erewrite bind_resolved; [|by apply setSettingInternal_served].
  by rewrite setSettingInternal_served.
Qed.

(** A run whose requests are all served completes, with the flag set. *)
Lemma runMigrationIfNeeded_served w :
  faults w = [] →
  ∃ w', runMigrationIfNeeded w = (Resolved (), w') ∧
        faults w' = [] ∧ dbInstance w' = dbInstance w ∧ opened w' = opened w ∧
        clock w' = clock w ∧
        truthy (setting_value (db w') "migrationV2Done") = true ∧
        keygen (transactions (db w')) = keygen (transactions (db w)) ∧
        dom (recs (transactions (db w'))) = dom (recs (transactions (db w))).
Proof.
  intros Hf.
  destruct (truthy (setting_value (db w) "migrationV2Done")) eqn:Hfl.
  { exists w. by rewrite runMigrationIfNeeded_done. }
  destruct (decide (recs (budgets (db w)) = ∅)) as [Hb|Hb].
  - eexists. split; [by apply runMigrationIfNeeded_no_budgets|].
    split; [done|]. split; [done|]. split; [done|]. split; [done|].
    split; [|split; [done|]].
    + unfold first_migration.
      rewrite (setting_value_record _ _ (JBool true)); [done|].
      simpl. apply lookup_insert_eq.
    + simpl. apply dom_fmap_L.
  - eexists. split; [by apply runMigrationIfNeeded_budgets_exist|].
    repeat split; [done|]. simpl. by rewrite setting_value_insert.
Qed.

(** C1. A store with the completion flag unset (or falsy) and no budgets:
    the run reads the legacy [monthlyTarget] (1000 when absent or falsy),
    creates exactly one budget, named "Personal Budget", with that target,
    gives its id to every transaction lacking a [budgetId], sets
    [currentBudgetId] to it and, as the last write, sets [migrationV2Done]
    to true. *)
Theorem migration_of_store_without_budgets (w : World) :
  faults w = [] →
  truthy (setting_value (db w) "migrationV2Done") = false →
  recs (budgets (db w)) = ∅ →
  let id := keygen (budgets (db w)) in
  let monthlyTarget := setting_value (db w) "monthlyTarget" in
  let target := if truthy monthlyTarget then monthlyTarget else JNum 1000 in
  ∃ w',
    runMigrationIfNeeded w = (Resolved (), w') ∧
    recs (budgets (db w')) =
      {[ id := budget_record id (JStr "Personal Budget") target (clock w) ]} ∧
    recs (transactions (db w')) = backfill (JNum id) <$> recs (transactions (db w)) ∧
    (∀ k record, recs (transactions (db w)) !! k = Some record →
       record !! "budgetId" = None →
       recs (transactions (db w')) !! k = Some (<["budgetId" := JNum id]> record)) ∧
    settings (db w') =
      <["migrationV2Done" := setting_record "migrationV2Done" (JBool true)]>
        (<["currentBudgetId" := setting_record "currentBudgetId" (JNum id)]>
           (settings (db w))) ∧
    writes w' =
      writes w ++ [WBudgetAdd id]
        ++ backfill_puts (entries_by_key (transactions (db w)))
        ++ [WSettingPut "currentBudgetId" (JNum id);
            WSettingPut "migrationV2Done" (JBool true)].
Proof.
  intros Hf Hfl Hb id monthlyTarget target.
  exists (first_migration w). split; [by apply runMigrationIfNeeded_no_budgets|].
  simpl. rewrite Hb. fold id. repeat split.
  - intros k record Hk Hnone. rewrite lookup_fmap, Hk. simpl.
    unfold backfill, get_field. by rewrite Hnone.
  - by rewrite <- !app_assoc.
Qed.

Lemma migration_of_store_without_budgets_witness :
  faults (legacy_world []) = [] ∧
  truthy (setting_value (db (legacy_world [])) "migrationV2Done") = false ∧
  recs (budgets (db (legacy_world []))) = ∅ ∧
  ∃ w', runMigrationIfNeeded (legacy_world []) = (Resolved (), w') ∧
    recs (budgets (db w')) =
      {[ 1 := budget_record 1 (JStr "Personal Budget") (JNum 1500) 1700000000000 ]} ∧
    (λ record : obj, record !! "budgetId") <$> recs (transactions (db w')) =
      <[1 := Some (JNum 1)]> (<[2 := Some (JNum 1)]> (<[3 := Some (JNum 1)]> ∅)) ∧
    setting_value (db w') "currentBudgetId" = JNum 1 ∧
    setting_value (db w') "migrationV2Done" = JBool true.
Proof.
  split; [reflexivity|]. split; [reflexivity|]. split; [reflexivity|].
  destruct (migration_of_store_without_budgets (legacy_world []) eq_refl eq_refl eq_refl)
    as (w' & Hrun & Hb & Ht & _ & Hs & _).
  exists w'. split; [exact Hrun|]. split; [exact Hb|].
  split; [rewrite Ht; vm_compute; reflexivity|].
  unfold setting_value. rewrite Hs. split; vm_compute; reflexivity.
Defined.

(** The fresh store: a budget with the default target, the two settings, and
    no write to a transaction. *)
Example migration_of_fresh_store :
  ∃ w', runMigrationIfNeeded fresh_world = (Resolved (), w') ∧
    recs (budgets (db w')) =
      {[ 1 := budget_record 1 (JStr "Personal Budget") (JNum 1000) 1700000000000 ]} ∧
    recs (transactions (db w')) = ∅ ∧
    writes w' = [WBudgetAdd 1; WSettingPut "currentBudgetId" (JNum 1);
                 WSettingPut "migrationV2Done" (JBool true)].
Proof.
  exists (runMigrationIfNeeded fresh_world).2.
  split; [vm_compute; reflexivity|]. split; [vm_compute; reflexivity|].
  split; vm_compute; reflexivity.
Qed.

(** C2. A run that follows a completed run, or that finds the flag truthy,
    writes nothing: no budget is added, no transaction changes, no setting
    changes, whatever the engine does to its requests; and it resolves when
    its requests are served. *)
Theorem migration_idempotent (w w1 w2 : World) (schedule : list bool) (r : Res ()) :
  runMigrationIfNeeded w = (Resolved (), w1)
  ∨ truthy (setting_value (db w1) "migrationV2Done") = true →
  runMigrationIfNeeded (set_faults schedule w1) = (r, w2) →
  budgets (db w2) = budgets (db w1) ∧
  transactions (db w2) = transactions (db w1) ∧
  settings (db w2) = settings (db w1) ∧
  writes w2 = writes w1 ∧
  (schedule = [] → r = Resolved ()).
Proof.
  intros Hdone H2.
  assert (Hfl : truthy (setting_value (db w1) "migrationV2Done") = true).
  { destruct Hdone as [H1|?]; [|done].
    apply runMigrationIfNeeded_outcome in H1 as (l & _ & Hfl & _). done. }
  clear Hdone.
  assert (Hserved : schedule = [] → r = Resolved ()).
  { intros ->. rewrite runMigrationIfNeeded_done in H2 by done. by inversion H2. }
  unfold runMigrationIfNeeded in H2.
  apply bind_inv in H2 as [(e & H & ->)|(v & w3 & H & H3)].
  - apply getSettingInternal_inv in H as [(Hd & _ & _ & _ & Hw) _].
    rewrite Hd, Hw. by repeat split.
  - apply getSettingInternal_inv in H as [(Hd & _ & _ & _ & Hw) Hv].
    rewrite (Hv _ eq_refl) in H3. simpl in H3. rewrite Hfl in H3.
    inversion H3; subst. rewrite Hd, Hw. by repeat split.
Qed.

Lemma migration_idempotent_witness :
  ∃ w1 w2,
    runMigrationIfNeeded (legacy_world []) = (Resolved (), w1) ∧
    runMigrationIfNeeded (set_faults [] w1) = (Resolved (), w2) ∧
    budgets (db w2) = budgets (db w1) ∧
    transactions (db w2) = transactions (db w1) ∧
    settings (db w2) = settings (db w1) ∧
    writes w2 = writes w1.
Proof.
  exists (runMigrationIfNeeded (legacy_world [])).2,
         (runMigrationIfNeeded (set_faults [] (runMigrationIfNeeded (legacy_world [])).2)).2.
  split; [vm_compute; reflexivity|]. split; [vm_compute; reflexivity|].
  destruct (migration_idempotent (legacy_world [])
              (runMigrationIfNeeded (legacy_world [])).2
              (runMigrationIfNeeded
                 (set_faults [] (runMigrationIfNeeded (legacy_world [])).2)).2
              [] (Resolved ())) as (Hb & Ht & Hs & Hw & _).
  - left. vm_compute. reflexivity.
  - vm_compute. reflexivity.
  - split; [exact Hb|]. split; [exact Ht|]. split; [exact Hs|exact Hw].
Defined.



(** C3 (the code departs from the claim).  A store left by a run that
    failed after the default budget was created and before the transactions
    were backfilled: the next run finds a budget, sets the flag and returns,
    and the transactions still have no [budgetId]. *)
Theorem partial_migration_marked_done_with_orphans :
  let w0 := legacy_world [false; false; false; false; true] in
  let w1 := (runMigrationIfNeeded w0).2 in
  (runMigrationIfNeeded w0).1 = Rejected StorageError ∧
  recs (budgets (db w1)) =
    {[ 1 := budget_record 1 (JStr "Personal Budget") (JNum 1500) 1700000000000 ]} ∧
  recs (transactions (db w1)) = recs (transactions legacy_store) ∧
  ∃ w2, runMigrationIfNeeded (set_faults [] w1) = (Resolved (), w2) ∧
    setting_value (db w2) "migrationV2Done" = JBool true ∧
    recs (transactions (db w2)) !! 1 = Some (legacy_transaction 1 100) ∧
    ¬ references_budget (db w2) (legacy_transaction 1 100).
Proof.
  intros w0 w1.
  split; [vm_compute; reflexivity|]. split; [vm_compute; reflexivity|].
  split; [vm_compute; reflexivity|].
  exists (runMigrationIfNeeded (set_faults [] w1)).2.
  split; [vm_compute; reflexivity|]. split; [vm_compute; reflexivity|].
  split; [vm_compute; reflexivity|].
  intros (b & Hb & _). vm_compute in Hb. discriminate.
Qed.

(** ** Opening *)

Lemma set_db_same w : set_db (db w) w = w.
Proof. by destruct w. Qed.

Lemma initDB_served w :
  faults w = [] →
  ∃ h w1, initDB w = (Resolved h, w1) ∧
          faults w1 = [] ∧ dbInstance w1 = Some h ∧ clock w1 = clock w ∧
          truthy (setting_value (db w1) "migrationV2Done") = true ∧
          keygen (transactions (db w1)) = keygen (transactions (db w)) ∧
          dom (recs (transactions (db w1))) = dom (recs (transactions (db w))).
Proof.
  intros Hf. unfold initDB. destruct (dbInstance w) as [h|] eqn:Hi.
  - destruct (runMigrationIfNeeded_served w Hf)
      as (w1 & Hrun & Hf1 & Hi1 & _ & Hc & Hfl & Hkg & Hdom).
    exists h, w1. split.
    + unfold mbind at 1, M_bind at 1. rewrite Hi.
      by rewrite (bind_resolved _ _ _ _ _ Hrun).
    + repeat split; try done. by rewrite Hi1.
  - pose (wo := {| db := db w; dbInstance := Some (opened w); opened := opened w + 1;
                   faults := faults w; clock := clock w; writes := writes w |}).
    destruct (runMigrationIfNeeded_served wo Hf)
      as (w1 & Hrun & Hf1 & Hi1 & _ & Hc & Hfl & Hkg & Hdom).
    exists (opened w), w1. split.
    + unfold mbind at 1, M_bind at 1. rewrite Hi.
      unfold mbind at 1, M_bind at 1, open_request. rewrite (request_served w Hf).
      unfold open_success. fold wo.
      by rewrite (bind_resolved _ _ _ _ _ Hrun).
    + repeat split; try done.
Qed.

(** Once the connection is memoized and the migration done, [initDB] is a
    read of the flag. *)
Lemma initDB_ready w h :
  faults w = [] → dbInstance w = Some h →
  truthy (setting_value (db w) "migrationV2Done") = true →
  initDB w = (Resolved h, w).
Proof.
  intros Hf Hi Hfl. unfold initDB.
  unfold mbind at 1, M_bind at 1. rewrite Hi.
  by rewrite (bind_resolved _ _ _ _ _ (runMigrationIfNeeded_done w Hf Hfl)).
Qed.






(** ** Updates and deletes addressed to a missing record *)

Lemma updateTransactionNote_missing id note w h w1 :
  initDB w = (Resolved h, w1) → faults w1 = [] →
  recs (transactions (db w1)) !! id = None →
  updateTransactionNote id note w = (Rejected (NotFound "Transaction not found"), w1).
Proof.
  intros Hinit Hf Hn. unfold updateTransactionNote.
  rewrite (bind_resolved _ _ _ _ _ Hinit). unfold transaction.
  rewrite (bind_resolved _ _ _ _ _ (request_served w1 Hf)).
  unfold mbind, M_bind, read. rewrite Hn. unfold reject. by rewrite set_db_same.
Qed.

Lemma updateBudget_missing id updates w h w1 :
  initDB w = (Resolved h, w1) → faults w1 = [] →
  recs (budgets (db w1)) !! id = None →
  updateBudget id updates w = (Rejected (NotFound "Budget not found"), w1).
Proof.
  intros Hinit Hf Hn. unfold updateBudget.
  rewrite (bind_resolved _ _ _ _ _ Hinit). unfold transaction.
  rewrite (bind_resolved _ _ _ _ _ (request_served w1 Hf)).
  unfold mbind, M_bind, read. rewrite Hn. unfold reject. by rewrite set_db_same.
Qed.

Lemma deleteTransaction_served id w h w1 :
  initDB w = (Resolved h, w1) → faults w1 = [] →
  deleteTransaction id w =
    (Resolved (),
     log_write (WTxDelete id)
       (set_db (set_transactions (os_delete id (transactions (db w1))) (db w1)) w1)).
Proof.
  intros Hinit Hf. unfold deleteTransaction.
  rewrite (bind_resolved _ _ _ _ _ Hinit). unfold transaction.
  by rewrite (bind_resolved _ _ _ _ _ (request_served w1 Hf)).
Qed.

(** C6, as the code has it.  Addressed to an id that identifies no record,
    [updateTransactionNote] and [updateBudget] reject with their not-found
    error and change nothing; [deleteTransaction] resolves, and leaves the
    records as they were. *)
Theorem missing_record_update_rejects_delete_resolves
    (id : Z) (note : jsval) (updates : obj) (w : World) :
  faults w = [] →
  ∃ h w1,
    initDB w = (Resolved h, w1) ∧
    (recs (transactions (db w1)) !! id = None →
       updateTransactionNote id note w
         = (Rejected (NotFound "Transaction not found"), w1) ∧
       ∃ w2, deleteTransaction id w = (Resolved (), w2) ∧
             recs (transactions (db w2)) = recs (transactions (db w1)) ∧
             budgets (db w2) = budgets (db w1) ∧ settings (db w2) = settings (db w1)) ∧
    (recs (budgets (db w1)) !! id = None →
       updateBudget id updates w = (Rejected (NotFound "Budget not found"), w1)).
Proof.
  intros Hf.
  destruct (initDB_served w Hf) as (h & w1 & Hinit & Hf1 & _).
  exists h, w1. split; [done|]. split.
  - intros Hn. split; [by eapply updateTransactionNote_missing|].
    eexists. split; [by eapply deleteTransaction_served|].
    simpl. by rewrite delete_id.
  - intros Hn. by eapply updateBudget_missing.
Qed.

Lemma missing_record_update_rejects_delete_resolves_witness :
  faults (legacy_world []) = [] ∧
  recs (transactions (db (initDB (legacy_world [])).2)) !! 42 = None ∧
  recs (budgets (db (initDB (legacy_world [])).2)) !! 42 = None ∧
  (updateTransactionNote 42 (JStr "lunch") (legacy_world [])).1
    = Rejected (NotFound "Transaction not found") ∧
  (updateBudget 42 (<["target" := JNum 2000]> ∅) (legacy_world [])).1
    = Rejected (NotFound "Budget not found") ∧
  (deleteTransaction 42 (legacy_world [])).1 = Resolved ().
Proof.
  split; [reflexivity|].
  destruct (missing_record_update_rejects_delete_resolves
              42 (JStr "lunch") (<["target" := JNum 2000]> ∅) (legacy_world []) eq_refl)
    as (h & w1 & Hinit & Htx & Hb).
  rewrite Hinit. simpl.
  assert (Hn1 : recs (transactions (db w1)) !! 42 = None).
  { replace w1 with (initDB (legacy_world [])).2 by (by rewrite Hinit).
    vm_compute. reflexivity. }
  assert (Hn2 : recs (budgets (db w1)) !! 42 = None).
  { replace w1 with (initDB (legacy_world [])).2 by (by rewrite Hinit).
    vm_compute. reflexivity. }
  split; [exact Hn1|]. split; [exact Hn2|].
  destruct (Htx Hn1) as (Hupd & w2 & Hdel & _).
  rewrite Hupd, (Hb Hn2), Hdel. simpl. tauto.
Defined.

(** C6 as stated fails for [deleteTransaction]: deleting an id that
    identifies no record resolves. *)
Lemma deleteTransaction_missing_counterexample :
  recs (transactions (db (initDB (legacy_world [])).2)) !! 42 = None ∧
  (deleteTransaction 42 (legacy_world [])).1 = Resolved () ∧
  ¬ ∃ msg, (deleteTransaction 42 (legacy_world [])).1 = Rejected (NotFound msg).
Proof.
  split; [vm_compute; reflexivity|]. split; [vm_compute; reflexivity|].
  intros [msg H]. vm_compute in H. discriminate.
Qed.

(** ** Adding a transaction *)

Lemma addTransaction_served input w h w1 :
  initDB w = (Resolved h, w1) → faults w1 = [] →
  let id := keygen (transactions (db w1)) in
  addTransaction input w =
    (Resolved id,
     log_write (WTxAdd id)
       (set_db (set_transactions
          {| recs := <[id := <["id" := JNum id]> (transaction_record input (clock w1))]>
                       (recs (transactions (db w1)));
             keygen := id + 1 |} (db w1)) w1)).
Proof.
  intros Hinit Hf id. unfold addTransaction.
  rewrite (bind_resolved _ _ _ _ _ Hinit). unfold transaction, now.
  unfold mbind at 1, M_bind at 1.
  by rewrite (bind_resolved _ _ _ _ _ (request_served w1 Hf)).
Qed.

Lemma transaction_record_of_input amount category note budgetId timestamp :
  transaction_record (transaction_input amount category note budgetId) timestamp =
  <["timestamp" := JNum timestamp]>
    (transaction_input amount category (Some (default "" note)) budgetId).
Proof.
  destruct note as [[|a n]|]; vm_compute; reflexivity.
Qed.

(** C9, as the code has it.  The record read back under the returned id is
    the input plus the assigned id and the creation instant as [timestamp],
    where an input without a note is stored with the empty string as its
    note.  The id is the key generator's: no record had it, and no other
    record changes. *)
Theorem addTransaction_then_get
    (amount : Z) (category : string) (note : option string) (budgetId : Z) (w : World) :
  faults w = [] →
  keygen_ok (transactions (db w)) →
  ∃ h w1 id w2,
    initDB w = (Resolved h, w1) ∧
    addTransaction (transaction_input amount category note budgetId) w
      = (Resolved id, w2) ∧
    recs (transactions (db w2)) !! id =
      Some (<["id" := JNum id]>
              (<["timestamp" := JNum (clock w)]>
                 (transaction_input amount category (Some (default "" note)) budgetId))) ∧
    recs (transactions (db w)) !! id = None ∧
    recs (transactions (db w1)) !! id = None ∧
    (∀ k, k ≠ id → recs (transactions (db w2)) !! k = recs (transactions (db w1)) !! k) ∧
    keygen_ok (transactions (db w2)).
Proof.
  intros Hf [Hk1 Hk].
  destruct (initDB_served w Hf) as (h & w1 & Hinit & Hf1 & _ & Hc & _ & Hkg & Hdom).
  assert (Hfresh : recs (transactions (db w)) !! keygen (transactions (db w1)) = None).
  { rewrite Hkg. destruct (recs (transactions (db w)) !! _) as [r|] eqn:Hr; [|done].
    apply Hk in Hr. lia. }
  exists h, w1, (keygen (transactions (db w1))). eexists.
  split; [done|]. split; [by eapply addTransaction_served|].
  simpl. split; [|split; [done|split; [|split]]].
  - rewrite lookup_insert_eq, transaction_record_of_input. by rewrite Hc.
  - apply not_elem_of_dom. rewrite Hdom. by apply not_elem_of_dom.
  - intros k Hne. by rewrite lookup_insert_ne.
  - split; simpl; [lia|]. apply map_Forall_insert_2; [lia|].
    intros k r Hr. simpl.
    assert (Hin : k ∈ dom (recs (transactions (db w)))).
    { rewrite <- Hdom. apply elem_of_dom. eauto. }
    apply elem_of_dom in Hin as [r' Hr']. apply Hk in Hr'. simpl in Hr'. lia.
Qed.

Lemma addTransaction_then_get_witness :
  faults (legacy_world []) = [] ∧
  keygen_ok (transactions (db (legacy_world []))) ∧
  ∃ w2,
    addTransaction (transaction_input 1250 "Food" (Some "lunch") 1) (legacy_world [])
      = (Resolved 4, w2) ∧
    recs (transactions (db w2)) !! 4 =
      Some (<["id" := JNum 4]>
              (<["timestamp" := JNum 1700000000000]>
                 (transaction_input 1250 "Food" (Some "lunch") 1))).
Proof.
  split; [reflexivity|].
  assert (Hok : keygen_ok (transactions (db (legacy_world [])))).
  { split; [simpl; lia|]. apply (bool_decide_unpack _). vm_compute. exact I. }
  split; [exact Hok|].
  destruct (addTransaction_then_get 1250 "Food" (Some "lunch") 1 (legacy_world [])
              eq_refl Hok) as (h & w1 & id & w2 & Hinit & Hadd & Hget & _).
  assert (Hid : id = 4).
  { assert (H : (addTransaction (transaction_input 1250 "Food" (Some "lunch") 1)
                   (legacy_world [])).1 = Resolved id) by (by rewrite Hadd).
    vm_compute in H. congruence. }
  subst id. exists w2. split; [exact Hadd|exact Hget].
Defined.

(** C9 as stated fails for an input without a note: the stored record has a
    [note] field the input does not have. *)
Lemma addTransaction_without_note_counterexample :
  ∃ w2 stored,
    addTransaction (transaction_input 1250 "Food" None 1) (legacy_world [])
      = (Resolved 4, w2) ∧
    recs (transactions (db w2)) !! 4 = Some stored ∧
    transaction_input 1250 "Food" None 1 !! "note" = None ∧
    stored !! "note" = Some (JStr "") ∧
    stored ≠ <["id" := JNum 4]>
               (<["timestamp" := JNum 1700000000000]>
                  (transaction_input 1250 "Food" None 1)).
Proof.
  pose (r := addTransaction (transaction_input 1250 "Food" None 1) (legacy_world [])).
  exists r.2, (default ∅ (recs (transactions (db r.2)) !! 4)).
  split; [vm_compute; reflexivity|]. split; [vm_compute; reflexivity|].
  split; [vm_compute; reflexivity|]. split; [vm_compute; reflexivity|].
  intros H. apply (f_equal (λ o : obj, o !! "note")) in H.
  vm_compute in H. discriminate.
Qed.

(** ** Calls of [initDB] in flight together *)

Module InitRaceFacts.
Import InitRace.

Lemma settled_init : settled init.
Proof. unfold settled. simpl. split; [lia|done]. Qed.

Lemma find_pending_single r p c :
  (length p ≤ 1)%nat → find_pending r p = Some c → p = [(r, c)] ∧ drop_pending r p = [].
Proof.
  destruct p as [|[r0 c0] [|? ?]]; simpl; intros Hl Hfind; try lia; [done|].
  unfold find_pending, drop_pending in *. simpl in *.
  rewrite filter_cons, filter_nil. simpl.
  destruct (decide (r0 = r)) as [->|Hne].
  - simpl in Hfind. inversion Hfind; subst. split; [done|].
    by rewrite decide_False by (intros H; by apply H).
  - simpl in Hfind. done.
Qed.

Lemma handles_snoc s c o :
  omap (λ x : nat * Outcome, match x.2 with Handle h => Some h | Failed => None end)
       (delivered s ++ [(c, o)])
  = handles s ++ match o with Handle h => [h] | Failed => [] end.
Proof. unfold handles. rewrite omap_app. by destruct o. Qed.

Lemma settled_step s e :
  settled s → (e = Call → pending s = []) → settled (step s e).
Proof.
  intros [Hlen Hs] Hcall. destruct e as [|r|r]; simpl.
  - specialize (Hcall eq_refl).
    destruct (dbInstance s) as [h|] eqn:Hi; unfold settled; simpl.
    + destruct Hs as (Hc & Hp & Hh). split; [done|]. unfold handles. simpl.
      rewrite handles_snoc. split; [done|]. split; [done|].
      apply Forall_app. split; [done|]. by constructor.
    + rewrite Hcall. simpl. split; [lia|]. exact Hs.
  - destruct (find_pending r (pending s)) as [c|] eqn:Hfind; [|by split].
    destruct (find_pending_single _ _ _ Hlen Hfind) as [Hp Hdrop].
    destruct (dbInstance s) as [h|] eqn:Hi.
    { destruct Hs as (_ & Hnil & _). by rewrite Hnil in Hp. }
    destruct Hs as [Hc Hh]. unfold settled. simpl. rewrite Hdrop, Hc.
    split; [simpl; lia|]. split; [done|]. split; [done|].
    unfold handles. simpl. rewrite handles_snoc, Hh. by constructor.
  - destruct (find_pending r (pending s)) as [c|] eqn:Hfind; [|by split].
    destruct (find_pending_single _ _ _ Hlen Hfind) as [Hp Hdrop].
    destruct (dbInstance s) as [h|] eqn:Hi.
    { destruct Hs as (_ & Hnil & _). by rewrite Hnil in Hp. }
    destruct Hs as [Hc Hh]. unfold settled. simpl. rewrite Hdrop.
    split; [simpl; lia|]. split; [done|].
    unfold handles. simpl. rewrite handles_snoc, Hh. done.
Qed.

Lemma settled_run tr : ∀ s,
  settled s → one_at_a_time s tr = true → settled (run s tr).
Proof.
  induction tr as [|e tr IH]; intros s Hs Hone; [done|].
  simpl. apply IH.
  - apply settled_step; [done|]. intros ->. simpl in Hone.
    apply andb_prop in Hone as [Hp _]. by apply bool_decide_eq_true in Hp.
  - destruct e; simpl in Hone; [|done..].
    by apply andb_prop in Hone as [_ ?].
Qed.

(** C5, as the code has it.  When every call of [initDB] is issued with no
    open request pending, at most one connection is ever established and
    every caller that gets a handle gets that same one. *)
Theorem initDB_one_connection_when_calls_do_not_overlap (tr : list Event) :
  one_at_a_time init tr = true →
  (connections (run init tr) ≤ 1)%nat ∧
  ∀ h1 h2, h1 ∈ handles (run init tr) → h2 ∈ handles (run init tr) → h1 = h2.
Proof.
  intros Hone.
  destruct (settled_run tr init settled_init Hone) as [_ Hs].
  destruct (dbInstance (run init tr)) as [h|].
  - destruct Hs as (Hc & _ & Hh). split; [lia|].
    intros h1 h2 H1 H2. rewrite Forall_forall in Hh.
    rewrite (Hh _ H1), (Hh _ H2). done.
  - destruct Hs as [Hc Hh]. split; [lia|]. rewrite Hh.
    intros h1 h2 H1. by apply elem_of_nil in H1.
Qed.

Lemma initDB_one_connection_when_calls_do_not_overlap_witness :
  let tr := [Call; OpenFails 0; Call; OpenSucceeds 1; Call; Call]%nat in
  one_at_a_time init tr = true ∧
  requests (run init tr) = 2%nat ∧
  (connections (run init tr) ≤ 1)%nat ∧
  handles (run init tr) = [1; 1; 1]%nat ∧
  ∀ h1 h2, h1 ∈ handles (run init tr) → h2 ∈ handles (run init tr) → h1 = h2.
Proof.
  intros tr.
  destruct (initDB_one_connection_when_calls_do_not_overlap tr eq_refl) as [Hc Hh].
  split; [reflexivity|]. split; [reflexivity|]. split; [exact Hc|].
  split; [reflexivity|exact Hh].
Defined.

(** C5 as stated fails: two calls issued before the first open request
    settles each open a connection, and the callers get different
    handles. *)
Lemma initDB_overlapping_calls_counterexample :
  let s := run init [Call; Call; OpenSucceeds 0; OpenSucceeds 1]%nat in
  requests s = 2%nat ∧ connections s = 2%nat ∧
  delivered s = [(0, Handle 0); (1, Handle 1)]%nat ∧
  ¬ ((connections s ≤ 1)%nat ∧
     ∀ h1 h2, h1 ∈ handles s → h2 ∈ handles s → h1 = h2).
Proof.
  intros s. split; [reflexivity|]. split; [reflexivity|]. split; [reflexivity|].
  intros [Hc _]. vm_compute in Hc. lia.
Qed.

End InitRaceFacts.

(** ** Range scans over the timestamp index *)

Lemma timestamp_cursor_perm lo hi st :
  timestamp_cursor lo hi st ≡ₚ filter (in_range lo hi) (map_to_list (recs st)).
Proof. apply merge_sort_Permutation. Qed.

Lemma elem_of_timestamp_cursor lo hi st k record :
  (k, record) ∈ timestamp_cursor lo hi st ↔
  in_range lo hi (k, record) ∧ recs st !! k = Some record.
Proof.
  rewrite timestamp_cursor_perm, list_elem_of_filter.
  by rewrite elem_of_map_to_list.
Qed.

Lemma matching_in_cursor lo hi budgetId st :
  filter (budget_matches budgetId) (timestamp_cursor lo hi st)
  ≡ₚ filter (within lo hi budgetId) (map_to_list (recs st)).
Proof.
  rewrite timestamp_cursor_perm. unfold within.
  by rewrite list_filter_filter.
Qed.

Lemma collect_cursor_served budgetId es : ∀ results w,
  faults w = [] →
  collect_cursor budgetId es results w =
    (Resolved (results ++ (filter (budget_matches budgetId) es).*2), w).
Proof.
  induction es as [|[k value] es IH]; intros results w Hf.
  - simpl. rewrite (bind_resolved _ _ _ _ _ (request_served w Hf)).
    by rewrite app_nil_r.
  - cbn [collect_cursor].
    rewrite (bind_resolved _ _ _ _ _ (request_served w Hf)).
    rewrite IH by done. rewrite filter_cons.
    destruct (decide (budget_matches budgetId (k, value))) as [Hm|Hm];
      unfold budget_matches in Hm; simpl in Hm.
    + rewrite Hm. by rewrite <- app_assoc.
    + apply not_true_is_false in Hm. by rewrite Hm.
Qed.

Lemma delete_cursor_served budgetId es : ∀ count w,
  faults w = [] →
  delete_cursor budgetId es count w =
    (Resolved (count + Z.of_nat (length (filter (budget_matches budgetId) es))),
     {| db := set_transactions
                {| recs := foldl (λ m e, delete e.1 m) (recs (transactions (db w)))
                                 (filter (budget_matches budgetId) es);
                   keygen := keygen (transactions (db w)) |} (db w);
        dbInstance := dbInstance w; opened := opened w; faults := [];
        clock := clock w;
        writes := writes w ++ ((λ e, WTxDelete e.1) <$> filter (budget_matches budgetId) es) |}).
Proof.
  induction es as [|[k value] es IH]; intros count w Hf.
  - simpl. rewrite (bind_resolved _ _ _ _ _ (request_served w Hf)).
    unfold mret, M_ret. f_equal; [f_equal; lia|].
    destruct w as [[[] ? ?] ? ? ? ? ?]; simpl in *. subst. by rewrite app_nil_r.
  - cbn [delete_cursor].
    rewrite (bind_resolved _ _ _ _ _ (request_served w Hf)).
    rewrite filter_cons.
    destruct (decide (budget_matches budgetId (k, value))) as [Hm|Hm];
      unfold budget_matches in Hm; simpl in Hm.
    + rewrite Hm.
      rewrite (bind_resolved _ _ _ _ _ (request_served w Hf)).
      unfold mbind at 1, M_bind at 1, transactions_delete.
      rewrite IH by done. simpl. f_equal; [f_equal; lia|].
      by rewrite <- app_assoc.
    + apply not_true_is_false in Hm. rewrite Hm. by rewrite IH.
Qed.

Lemma delete_fold_lookup (l : list (Z * obj)) : ∀ (m : gmap Z obj) k,
  foldl (λ m e, delete e.1 m) m l !! k =
  if decide (k ∈ l.*1) then None else m !! k.
Proof.
  induction l as [|[k0 r0] l IH]; intros m k.
  - cbn [foldl]. case_decide as Hin; [|done]. by apply elem_of_nil in Hin.
  - cbn [foldl]. rewrite IH, fmap_cons. simpl.
    destruct (decide (k ∈ l.*1)) as [Hin|Hin].
    + by rewrite decide_True by (by right).
    + destruct (decide (k = k0)) as [->|Hne].
      * rewrite decide_True by left. apply lookup_delete_eq.
      * rewrite decide_False by (intros [?|?]%elem_of_cons; done).
        by apply lookup_delete_ne.
Qed.

Lemma filter_none {A} (P : A → Prop) `{∀ x, Decision (P x)} (l : list A) :
  (∀ x, x ∈ l → ¬ P x) → filter P l = [].
Proof.
  induction l as [|x l IH]; intros Hl; [done|].
  rewrite filter_cons, decide_False by (apply Hl; left).
  apply IH. intros y Hy. apply Hl. by right.
Qed.

(** After the matching records of a range are deleted, the range holds no
    matching record. *)
Lemma nothing_left_in_range lo hi budgetId (st : ObjectStore) :
  filter (budget_matches budgetId)
    (timestamp_cursor lo hi
       {| recs := foldl (λ m e, delete e.1 m) (recs st)
                    (filter (budget_matches budgetId) (timestamp_cursor lo hi st));
          keygen := keygen st |}) = [].
Proof.
  apply filter_none. intros [k record] Hin Hm.
  apply elem_of_timestamp_cursor in Hin as [Hr Hk]. simpl in Hk.
  rewrite delete_fold_lookup in Hk. case_decide as Hdel; [done|].
  apply Hdel. apply list_elem_of_fmap. exists (k, record). split; [done|].
  apply list_elem_of_filter. split; [done|].
  by apply elem_of_timestamp_cursor.
Qed.

Lemma getTransactionsByDateRange_served lo hi budgetId w h w1 :
  initDB w = (Resolved h, w1) → faults w1 = [] → lo ≤ hi →
  getTransactionsByDateRange (Some lo) (Some hi) budgetId w =
    (Resolved (filter (budget_matches budgetId)
                 (timestamp_cursor lo hi (transactions (db w1)))).*2, w1).
Proof.
  intros Hinit Hf Hle. unfold getTransactionsByDateRange.
  rewrite (bind_resolved _ _ _ _ _ Hinit). apply transaction_resolved.
  unfold IDBKeyRange_bound. rewrite decide_False by lia.
  unfold mbind, M_bind, mret, M_ret, read. simpl.
  by rewrite collect_cursor_served.
Qed.

Lemma deleteTransactionsByDateRange_served lo hi budgetId w h w1 :
  initDB w = (Resolved h, w1) → faults w1 = [] → lo ≤ hi →
  let hit := filter (budget_matches budgetId)
               (timestamp_cursor lo hi (transactions (db w1))) in
  deleteTransactionsByDateRange (Some lo) (Some hi) budgetId w =
    (Resolved (Z.of_nat (length hit)),
     {| db := set_transactions
                {| recs := foldl (λ m e, delete e.1 m) (recs (transactions (db w1))) hit;
                   keygen := keygen (transactions (db w1)) |} (db w1);
        dbInstance := dbInstance w1; opened := opened w1; faults := [];
        clock := clock w1;
        writes := writes w1 ++ ((λ e, WTxDelete e.1) <$> hit) |}).
Proof.
  intros Hinit Hf Hle hit. unfold deleteTransactionsByDateRange.
  rewrite (bind_resolved _ _ _ _ _ Hinit). apply transaction_resolved.
  unfold IDBKeyRange_bound. rewrite decide_False by lia.
  unfold mbind, M_bind, mret, M_ret, read. simpl.
  by rewrite delete_cursor_served.
Qed.

(** C8, as the code has it.  For bounds in order, [deleteByDateRange]
    resolves with the number of records that were inside the bounds (time and
    budget), and [byDateRange] over the same bounds then resolves with the
    empty list. *)
Theorem deleteTransactionsByDateRange_then_query
    (startDate endDate : Z) (budgetId : jsval) (w : World) :
  faults w = [] →
  startDate ≤ endDate →
  ∃ h w1 count w2,
    initDB w = (Resolved h, w1) ∧
    deleteTransactionsByDateRange (Some startDate) (Some endDate) budgetId w
      = (Resolved count, w2) ∧
    count = Z.of_nat (length (filter (within startDate endDate budgetId)
                                (map_to_list (recs (transactions (db w1)))))) ∧
    getTransactionsByDateRange (Some startDate) (Some endDate) budgetId w2
      = (Resolved [], w2).
Proof.
  intros Hf Hle.
  destruct (initDB_served w Hf) as (h & w1 & Hinit & Hf1 & Hi1 & _ & Hfl & _).
  pose proof (deleteTransactionsByDateRange_served _ _ budgetId _ _ _ Hinit Hf1 Hle)
    as Hdel. simpl in Hdel.
  match type of Hdel with _ = (Resolved ?c, ?w2') => exists h, w1, c, w2'; set (w2 := w2') end.
  split; [done|]. split; [done|]. split.
  - f_equal. apply Permutation_length, matching_in_cursor.
  - rewrite (getTransactionsByDateRange_served _ _ _ w2 h w2); [|by apply initDB_ready|done..].
    simpl. by rewrite nothing_left_in_range.
Qed.

Lemma deleteTransactionsByDateRange_then_query_witness :
  faults (legacy_world []) = [] ∧ 60 ≤ 100 ∧
  ∃ w2,
    deleteTransactionsByDateRange (Some 60) (Some 100) (JNum 1) (legacy_world [])
      = (Resolved 2, w2) ∧
    getTransactionsByDateRange (Some 60) (Some 100) (JNum 1) w2 = (Resolved [], w2).
Proof.
  split; [reflexivity|]. split; [lia|].
  assert (Hle : 60 ≤ 100) by lia.
  destruct (deleteTransactionsByDateRange_then_query 60 100 (JNum 1) (legacy_world [])
              eq_refl Hle) as (h & w1 & count & w2 & Hinit & Hdel & Hcount & Hget).
  assert (Hc : count = 2).
  { rewrite Hcount.
    replace w1 with (initDB (legacy_world [])).2 by (by rewrite Hinit).
    vm_compute. reflexivity. }
  subst count. rewrite Hc in Hdel. exists w2. split; [exact Hdel|exact Hget].
Defined.

(** C8 as stated fails for bounds out of order: [IDBKeyRange.bound] throws,
    and both operations reject. *)
Lemma deleteTransactionsByDateRange_inverted_bounds_counterexample :
  (deleteTransactionsByDateRange (Some 100) (Some 60) (JNum 1) (legacy_world [])).1
    = Rejected DataError ∧
  (getTransactionsByDateRange (Some 100) (Some 60) (JNum 1) (legacy_world [])).1
    = Rejected DataError ∧
  ¬ ∃ count w2,
      deleteTransactionsByDateRange (Some 100) (Some 60) (JNum 1) (legacy_world [])
        = (Resolved count, w2).
Proof.
  split; [vm_compute; reflexivity|]. split; [vm_compute; reflexivity|].
  intros (count & w2 & H). apply (f_equal fst) in H. vm_compute in H. discriminate.
Qed.

(** ** The month of [getTransactionsByMonth] *)

Lemma DayFromYear_next y :
  DayFromYear (y + 1) = DayFromYear y + (if InLeapYear y then 366 else 365).
Proof.
  unfold DayFromYear, InLeapYear.
  destruct (Z.eqb_spec (y mod 4) 0), (Z.eqb_spec (y mod 100) 0),
    (Z.eqb_spec (y mod 400) 0); simpl; Z.div_mod_to_equations; lia.
Qed.

Lemma days_in_month_positive y m : 28 ≤ days_in_month y m ≤ 31.
Proof.
  unfold days_in_month.
  repeat match goal with |- context [if ?b then _ else _] => destruct b end; lia.
Qed.

(** Day 0 of the next month is the last day of this one. *)
Lemma MakeDay_last_of_month y m :
  0 ≤ m ≤ 11 → MakeDay y (m + 1) 0 = day_number y m (days_in_month y m).
Proof.
  intros Hm. unfold MakeDay, day_number.
  destruct (decide (m = 11)) as [->|Hne].
  - replace ((11 + 1) / 12) with 1 by reflexivity.
    replace ((11 + 1) mod 12) with 0 by reflexivity.
    rewrite DayFromYear_next. unfold days_in_month, days_before_month. simpl.
    destruct (InLeapYear y); simpl; lia.
  - assert (Hdiv : (m + 1) / 12 = 0) by (apply Z.div_small; lia).
    assert (Hmod : (m + 1) mod 12 = m + 1) by (apply Z.mod_small; lia).
    rewrite Hdiv, Hmod. replace (y + 0) with y by lia.
    assert (Hcases : m = 0 ∨ m = 1 ∨ m = 2 ∨ m = 3 ∨ m = 4 ∨ m = 5 ∨ m = 6 ∨ m = 7
                     ∨ m = 8 ∨ m = 9 ∨ m = 10) by lia.
    unfold days_in_month, days_before_month.
    destruct (InLeapYear y);
      repeat (destruct Hcases as [->|Hcases]; [simpl; lia|]); subst; simpl; lia.
Qed.

Lemma MakeDay_first_of_month y m :
  0 ≤ m ≤ 11 → MakeDay y m 1 = day_number y m 1.
Proof.
  intros Hm. unfold MakeDay, day_number.
  rewrite (Z.div_small m 12), (Z.mod_small m 12) by lia.
  replace (y + 0) with y by lia. lia.
Qed.

Section ByMonth.
Variable UTC : Z → Z.

Lemma startOfMonth_is_first_instant year month :
  ¬ (0 ≤ year ≤ 99) → 0 ≤ month ≤ 11 →
  new_Date UTC year month 1 0 0 0 0 = TimeClip (first_instant_of_month UTC year month).
Proof.
  intros Hy Hm. unfold new_Date, first_instant_of_month.
  rewrite decide_False by done.
  rewrite MakeDay_first_of_month by done.
  unfold MakeDate, MakeTime. do 2 f_equal. lia.
Qed.

Lemma endOfMonth_is_last_instant year month :
  ¬ (0 ≤ year ≤ 99) → 0 ≤ month ≤ 11 →
  new_Date UTC year (month + 1) 0 23 59 59 999 =
    TimeClip (last_instant_of_month UTC year month).
Proof.
  intros Hy Hm. unfold new_Date, last_instant_of_month.
  rewrite decide_False by done.
  rewrite MakeDay_last_of_month by done.
  unfold MakeDate, MakeTime. do 2 f_equal.
Qed.

(** Local time within a day of UTC puts the first instant of a month before
    its last. *)
Lemma first_instant_le_last_of_offset year month :
  (∀ t, Z.abs (UTC t - t) < msPerDay) →
  first_instant_of_month UTC year month ≤ last_instant_of_month UTC year month.
Proof.
  intros Hoff. unfold first_instant_of_month, last_instant_of_month.
  pose proof (days_in_month_positive year month) as Hd.
  pose proof (Hoff (day_number year month 1 * msPerDay)) as H1.
  pose proof (Hoff (day_number year month (days_in_month year month) * msPerDay
                    + (23 * 3600000 + 59 * 60000 + 59 * 1000 + 999))) as H2.
  revert H1 H2. unfold day_number, msPerDay. lia.
Qed.

Lemma getTransactionsByMonth_served year month budgetId w h w1 lo hi :
  initDB w = (Resolved h, w1) → faults w1 = [] →
  new_Date UTC year month 1 0 0 0 0 = Some lo →
  new_Date UTC year (month + 1) 0 23 59 59 999 = Some hi →
  lo ≤ hi →
  getTransactionsByMonth UTC year month budgetId w =
    (Resolved (filter (budget_matches budgetId)
                 (timestamp_cursor lo hi (transactions (db w1)))).*2, w1).
Proof.
  intros Hinit Hf Hlo Hhi Hle. unfold getTransactionsByMonth.
  rewrite (bind_resolved _ _ _ _ _ Hinit). apply transaction_resolved.
  rewrite Hlo, Hhi. unfold IDBKeyRange_bound. rewrite decide_False by lia.
  unfold mbind, M_bind, mret, M_ret, read. simpl.
  by rewrite collect_cursor_served.
Qed.

End ByMonth.

(** C7, as the code has it.  For a year outside 0..99 and a month whose
    first and last instants are representable time values: when the first
    instant is not after the last, [byMonth] resolves with exactly the
    transactions whose [budgetId] is the given one and whose timestamp lies
    between the first instant of the month (day 1, 00:00:00.000) and its
    last (last day, 23:59:59.999), both included, in no promised order;
    when it is after the last, [IDBKeyRange.bound] throws and [byMonth]
    rejects with a [DataError].  The first instant is not after the last
    wherever local time is within a day of UTC. *)
Theorem getTransactionsByMonth_exact
    (UTC : Z → Z) (year month : Z) (budgetId : jsval) (w : World) :
  faults w = [] →
  ¬ (0 ≤ year ≤ 99) →
  0 ≤ month ≤ 11 →
  let first := first_instant_of_month UTC year month in
  let last := last_instant_of_month UTC year month in
  Z.abs first ≤ 8640000000000000 →
  Z.abs last ≤ 8640000000000000 →
  ∃ h w1,
    initDB w = (Resolved h, w1) ∧
    (first ≤ last →
       ∃ l, getTransactionsByMonth UTC year month budgetId w = (Resolved l, w1) ∧
            l ≡ₚ (filter (within first last budgetId)
                    (map_to_list (recs (transactions (db w1))))).*2 ∧
            ∀ record, record ∈ l ↔
              ∃ k t, recs (transactions (db w1)) !! k = Some record ∧
                     get_field record "timestamp" = JNum t ∧ first ≤ t ≤ last ∧
                     strict_eq (get_field record "budgetId") budgetId = true) ∧
    (last < first →
       getTransactionsByMonth UTC year month budgetId w = (Rejected DataError, w1)) ∧
    ((∀ t, Z.abs (UTC t - t) < msPerDay) → first ≤ last).
Proof.
  intros Hf Hy Hm first last Hfirst Hlast.
  destruct (initDB_served w Hf) as (h & w1 & Hinit & Hf1 & _).
  assert (Hlo : new_Date UTC year month 1 0 0 0 0 = Some first).
  { rewrite startOfMonth_is_first_instant by done.
    unfold TimeClip. by rewrite decide_True. }
  assert (Hhi : new_Date UTC year (month + 1) 0 23 59 59 999 = Some last).
  { rewrite endOfMonth_is_last_instant by done.
    unfold TimeClip. by rewrite decide_True. }
  exists h, w1. split; [done|]. split; [|split].
  - intros Hle.
    assert (Hperm :
      (filter (budget_matches budgetId)
         (timestamp_cursor first last (transactions (db w1)))).*2
      ≡ₚ (filter (within first last budgetId)
            (map_to_list (recs (transactions (db w1))))).*2).
    { by rewrite matching_in_cursor. }
    eexists. split; [|split; [exact Hperm|]].
    + by apply (getTransactionsByMonth_served UTC year month budgetId w h w1 first last).
    + intros record. rewrite Hperm, list_elem_of_fmap. split.
      * intros ([k r] & -> & Hin).
        apply list_elem_of_filter in Hin as [[Hb Hr] Hin].
        apply elem_of_map_to_list in Hin.
        unfold in_range, timestamp_key in Hr. simpl in Hr.
        destruct (get_field r "timestamp") as [| | |t| |] eqn:Ht; try done.
        exists k, t. simpl. split; [done|]. split; [done|]. split; [lia|exact Hb].
      * intros (k & t & Hk & Ht & Hr & Hb). exists (k, record). split; [done|].
        apply list_elem_of_filter. split.
        -- split; [done|]. unfold in_range, timestamp_key. simpl. by rewrite Ht.
        -- by apply elem_of_map_to_list.
  - intros Hgt. unfold getTransactionsByMonth.
    rewrite (bind_resolved _ _ _ _ _ Hinit). unfold transaction. cbv zeta.
    rewrite Hlo, Hhi. unfold IDBKeyRange_bound. rewrite decide_True by done.
    unfold mbind, M_bind, reject. by rewrite set_db_same.
  - apply first_instant_le_last_of_offset.
Qed.

Lemma getTransactionsByMonth_exact_witness :
  let UTC := λ t : Z, t in
  faults calendar_world = [] ∧
  ¬ (0 ≤ 2024 ≤ 99) ∧ 0 ≤ 1 ≤ 11 ∧
  first_instant_of_month UTC 2024 1 = 1706745600000 ∧
  last_instant_of_month UTC 2024 1 = 1709251199999 ∧
  (∃ l, (getTransactionsByMonth UTC 2024 1 (JNum 1) calendar_world).1 = Resolved l ∧
        ∀ record, record ∈ l ↔
          ∃ k t, recs (transactions (db calendar_world)) !! k = Some record ∧
                 get_field record "timestamp" = JNum t ∧
                 1706745600000 ≤ t ≤ 1709251199999 ∧
                 strict_eq (get_field record "budgetId") (JNum 1) = true) ∧
  (getTransactionsByMonth (λ t : Z, - t) 2024 1 (JNum 1) calendar_world).1
    = Rejected DataError.
Proof.
  intros UTC.
  assert (Hy : ¬ (0 ≤ 2024 ≤ 99)) by lia.
  assert (Hm : 0 ≤ 1 ≤ 11) by lia.
  split; [reflexivity|]. split; [exact Hy|]. split; [exact Hm|].
  split; [reflexivity|]. split; [reflexivity|]. split.
  - destruct (getTransactionsByMonth_exact UTC 2024 1 (JNum 1) calendar_world
                eq_refl Hy Hm) as (h & w1 & Hinit & Hexact & _).
    + vm_compute. discriminate.
    + vm_compute. discriminate.
    + destruct Hexact as (l & Hget & _ & Hl); [vm_compute; discriminate|].
      exists l. split; [by rewrite Hget|].
      assert (Hw1 : db w1 = db calendar_world).
      { replace w1 with (initDB calendar_world).2 by (by rewrite Hinit).
        vm_compute. reflexivity. }
      rewrite Hw1 in Hl. exact Hl.
  - destruct (getTransactionsByMonth_exact (λ t : Z, - t) 2024 1 (JNum 1) calendar_world
                eq_refl Hy Hm) as (h & w1 & _ & _ & Hreject & _).
    + vm_compute. discriminate.
    + vm_compute. discriminate.
    + rewrite Hreject; [reflexivity|]. vm_compute. reflexivity.
Defined.

(** C7 as stated fails for the years 0 to 99: [new Date(99, 0, 1)] is the
    first of January 1999, so [byMonth(99, 0, _)] answers with the
    transactions of January 1999, none of which lies in January of the
    year 99. *)
Lemma getTransactionsByMonth_two_digit_year_counterexample :
  let UTC := λ t : Z, t in
  (getTransactionsByMonth UTC 99 0 (JNum 1) calendar_world).1
    = Resolved [dated_transaction 5 915148800000 1] ∧
  ¬ (first_instant_of_month UTC 99 0 ≤ 915148800000 ≤ last_instant_of_month UTC 99 0).
Proof.
  intros UTC. split; [vm_compute; reflexivity|].
  intros [_ H]. vm_compute in H. by apply H.
Qed.

(** * Further properties *)

(** ** The connection and the clock *)

Lemma keeps_connection_request : keeps_connection request.
Proof. intros w r w' H. apply request_inv in H as (_ & ? & ? & ? & _). done. Qed.

Lemma keeps_connection_no_change {A} (m : M A) :
  (∀ w, ∃ a w', m w = (Resolved a, w') ∧
     dbInstance w' = dbInstance w ∧ opened w' = opened w ∧ clock w' = clock w) →
  keeps_connection m.
Proof.
  intros Hm w r w' H. destruct (Hm w) as (a & w1 & Hw & ?).
  rewrite Hw in H. by inversion H; subst.
Qed.

Lemma keeps_connection_reject {A} e : keeps_connection (reject (A:=A) e).
Proof. intros w r w' H. by inversion H. Qed.

Lemma keeps_connection_bind {A B} (m : M A) (f : A → M B) :
  keeps_connection m → (∀ a, keeps_connection (f a)) → keeps_connection (m ≫= f).
Proof.
  intros Hm Hf w r w' H.
  apply bind_inv in H as [(e & H & ->)|(a & w1 & H & H1)].
  - by apply Hm in H.
  - apply Hm in H as (? & ? & ?). apply Hf in H1 as (? & ? & ?).
    repeat split; congruence.
Qed.

Lemma keeps_connection_transaction {A} (body : M A) :
  keeps_connection body → keeps_connection (transaction body).
Proof.
  intros Hb w r w' H.
  apply transaction_inv in H as [(a & -> & H)|(e & w1 & -> & H & ->)];
    by apply Hb in H.
Qed.

Lemma keeps_connection_ret {A} (a : A) : keeps_connection (mret a).
Proof. apply keeps_connection_no_change. intros w. by exists a, w. Qed.

Lemma keeps_connection_read {A} (f : Database → A) : keeps_connection (read f).
Proof. apply keeps_connection_no_change. intros w. by eexists _, w. Qed.

Lemma keeps_connection_write f x : keeps_connection (write f x).
Proof. apply keeps_connection_no_change. intros w. by eexists _, _. Qed.

Lemma keeps_connection_now : keeps_connection now.
Proof. apply keeps_connection_no_change. intros w. by eexists _, w. Qed.

Lemma keeps_connection_budgets_add record : keeps_connection (budgets_add record).
Proof. apply keeps_connection_no_change. intros w. by eexists _, _. Qed.

Lemma keeps_connection_cursor_update k record :
  keeps_connection (cursor_update k record).
Proof. apply keeps_connection_no_change. intros w. by eexists _, _. Qed.

Create HintDb connection.

#[export] Hint Resolve keeps_connection_request keeps_connection_bind
  keeps_connection_transaction keeps_connection_ret keeps_connection_read
  keeps_connection_write keeps_connection_now keeps_connection_budgets_add
  keeps_connection_cursor_update keeps_connection_reject : connection.

Lemma keeps_connection_getSettingInternal key :
  keeps_connection (getSettingInternal key).
Proof. unfold getSettingInternal. auto 10 with connection. Qed.

Lemma keeps_connection_setSettingInternal key value :
  keeps_connection (setSettingInternal key value).
Proof. unfold setSettingInternal. auto 10 with connection. Qed.

Lemma keeps_connection_migrate_cursor budgetId es :
  keeps_connection (migrate_cursor budgetId es).
Proof.
  induction es as [|[k record] es IH]; cbn [migrate_cursor]; [auto with connection|].
  apply keeps_connection_bind; [auto with connection|]. intros _.
  apply keeps_connection_bind; [|done].
  destruct (truthy _); auto 10 with connection.
Qed.

Lemma keeps_connection_runMigrationIfNeeded : keeps_connection runMigrationIfNeeded.
Proof.
  unfold runMigrationIfNeeded.
  apply keeps_connection_bind; [apply keeps_connection_getSettingInternal|].
  intros migrationDone. destruct (truthy migrationDone); [auto with connection|].
  apply keeps_connection_bind.
  { unfold getAllBudgetsInternal. auto 10 with connection. }
  intros bs. destruct (decide _); [apply keeps_connection_setSettingInternal|].
  apply keeps_connection_bind; [apply keeps_connection_getSettingInternal|].
  intros monthlyTarget.
  apply keeps_connection_bind.
  { unfold createBudgetInternal. auto 10 with connection. }
  intros id.
  apply keeps_connection_bind.
  { unfold migrateTransactionsToBudget.
    auto 10 using keeps_connection_migrate_cursor with connection. }
  intros _.
  apply keeps_connection_bind; [|intros _]; apply keeps_connection_setSettingInternal.
Qed.

(** ** What a migration run never does *)

Lemma budgets_listed w :
  recs (budgets (db w)) ≠ ∅ → (0 < length (entries_by_key (budgets (db w))).*2)%nat.
Proof.
  intros Hb. rewrite length_fmap.
  destruct (entries_by_key (budgets (db w))) eqn:He; [|simpl; lia].
  by apply entries_by_key_empty in He.
Qed.

(** X1. On a store that already holds a budget a run adds no budget and
    touches no transaction, whatever the flag says and whatever the engine
    does; at most it writes the flag. *)
Theorem migration_with_a_budget_only_writes_the_flag (w w' : World) (r : Res ()) :
  recs (budgets (db w)) ≠ ∅ →
  runMigrationIfNeeded w = (r, w') →
  budgets (db w') = budgets (db w) ∧
  transactions (db w') = transactions (db w) ∧
  (settings (db w') = settings (db w) ∨
   settings (db w') =
     <["migrationV2Done" := setting_record "migrationV2Done" (JBool true)]>
       (settings (db w))).
Proof.
  intros Hb H. unfold runMigrationIfNeeded in H.
  apply bind_inv in H as [(e & H & ->)|(done_ & w1 & H & H1)].
  { apply getSettingInternal_inv in H as [(Hd & _) _]. rewrite Hd. auto. }
  apply getSettingInternal_inv in H as [(Hd1 & _) _].
  destruct (truthy done_).
  { inversion H1; subst. rewrite Hd1. auto. }
  apply bind_inv in H1 as [(e & H1 & ->)|(bs & w2 & H1 & H2)].
  { apply getAllBudgetsInternal_inv in H1 as [(Hd & _) _]. rewrite Hd, Hd1. auto. }
  apply getAllBudgetsInternal_inv in H1 as [(Hd2 & _) Hbs].
  rewrite (Hbs _ eq_refl) in H2. rewrite Hd1 in H2.
  rewrite decide_True in H2 by (by apply budgets_listed).
  apply setSettingInternal_inv in H2 as [(_ & Hd & _)|(e & _ & Hd & _)];
    rewrite Hd, ?Hd2, ?Hd1; simpl; auto.
Qed.

Lemma migration_with_a_budget_only_writes_the_flag_witness :
  let w := (runMigrationIfNeeded (legacy_world [false; false; false; false; true])).2 in
  let w' := (runMigrationIfNeeded (set_faults [] w)).2 in
  recs (budgets (db w)) ≠ ∅ ∧
  budgets (db w') = budgets (db w) ∧
  transactions (db w') = transactions (db w).
Proof.
  intros w w'.
  assert (Hb : recs (budgets (db (set_faults [] w))) ≠ ∅).
  { intros H. apply (f_equal (λ m : gmap Z obj, m !! 1)) in H.
    vm_compute in H. discriminate. }
  split; [exact Hb|].
  destruct (migration_with_a_budget_only_writes_the_flag (set_faults [] w) w'
              (Resolved ()) Hb) as (H1 & H2 & _).
  - vm_compute. reflexivity.
  - split; [exact H1|exact H2].
Defined.

Lemma migrate_cursor_resolved budgetId es : ∀ w w',
  migrate_cursor budgetId es w = (Resolved (), w') →
  recs (transactions (db w')) =
    foldl (backfill_step budgetId) (recs (transactions (db w))) es ∧
  keygen (transactions (db w')) = keygen (transactions (db w)).
Proof.
  induction es as [|[k record] es IH]; intros w w' H.
  - simpl in H. apply request_inv in H as (Hd & _). by rewrite Hd.
  - cbn [migrate_cursor] in H.
    apply bind_inv in H as [(e & _ & ?)|([] & w1 & H & H2)]; [done|].
    apply request_inv in H as (Hd & _).
    apply bind_inv in H2 as [(e & _ & ?)|([] & w2 & H2 & H3)]; [done|].
    apply IH in H3 as [Hr Hk]. rewrite Hr, Hk. cbn [foldl].
    destruct (truthy (get_field record "budgetId")) eqn:Ht.
    + inversion H2; subst. rewrite Hd. split; [|done]. f_equal.
      unfold backfill_step. simpl. by rewrite Ht.
    + apply bind_inv in H2 as [(e & _ & ?)|([] & w3 & H2 & H4)]; [done|].
      apply request_inv in H2 as (Hd2 & _).
      unfold cursor_update in H4. inversion H4; subst. simpl.
      rewrite Hd2, Hd. split; [|done]. f_equal.
      unfold backfill_step. simpl. by rewrite Ht.
Qed.

Lemma migrateTransactionsToBudget_effect budgetId w r w' :
  migrateTransactionsToBudget budgetId w = (r, w') →
  transactions (db w') = transactions (db w) ∨
  (recs (transactions (db w')) = backfill budgetId <$> recs (transactions (db w)) ∧
   keygen (transactions (db w')) = keygen (transactions (db w))).
Proof.
  unfold migrateTransactionsToBudget. intros H.
  apply transaction_inv in H as [([] & -> & H)|(e & w1 & -> & H & ->)].
  - right. unfold mbind, M_bind, read in H.
    apply migrate_cursor_resolved in H as [Hr Hk].
    split; [|done]. rewrite Hr. apply backfill_fold, entries_by_key_perm.
  - by left.
Qed.

(** X2. Whatever the engine does, a run neither adds nor removes a
    transaction, changes no field but [budgetId], and leaves every
    transaction that has a truthy [budgetId] exactly as it was: the
    transactions are as before, or the backfill of the ones before. *)
Theorem migration_keeps_assigned_transactions (w w' : World) (r : Res ()) :
  runMigrationIfNeeded w = (r, w') →
  (transactions (db w') = transactions (db w) ∨
   ∃ id, recs (transactions (db w')) = backfill (JNum id) <$> recs (transactions (db w))) ∧
  keygen (transactions (db w')) = keygen (transactions (db w)) ∧
  dom (recs (transactions (db w'))) = dom (recs (transactions (db w))) ∧
  (∀ k record, recs (transactions (db w)) !! k = Some record →
     truthy (get_field record "budgetId") = true →
     recs (transactions (db w')) !! k = Some record) ∧
  (∀ k record', recs (transactions (db w')) !! k = Some record' →
     ∃ record, recs (transactions (db w)) !! k = Some record ∧
               ∀ f, f ≠ "budgetId" → record' !! f = record !! f).
Proof.
  intros H.
  assert (Hcases : transactions (db w') = transactions (db w) ∨
    ∃ id, recs (transactions (db w')) = backfill (JNum id) <$> recs (transactions (db w)) ∧
          keygen (transactions (db w')) = keygen (transactions (db w))).
  { unfold runMigrationIfNeeded in H.
    apply bind_inv in H as [(e & H & ->)|(done_ & w1 & H & H1)].
    { apply getSettingInternal_inv in H as [(Hd & _) _]. rewrite Hd. auto. }
    apply getSettingInternal_inv in H as [(Hd1 & _) _].
    destruct (truthy done_).
    { inversion H1; subst. rewrite Hd1. auto. }
    apply bind_inv in H1 as [(e & H1 & ->)|(bs & w2 & H1 & H2)].
    { apply getAllBudgetsInternal_inv in H1 as [(Hd & _) _]. rewrite Hd, Hd1. auto. }
    apply getAllBudgetsInternal_inv in H1 as [(Hd2 & _) _].
    destruct (decide _).
    { apply setSettingInternal_inv in H2 as [(_ & Hd & _)|(e & _ & Hd & _)];
        rewrite Hd, ?Hd2, ?Hd1; simpl; rewrite ?Hd2, ?Hd1; auto. }
    apply bind_inv in H2 as [(e & H2 & ->)|(target & w3 & H2 & H3)].
    { apply getSettingInternal_inv in H2 as [(Hd & _) _]. rewrite Hd, Hd2, Hd1. auto. }
    apply getSettingInternal_inv in H2 as [(Hd3 & _) _].
    apply bind_inv in H3 as [(e & H3 & ->)|(id & w4 & H3 & H4)].
    { apply createBudgetInternal_inv in H3 as (_ & Ht & _).
      rewrite Ht, Hd3, Hd2, Hd1. auto. }
    apply createBudgetInternal_inv in H3 as (_ & Ht4 & _).
    assert (Hbase : transactions (db w4) = transactions (db w))
      by (by rewrite Ht4, Hd3, Hd2, Hd1).
    apply bind_inv in H4 as [(e & H4 & ->)|([] & w5 & H4 & H5)].
    { apply migrateTransactionsToBudget_effect in H4 as [Ht|[Hr Hk]].
      - left. by rewrite Ht.
      - right. exists id. by rewrite Hr, Hk, Hbase. }
    assert (Hstep : transactions (db w5) = transactions (db w) ∨
      ∃ id, recs (transactions (db w5)) = backfill (JNum id) <$> recs (transactions (db w)) ∧
            keygen (transactions (db w5)) = keygen (transactions (db w))).
    { apply migrateTransactionsToBudget_effect in H4 as [Ht|[Hr Hk]].
      - left. by rewrite Ht.
      - right. exists id. by rewrite Hr, Hk, Hbase. }
    clear H4.
    assert (Hset : ∀ key value wa r' wb,
      setSettingInternal key value wa = (r', wb) →
      transactions (db wb) = transactions (db wa)).
    { intros key value wa r' wb Hs.
      apply setSettingInternal_inv in Hs as [(_ & Hd & _)|(e & _ & Hd & _)];
        by rewrite Hd. }
    apply bind_inv in H5 as [(e & H5 & ->)|([] & w6 & H5 & H6)].
    { apply Hset in H5. by rewrite H5. }
    apply Hset in H5. apply Hset in H6. by rewrite H6, H5. }
  clear H. destruct Hcases as [Hsame|(id & Hr & Hk)].
  - rewrite Hsame. split; [by left|]. split; [done|]. split; [done|].
    split; [done|]. intros k record' Hk. by exists record'.
  - split; [right; by exists id|]. split; [done|]. rewrite Hr.
    split; [apply dom_fmap_L|]. split.
    + intros k record Hrec Ht. rewrite lookup_fmap, Hrec. simpl.
      unfold backfill. by rewrite Ht.
    + intros k record' Hrec. rewrite lookup_fmap in Hrec.
      destruct (recs (transactions (db w)) !! k) as [record|] eqn:Hrec0; [|done].
      simpl in Hrec. inversion Hrec; subst. exists record. split; [done|].
      intros f Hf. unfold backfill. destruct (truthy _); [done|].
      by rewrite lookup_insert_ne.
Qed.

Lemma migration_keeps_assigned_transactions_witness :
  ∃ w', runMigrationIfNeeded (mixed_world []) = (Resolved (), w') ∧
    recs (transactions (db w')) !! 1
      = Some (<["budgetId" := JNum 7]> (legacy_transaction 1 100)) ∧
    dom (recs (transactions (db w'))) = dom (recs (transactions (db (mixed_world [])))).
Proof.
  exists (runMigrationIfNeeded (mixed_world [])).2.
  destruct (migration_keeps_assigned_transactions (mixed_world [])
              (runMigrationIfNeeded (mixed_world [])).2 (Resolved ()))
    as (_ & _ & Hdom & Hkeep & _).
  - vm_compute. reflexivity.
  - split; [vm_compute; reflexivity|]. split; [|exact Hdom].
    apply Hkeep; vm_compute; reflexivity.
Defined.

(** ** [initDB], whatever the engine does *)

Lemma initDB_inv w r w' :
  initDB w = (r, w') →
  (∃ h rm, dbInstance w = Some h ∧ runMigrationIfNeeded w = (rm, w') ∧
     r = match rm with Resolved _ => Resolved h | Rejected e => Rejected e end) ∨
  (dbInstance w = None ∧ r = Rejected OpenError ∧ same_but_faults w w') ∨
  (∃ w1 rm, dbInstance w = None ∧ same_but_faults w w1 ∧
     runMigrationIfNeeded (open_success w1).2 = (rm, w') ∧
     r = match rm with Resolved _ => Resolved (opened w) | Rejected e => Rejected e end).
Proof.
  unfold initDB. intros H.
  apply bind_inv in H as [(e & H & ->)|(h & w1 & H & Hm)].
  - right. left. destruct (dbInstance w) as [h|] eqn:Hi; [done|].
    apply bind_inv in H as [(e' & H & ->)|([] & w1 & H & Hs)]; [|done].
    unfold open_request in H. destruct (request w) as [[[]|e0] w0] eqn:Hreq; [done|].
    inversion H; subst. apply request_inv in Hreq. done.
  - destruct (dbInstance w) as [h0|] eqn:Hi.
    + left. inversion H; subst.
      apply bind_inv in Hm as [(e & Hm & ->)|([] & w2 & Hm & Hret)].
      * exists h, (Rejected e). done.
      * inversion Hret; subst. exists h, (Resolved ()). done.
    + right. right.
      apply bind_inv in H as [(e' & _ & ?)|([] & w0 & H & Hs)]; [done|].
      unfold open_request in H. destruct (request w) as [[[]|e0] w0'] eqn:Hreq; [|done].
      inversion H; subst. pose proof (request_inv _ _ _ Hreq) as Hsame.
      unfold open_success in Hs. inversion Hs; subst.
      pose proof Hsame as (_ & _ & Ho & _).
      apply bind_inv in Hm as [(e & Hm & ->)|([] & w2 & Hm & Hret)].
      * exists w0, (Rejected e).
        split; [done|]. split; [exact Hsame|]. split; [exact Hm|done].
      * inversion Hret; subst. exists w0, (Resolved ()). rewrite <- Ho.
        split; [done|]. split; [exact Hsame|]. split; [exact Hm|done].
Qed.

(** X3. For a call of [initDB] that runs from its start to its end with no
    other call in between: whatever the engine does, when it resolves the
    returned handle is the memoized one, the migration flag is truthy, and
    a handle that was already memoized is the one returned, with no
    connection opened; otherwise exactly one connection was opened. *)
Theorem initDB_resolved_is_memoized_and_migrated (w w' : World) (h : Z) :
  initDB w = (Resolved h, w') →
  dbInstance w' = Some h ∧
  truthy (setting_value (db w') "migrationV2Done") = true ∧
  match dbInstance w with
  | Some h0 => h = h0 ∧ opened w' = opened w
  | None => h = opened w ∧ opened w' = opened w + 1
  end.
Proof.
  intros H.
  apply initDB_inv in H as [(h0 & rm & Hi & Hrun & Hr)|[(_ & ? & _)|
    (w1 & rm & Hi & Hsame & Hrun & Hr)]]; [|done|].
  - destruct rm as [[]|e]; [|done]. inversion Hr; subst.
    pose proof (keeps_connection_runMigrationIfNeeded _ _ _ Hrun) as (Hi' & Ho & _).
    apply runMigrationIfNeeded_outcome in Hrun as (l & _ & Hfl & _).
    rewrite Hi, Hi'. by rewrite Hi.
  - destruct rm as [[]|e]; [|done]. inversion Hr; subst.
    pose proof (keeps_connection_runMigrationIfNeeded _ _ _ Hrun) as (Hi' & Ho & _).
    apply runMigrationIfNeeded_outcome in Hrun as (l & _ & Hfl & _).
    destruct Hsame as (_ & _ & Ho1 & _). simpl in *.
    rewrite Hi, Hi', Ho, Ho1. done.
Qed.

Lemma initDB_resolved_is_memoized_and_migrated_witness :
  ∃ w1 w2,
    initDB (legacy_world [false; false; false; false; false; true]) = (Rejected StorageError, w1) ∧
    initDB (set_faults [] w1) = (Resolved 0, w2) ∧
    dbInstance w2 = Some 0 ∧ opened w2 = 1 ∧
    truthy (setting_value (db w2) "migrationV2Done") = true.
Proof.
  pose (w1 := (initDB (legacy_world [false; false; false; false; false; true])).2).
  exists w1, (initDB (set_faults [] w1)).2.
  split; [vm_compute; reflexivity|]. split; [vm_compute; reflexivity|].
  destruct (initDB_resolved_is_memoized_and_migrated (set_faults [] w1)
              (initDB (set_faults [] w1)).2 0) as (Hi & Hfl & Hh).
  - vm_compute. reflexivity.
  - split; [exact Hi|]. split; [|exact Hfl].
    assert (Hmemo : dbInstance (set_faults [] w1) = Some 0) by (vm_compute; reflexivity).
    rewrite Hmemo in Hh. destruct Hh as [_ Ho]. rewrite Ho. vm_compute. reflexivity.
Defined.

(** X4. When [initDB] rejects, either the open failed, and then nothing is
    memoized and nothing was read or written, or the migration failed on a
    connection that stays memoized, and then the flag has the value it had.
    Either way the next call, its requests served, resolves with the flag
    truthy, and the two calls together opened one connection at most. *)
Theorem initDB_rejected_then_retried (w w' : World) (e : Err) :
  initDB w = (Rejected e, w') →
  ((e = OpenError ∧ dbInstance w = None ∧ dbInstance w' = None ∧
    db w' = db w ∧ writes w' = writes w ∧ opened w' = opened w) ∨
   (e = StorageError ∧ is_Some (dbInstance w') ∧
    setting_value (db w') "migrationV2Done" = setting_value (db w) "migrationV2Done")) ∧
  ∃ h w'',
    initDB (set_faults [] w') = (Resolved h, w'') ∧
    truthy (setting_value (db w'') "migrationV2Done") = true ∧
    opened w ≤ opened w'' ≤ opened w + 1.
Proof.
  intros H.
  destruct (initDB_served (set_faults [] w') eq_refl)
    as (h & w'' & Hretry & _ & _ & _ & Hfl & _).
  pose proof (initDB_resolved_is_memoized_and_migrated _ _ _ Hretry) as (_ & _ & Hopen).
  simpl in Hopen.
  assert (Hflag : ∀ wa wb e', runMigrationIfNeeded wa = (Rejected e', wb) →
    e' = StorageError ∧
    setting_value (db wb) "migrationV2Done" = setting_value (db wa) "migrationV2Done").
  { intros wa wb e' Hrun.
    pose proof (fails_with_engine_runMigrationIfNeeded _ _ _ Hrun) as [-> _].
    apply runMigrationIfNeeded_outcome in Hrun as (l & _ & Hs & _).
    split; [done|]. unfold setting_value. by rewrite Hs. }
  apply initDB_inv in H as [(h0 & rm & Hi & Hrun & Hr)|[(Hi & He & Hsame)|
    (w1 & rm & Hi & Hsame & Hrun & Hr)]].
  - destruct rm as [[]|e']; [done|]. inversion Hr; subst.
    pose proof (keeps_connection_runMigrationIfNeeded _ _ _ Hrun) as (Hi' & Ho & _).
    apply Hflag in Hrun as [-> Hs].
    rewrite Hi', Hi in Hopen. destruct Hopen as [_ Hopen].
    split; [right; split; [done|]; split; [rewrite Hi', Hi; eauto|done]|].
    exists h, w''. split; [done|]. split; [done|]. lia.
  - inversion He; subst. destruct Hsame as (Hd & Hi' & Ho & _ & Hw).
    rewrite Hi', Hi in Hopen. destruct Hopen as [_ Hopen].
    split; [left; repeat split; congruence|].
    exists h, w''. split; [done|]. split; [done|]. lia.
  - destruct rm as [[]|e']; [done|]. inversion Hr; subst.
    pose proof (keeps_connection_runMigrationIfNeeded _ _ _ Hrun) as (Hi' & Ho & _).
    apply Hflag in Hrun as [-> Hs]. simpl in *.
    destruct Hsame as (Hd & _ & Ho1 & _).
    rewrite Hi' in Hopen. destruct Hopen as [_ Hopen].
    split; [right; split; [done|]; split; [rewrite Hi'; eauto|by rewrite Hs, Hd]|].
    exists h, w''. split; [done|]. split; [done|]. lia.
Qed.

Lemma initDB_rejected_then_retried_witness :
  ∃ w1 w2,
    initDB (legacy_world [true]) = (Rejected OpenError, w1) ∧
    dbInstance w1 = None ∧ db w1 = db (legacy_world [true]) ∧
    initDB (set_faults [] w1) = (Resolved 0, w2) ∧
    truthy (setting_value (db w2) "migrationV2Done") = true.
Proof.
  pose (w1 := (initDB (legacy_world [true])).2).
  exists w1, (initDB (set_faults [] w1)).2.
  destruct (initDB_rejected_then_retried (legacy_world [true]) w1 OpenError)
    as ([(_ & _ & Hi & Hd & _)|(He & _)] & h & w2 & Hretry & Hfl & _).
  - vm_compute. reflexivity.
  - split; [vm_compute; reflexivity|]. split; [exact Hi|]. split; [exact Hd|].
    rewrite Hretry. simpl. split; [|exact Hfl].
    assert (Hh : (initDB (set_faults [] w1)).1 = Resolved h) by (by rewrite Hretry).
    vm_compute in Hh. congruence.
  - discriminate He.
Defined.

(** ** Well-formed stores stay well formed *)

Lemma store_ok_os_add record st : store_ok st → store_ok (os_add record st).2.
Proof.
  intros [[H1 Hk] Hi]. unfold os_add. simpl. split; [split|]; simpl.
  - lia.
  - apply map_Forall_insert_2; [lia|].
    intros k r Hr. apply Hk in Hr. simpl in *. lia.
  - apply map_Forall_insert_2; [|done].
    unfold inline_key. by rewrite lookup_insert_eq.
Qed.

Lemma store_ok_update k record st :
  store_ok st → inline_key record = Some k → k < keygen st →
  store_ok {| recs := <[k := record]> (recs st); keygen := keygen st |}.
Proof.
  intros [[H1 Hk] Hi] Hin Hlt. split; [split|]; simpl.
  - done.
  - by apply map_Forall_insert_2.
  - by apply map_Forall_insert_2.
Qed.

Lemma store_ok_os_put record st : store_ok st → store_ok (os_put record st).2.
Proof.
  intros Hok. unfold os_put. destruct (inline_key record) as [k|] eqn:Hin;
    [|by apply store_ok_os_add].
  destruct Hok as [[H1 Hk] Hi]. split; [split|]; simpl.
  - lia.
  - apply map_Forall_insert_2; [lia|].
    intros k' r Hr. apply Hk in Hr. simpl in *. lia.
  - by apply map_Forall_insert_2.
Qed.

Lemma store_ok_os_delete k st : store_ok st → store_ok (os_delete k st).
Proof.
  intros [[H1 Hk] Hi]. split; [split|]; simpl; [done|..];
    by apply map_Forall_delete.
Qed.

Lemma preserves_ok_unchanged {A} (m : M A) :
  (∀ w r w', m w = (r, w') → db w' = db w) → preserves_ok m.
Proof. intros Hm w r w' H Hok. by rewrite (Hm _ _ _ H). Qed.

Lemma preserves_ok_request : preserves_ok request.
Proof.
  apply preserves_ok_unchanged. intros w r w' H. by apply request_inv in H as (? & _).
Qed.

Lemma preserves_ok_ret {A} (a : A) : preserves_ok (mret a).
Proof. apply preserves_ok_unchanged. intros w r w' H. by inversion H. Qed.

Lemma preserves_ok_read {A} (f : Database → A) : preserves_ok (read f).
Proof. apply preserves_ok_unchanged. intros w r w' H. by inversion H. Qed.

Lemma preserves_ok_now : preserves_ok now.
Proof. apply preserves_ok_unchanged. intros w r w' H. by inversion H. Qed.

Lemma preserves_ok_reject {A} e : preserves_ok (reject (A:=A) e).
Proof. apply preserves_ok_unchanged. intros w r w' H. by inversion H. Qed.

Lemma preserves_ok_bind {A B} (m : M A) (f : A → M B) :
  preserves_ok m → (∀ a, preserves_ok (f a)) → preserves_ok (m ≫= f).
Proof.
  intros Hm Hf w r w' H Hok.
  apply bind_inv in H as [(e & H & ->)|(a & w1 & H & H1)].
  - by eapply Hm.
  - eapply Hf; [done|]. by eapply Hm.
Qed.

Lemma preserves_ok_transaction {A} (body : M A) :
  preserves_ok body → preserves_ok (transaction body).
Proof.
  intros Hb w r w' H Hok.
  apply transaction_inv in H as [(a & -> & H)|(e & w1 & -> & H & ->)].
  - by eapply Hb.
  - done.
Qed.

Lemma preserves_ok_budgets_add record : preserves_ok (budgets_add record).
Proof.
  intros w r w' H [Ht Hb]. unfold budgets_add in H. inversion H; subst.
  split; [done|]. by apply store_ok_os_add.
Qed.

Lemma preserves_ok_budgets_put record : preserves_ok (budgets_put record).
Proof.
  intros w r w' H [Ht Hb]. unfold budgets_put in H.
  destruct (os_put record (budgets (db w))) as [k st] eqn:Hput.
  inversion H; subst. split; [done|]. simpl.
  replace st with (os_put record (budgets (db w))).2 by (by rewrite Hput).
  by apply store_ok_os_put.
Qed.

Lemma preserves_ok_transactions_add record : preserves_ok (transactions_add record).
Proof.
  intros w r w' H [Ht Hb]. unfold transactions_add in H. inversion H; subst.
  split; [|done]. by apply store_ok_os_add.
Qed.

Lemma preserves_ok_transactions_put record : preserves_ok (transactions_put record).
Proof.
  intros w r w' H [Ht Hb]. unfold transactions_put in H.
  destruct (os_put record (transactions (db w))) as [k st] eqn:Hput.
  inversion H; subst. split; [|done]. simpl.
  replace st with (os_put record (transactions (db w))).2 by (by rewrite Hput).
  by apply store_ok_os_put.
Qed.

Lemma preserves_ok_transactions_delete k : preserves_ok (transactions_delete k).
Proof.
  intros w r w' H [Ht Hb]. unfold transactions_delete in H. inversion H; subst.
  split; [|done]. by apply store_ok_os_delete.
Qed.

Lemma preserves_ok_write_settings f x :
  (∀ d, transactions (f d) = transactions d ∧ budgets (f d) = budgets d) →
  preserves_ok (write f x).
Proof.
  intros Hf w r w' H [Ht Hb]. unfold write in H. inversion H; subst. simpl.
  destruct (Hf (db w)) as [Ht' Hb']. unfold stores_ok. by rewrite Ht', Hb'.
Qed.

Create HintDb wellformed.

#[export] Hint Resolve preserves_ok_request preserves_ok_ret preserves_ok_read
  preserves_ok_now preserves_ok_reject preserves_ok_bind preserves_ok_transaction
  preserves_ok_budgets_add preserves_ok_budgets_put preserves_ok_transactions_add
  preserves_ok_transactions_put preserves_ok_transactions_delete : wellformed.

Lemma preserves_ok_getSettingInternal key : preserves_ok (getSettingInternal key).
Proof. unfold getSettingInternal. auto 10 with wellformed. Qed.

Lemma preserves_ok_setSettingInternal key value :
  preserves_ok (setSettingInternal key value).
Proof.
  unfold setSettingInternal.
  auto 10 using preserves_ok_write_settings with wellformed.
Qed.

Lemma preserves_ok_migrate_cursor budgetId es : ∀ w r w',
  migrate_cursor budgetId es w = (r, w') →
  Forall (λ e, inline_key e.2 = Some e.1 ∧ e.1 < keygen (transactions (db w))) es →
  stores_ok (db w) → stores_ok (db w').
Proof.
  induction es as [|[k record] es IH]; intros w r w' H Hes Hok.
  - simpl in H. by eapply preserves_ok_request.
  - cbn [migrate_cursor] in H. apply Forall_cons in Hes as [[Hin Hlt] Hes].
    simpl in Hin, Hlt.
    apply bind_inv in H as [(e & H & ->)|([] & w1 & H & H2)].
    { by eapply preserves_ok_request. }
    apply request_inv in H as (Hd & _).
    apply bind_inv in H2 as [(e & H2 & ->)|([] & w2 & H2 & H3)].
    + destruct (truthy _); [done|].
      apply bind_inv in H2 as [(e' & H2 & ?)|([] & w3 & H2 & H4)]; [|done].
      apply request_inv in H2 as (Hd2 & _). by rewrite Hd2, Hd.
    + destruct (truthy _).
      * inversion H2; subst. eapply IH; [done|by rewrite Hd|by rewrite Hd].
      * apply bind_inv in H2 as [(e' & _ & ?)|([] & w3 & H2 & H4)]; [done|].
        apply request_inv in H2 as (Hd2 & _).
        unfold cursor_update in H4. inversion H4; subst. clear H4.
        eapply IH; [done|..]; simpl; rewrite Hd2, Hd.
        -- done.
        -- destruct Hok as [Ht Hb]. split; [|done]. simpl.
           apply store_ok_update; [done| |done].
           unfold inline_key in *. by rewrite lookup_insert_ne.
Qed.

Lemma preserves_ok_migrateTransactionsToBudget budgetId :
  preserves_ok (migrateTransactionsToBudget budgetId).
Proof.
  unfold migrateTransactionsToBudget. apply preserves_ok_transaction.
  intros w r w' H Hok. unfold mbind, M_bind, read in H.
  eapply preserves_ok_migrate_cursor; [done| |done].
  apply Forall_forall. intros [k record] Hin.
  rewrite entries_by_key_perm in Hin. apply elem_of_map_to_list in Hin.
  destruct Hok as [[[_ Hk] Hi] _]. split; simpl.
  - by apply Hi in Hin.
  - by apply Hk in Hin.
Qed.

Lemma preserves_ok_runMigrationIfNeeded : preserves_ok runMigrationIfNeeded.
Proof.
  unfold runMigrationIfNeeded, getAllBudgetsInternal, createBudgetInternal.
  apply preserves_ok_bind; [apply preserves_ok_getSettingInternal|].
  intros migrationDone. destruct (truthy migrationDone); [auto with wellformed|].
  apply preserves_ok_bind; [auto 10 with wellformed|].
  intros bs. destruct (decide _); [apply preserves_ok_setSettingInternal|].
  apply preserves_ok_bind; [apply preserves_ok_getSettingInternal|].
  intros monthlyTarget.
  apply preserves_ok_bind; [auto 10 with wellformed|].
  intros id.
  apply preserves_ok_bind; [apply preserves_ok_migrateTransactionsToBudget|].
  intros _.
  apply preserves_ok_bind; [|intros _]; apply preserves_ok_setSettingInternal.
Qed.

Lemma preserves_ok_initDB : preserves_ok initDB.
Proof.
  unfold initDB. apply preserves_ok_bind.
  - apply preserves_ok_unchanged. intros w r w' H.
    destruct (dbInstance w); [by inversion H|].
    apply bind_inv in H as [(e & H & ->)|([] & w1 & H & H1)].
    + unfold open_request in H. destruct (request w) as [[[]|e0] w0] eqn:Hreq;
        inversion H; subst; by apply request_inv in Hreq as (? & _).
    + unfold open_request in H. destruct (request w) as [[[]|e0] w0] eqn:Hreq;
        inversion H; subst. apply request_inv in Hreq as (? & _).
      unfold open_success in H1. by inversion H1; subst.
  - intros h. apply preserves_ok_bind; [apply preserves_ok_runMigrationIfNeeded|].
    auto with wellformed.
Qed.

#[export] Hint Resolve preserves_ok_initDB preserves_ok_getSettingInternal
  preserves_ok_setSettingInternal : wellformed.

Lemma preserves_ok_collect_cursor budgetId es : ∀ results,
  preserves_ok (collect_cursor budgetId es results).
Proof.
  induction es as [|[k value] es IH]; intros results; cbn [collect_cursor];
    auto with wellformed.
Qed.

Lemma preserves_ok_delete_cursor budgetId es : ∀ count,
  preserves_ok (delete_cursor budgetId es count).
Proof.
  induction es as [|[k value] es IH]; intros count; cbn [delete_cursor];
    [auto with wellformed|].
  apply preserves_ok_bind; [auto with wellformed|]. intros _.
  destruct (strict_eq _ _); auto 10 with wellformed.
Qed.

Lemma preserves_ok_IDBKeyRange_bound lower upper :
  preserves_ok (IDBKeyRange_bound lower upper).
Proof.
  unfold IDBKeyRange_bound. destruct lower, upper; try case_decide;
    auto with wellformed.
Qed.

#[export] Hint Resolve preserves_ok_collect_cursor preserves_ok_delete_cursor
  preserves_ok_IDBKeyRange_bound : wellformed.

(** X5. Whatever the engine does, every operation of the interface leaves
    the two auto-increment stores well formed: the key generator stays ahead
    of every key in use (so a generated id is always a fresh one), and every
    record keeps its own key in [id]. *)
Theorem interface_preserves_wellformed_stores :
  preserves_ok initDB ∧
  (∀ name target, preserves_ok (createBudget name target)) ∧
  (∀ id, preserves_ok (getBudget id)) ∧
  preserves_ok getAllBudgets ∧
  (∀ id updates, preserves_ok (updateBudget id updates)) ∧
  (∀ input, preserves_ok (addTransaction input)) ∧
  (∀ UTC year month budgetId, preserves_ok (getTransactionsByMonth UTC year month budgetId)) ∧
  (∀ budgetId, preserves_ok (getAllTransactions budgetId)) ∧
  (∀ key, preserves_ok (getSetting key)) ∧
  (∀ key value, preserves_ok (setSetting key value)) ∧
  (∀ id, preserves_ok (deleteTransaction id)) ∧
  (∀ id note, preserves_ok (updateTransactionNote id note)) ∧
  (∀ startDate endDate budgetId,
     preserves_ok (getTransactionsByDateRange startDate endDate budgetId)) ∧
  (∀ startDate endDate budgetId,
     preserves_ok (deleteTransactionsByDateRange startDate endDate budgetId)) ∧
  (∀ ToNumber budgetId, preserves_ok (getDataDateBounds ToNumber budgetId)).
Proof.
  assert (Hall : ∀ budgetId, preserves_ok (getAllTransactions budgetId)).
  { intros. unfold getAllTransactions. auto 10 with wellformed. }
  repeat match goal with |- _ ∧ _ => split end; intros.
  - apply preserves_ok_initDB.
  - unfold createBudget, createBudgetInternal. auto 10 with wellformed.
  - unfold getBudget. auto 10 with wellformed.
  - unfold getAllBudgets, getAllBudgetsInternal. auto 10 with wellformed.
  - unfold updateBudget. apply preserves_ok_bind; [auto with wellformed|]. intros _.
    apply preserves_ok_transaction.
    apply preserves_ok_bind; [auto with wellformed|]. intros _.
    apply preserves_ok_bind; [auto with wellformed|]. intros [record|];
      auto 10 with wellformed.
  - unfold addTransaction. auto 10 with wellformed.
  - unfold getTransactionsByMonth. auto 10 with wellformed.
  - apply Hall.
  - unfold getSetting. auto 10 with wellformed.
  - unfold setSetting. auto 10 with wellformed.
  - unfold deleteTransaction. auto 10 with wellformed.
  - unfold updateTransactionNote. apply preserves_ok_bind; [auto with wellformed|].
    intros _. apply preserves_ok_transaction.
    apply preserves_ok_bind; [auto with wellformed|]. intros _.
    apply preserves_ok_bind; [auto with wellformed|]. intros [record|];
      auto 10 with wellformed.
  - unfold getTransactionsByDateRange. auto 10 with wellformed.
  - unfold deleteTransactionsByDateRange. auto 10 with wellformed.
  - unfold getDataDateBounds. apply preserves_ok_bind; [auto with wellformed|].
    intros _. apply preserves_ok_bind; [apply Hall|].
    intros [|t ts]; auto with wellformed.
Qed.

Lemma store_ok_decide st :
  1 ≤ keygen st →
  bool_decide (map_Forall (λ k record, k < keygen st ∧ inline_key record = Some k)
                 (recs st)) = true →
  store_ok st.
Proof.
  intros H1 H. apply bool_decide_eq_true in H.
  split; [split; [done|]|]; intros k record Hr; by apply H in Hr as [? ?].
Qed.

Lemma legacy_store_ok : stores_ok legacy_store.
Proof.
  split; apply store_ok_decide; try (simpl; lia); vm_compute; reflexivity.
Qed.

Lemma interface_preserves_wellformed_stores_witness :
  stores_ok (db (legacy_world [false; false; true])) ∧
  stores_ok (db (addTransaction (transaction_input 1250 "Food" None 1)
                   (legacy_world [false; false; true])).2) ∧
  stores_ok (db (addTransaction (transaction_input 1250 "Food" None 1)
                   (legacy_world [])).2).
Proof.
  destruct interface_preserves_wellformed_stores as (_ & _ & _ & _ & _ & Hadd & _).
  split; [exact legacy_store_ok|]. split.
  - eapply (Hadd _ (legacy_world [false; false; true])).
    + apply surjective_pairing.
    + exact legacy_store_ok.
  - eapply (Hadd _ (legacy_world [])).
    + apply surjective_pairing.
    + exact legacy_store_ok.
Defined.

(** ** Budgets *)

Lemma createBudget_served name target w h w1 :
  initDB w = (Resolved h, w1) → faults w1 = [] →
  let id := keygen (budgets (db w1)) in
  let target' := if decide (target = JUndefined) then JNum 1000 else target in
  createBudget name target w =
    (Resolved id,
     log_write (WBudgetAdd id)
       (set_db (set_budgets
          {| recs := <[id := budget_record id name target' (clock w1)]>
                       (recs (budgets (db w1)));
             keygen := id + 1 |} (db w1)) w1)).
Proof.
  intros Hinit Hf id target'. unfold createBudget.
  rewrite (bind_resolved _ _ _ _ _ Hinit).
  by rewrite createBudgetInternal_served.
Qed.

Lemma getBudget_served id w h w1 :
  initDB w = (Resolved h, w1) → faults w1 = [] →
  getBudget id w = (Resolved (recs (budgets (db w1)) !! id), w1).
Proof.
  intros Hinit Hf. unfold getBudget.
  rewrite (bind_resolved _ _ _ _ _ Hinit). apply transaction_resolved.
  by rewrite (bind_resolved _ _ _ _ _ (request_served w1 Hf)).
Qed.

Lemma getAllBudgets_served w h w1 :
  initDB w = (Resolved h, w1) → faults w1 = [] →
  getAllBudgets w = (Resolved ((entries_by_key (budgets (db w1))).*2), w1).
Proof.
  intros Hinit Hf. unfold getAllBudgets.
  rewrite (bind_resolved _ _ _ _ _ Hinit). by apply getAllBudgetsInternal_served.
Qed.

(** What [initDB] leaves is ready: a further [initDB] changes nothing. *)
Lemma initDB_again w h w1 :
  faults w = [] → initDB w = (Resolved h, w1) → initDB w1 = (Resolved h, w1).
Proof.
  intros Hf Hinit.
  destruct (initDB_served w Hf) as (h' & w1' & Hinit' & Hf1 & Hi1 & _ & Hfl & _).
  rewrite Hinit in Hinit'. inversion Hinit'; subst. by apply initDB_ready.
Qed.

(** X6. [createBudget] then [getBudget]: the new budget gets the key
    generator's id, which no budget had, and is read back as the record
    [{ id, name, target, created }] with the creation instant; the target is
    1000 when it was left [undefined], and the given value otherwise, zero and
    [null] included.  The other budgets are as they were. *)
Theorem createBudget_then_getBudget (name target : jsval) (w : World) :
  faults w = [] →
  stores_ok (db w) →
  ∃ h w1 id w2,
    initDB w = (Resolved h, w1) ∧
    createBudget name target w = (Resolved id, w2) ∧
    recs (budgets (db w1)) !! id = None ∧
    getBudget id w2 =
      (Resolved (Some (budget_record id name
                         (if decide (target = JUndefined) then JNum 1000 else target)
                         (clock w))), w2) ∧
    (∀ k, k ≠ id → recs (budgets (db w2)) !! k = recs (budgets (db w1)) !! k) ∧
    transactions (db w2) = transactions (db w1).
Proof.
  intros Hf Hok.
  destruct (initDB_served w Hf) as (h & w1 & Hinit & Hf1 & Hi1 & Hc & Hfl & _).
  pose proof (preserves_ok_initDB _ _ _ Hinit Hok) as [_ [[_ Hk] _]].
  pose proof (createBudget_served name target _ _ _ Hinit Hf1) as Hcreate.
  simpl in Hcreate.
  match type of Hcreate with _ = (Resolved ?i, ?w2') =>
    exists h, w1, i, w2'; set (w2 := w2') in * end.
  split; [done|]. split; [done|]. split; [|split; [|split]].
  - destruct (recs (budgets (db w1)) !! _) as [r|] eqn:Hr; [|done].
    apply Hk in Hr. simpl in Hr. lia.
  - rewrite (getBudget_served _ w2 h w2); [| |done].
    + simpl. by rewrite lookup_insert_eq, Hc.
    + by apply initDB_ready.
  - intros k Hne. simpl. by rewrite lookup_insert_ne.
  - done.
Qed.

Lemma createBudget_then_getBudget_witness :
  faults (legacy_world []) = [] ∧ stores_ok (db (legacy_world [])) ∧
  ∃ w2 w3,
    createBudget (JStr "Travel") JUndefined (legacy_world []) = (Resolved 2, w2) ∧
    getBudget 2 w2 =
      (Resolved (Some (budget_record 2 (JStr "Travel") (JNum 1000) 1700000000000)), w2) ∧
    createBudget (JStr "Gifts") (JNum 0) w2 = (Resolved 3, w3) ∧
    getBudget 3 w3 =
      (Resolved (Some (budget_record 3 (JStr "Gifts") (JNum 0) 1700000000000)), w3).
Proof.
  split; [reflexivity|]. split; [exact legacy_store_ok|].
  destruct (createBudget_then_getBudget (JStr "Travel") JUndefined (legacy_world [])
              eq_refl legacy_store_ok)
    as (h & w1 & id & w2 & Hinit & Hcreate & _ & Hget & _).
  assert (Hid : id = 2).
  { assert (H : (createBudget (JStr "Travel") JUndefined (legacy_world [])).1
                = Resolved id) by (by rewrite Hcreate).
    vm_compute in H. congruence. }
  subst id. exists w2, (createBudget (JStr "Gifts") (JNum 0) w2).2.
  split; [exact Hcreate|]. split; [exact Hget|].
  replace w2 with (createBudget (JStr "Travel") JUndefined (legacy_world [])).2
    by (by rewrite Hcreate).
  split; vm_compute; reflexivity.
Defined.

Lemma updateBudget_served id updates w h w1 record :
  initDB w = (Resolved h, w1) → faults w1 = [] →
  recs (budgets (db w1)) !! id = Some record →
  inline_key record = Some id →
  let record1 :=
    if decide (get_field updates "name" = JUndefined) then record
    else <["name" := get_field updates "name"]> record in
  let record2 :=
    if decide (get_field updates "target" = JUndefined) then record1
    else <["target" := get_field updates "target"]> record1 in
  updateBudget id updates w =
    (Resolved (),
     log_write (WBudgetPut id)
       (set_db (set_budgets
          {| recs := <[id := record2]> (recs (budgets (db w1)));
             keygen := Z.max (keygen (budgets (db w1))) (id + 1) |} (db w1)) w1)).
Proof.
  intros Hinit Hf Hrec Hin record1 record2. unfold updateBudget.
  rewrite (bind_resolved _ _ _ _ _ Hinit). apply transaction_resolved.
  rewrite (bind_resolved _ _ _ _ _ (request_served w1 Hf)).
  unfold mbind at 1, M_bind at 1, read. rewrite Hrec.
  rewrite (bind_resolved _ _ _ _ _ (request_served w1 Hf)).
  unfold budgets_put, os_put. fold record1. fold record2.
  assert (Hin2 : inline_key record2 = Some id).
  { unfold record2, record1, inline_key in *.
    repeat case_decide; rewrite ?lookup_insert_ne by done; done. }
  by rewrite Hin2.
Qed.

(** X7. [updateBudget] on a stored budget changes its [name] and its
    [target], each only when the update gives it a value other than
    [undefined], and nothing else: the budget keeps its id and its
    creation instant, the other budgets, the key generator, the transactions
    and the settings are untouched, and [getBudget] reads the new record
    back. *)
Theorem updateBudget_changes_name_and_target_only (id : Z) (updates : obj) (w : World) :
  faults w = [] →
  stores_ok (db w) →
  ∃ h w1,
    initDB w = (Resolved h, w1) ∧
    ∀ record, recs (budgets (db w1)) !! id = Some record →
      ∃ w2 record',
        updateBudget id updates w = (Resolved (), w2) ∧
        getBudget id w2 = (Resolved (Some record'), w2) ∧
        record' !! "name" =
          (if decide (get_field updates "name" = JUndefined) then record !! "name"
           else Some (get_field updates "name")) ∧
        record' !! "target" =
          (if decide (get_field updates "target" = JUndefined) then record !! "target"
           else Some (get_field updates "target")) ∧
        (∀ f, f ≠ "name" → f ≠ "target" → record' !! f = record !! f) ∧
        (∀ k, k ≠ id → recs (budgets (db w2)) !! k = recs (budgets (db w1)) !! k) ∧
        keygen (budgets (db w2)) = keygen (budgets (db w1)) ∧
        transactions (db w2) = transactions (db w1) ∧
        settings (db w2) = settings (db w1).
Proof.
  intros Hf Hok.
  destruct (initDB_served w Hf) as (h & w1 & Hinit & Hf1 & Hi1 & Hc & Hfl & _).
  pose proof (preserves_ok_initDB _ _ _ Hinit Hok) as [_ [[_ Hk] Hi]].
  exists h, w1. split; [done|]. intros record Hrec.
  pose proof (Hk _ _ Hrec) as Hlt. pose proof (Hi _ _ Hrec) as Hin.
  simpl in Hlt, Hin.
  pose proof (updateBudget_served id updates _ _ _ _ Hinit Hf1 Hrec Hin) as Hupd.
  simpl in Hupd.
  match type of Hupd with _ = (Resolved (), ?w2') => set (w2 := w2') in * end.
  eexists w2, _. split; [exact Hupd|]. split.
  { rewrite (getBudget_served _ w2 h w2); [| |done].
    - simpl. by rewrite lookup_insert_eq.
    - by apply initDB_ready. }
  split; [|split; [|split; [|split; [|split; [|split]]]]].
  - repeat case_decide; by simplify_map_eq.
  - repeat case_decide; by simplify_map_eq.
  - intros f Hn Ht. repeat case_decide; by simplify_map_eq.
  - intros k Hne. simpl. by rewrite lookup_insert_ne.
  - simpl. lia.
  - done.
  - done.
Qed.

Lemma updateBudget_changes_name_and_target_only_witness :
  faults (legacy_world []) = [] ∧ stores_ok (db (legacy_world [])) ∧
  ∃ w2 record',
    updateBudget 1 (<["target" := JNum 2000]> ∅) (legacy_world []) = (Resolved (), w2) ∧
    getBudget 1 w2 = (Resolved (Some record'), w2) ∧
    record' = budget_record 1 (JStr "Personal Budget") (JNum 2000) 1700000000000.
Proof.
  split; [reflexivity|]. split; [exact legacy_store_ok|].
  destruct (updateBudget_changes_name_and_target_only 1 (<["target" := JNum 2000]> ∅)
              (legacy_world []) eq_refl legacy_store_ok) as (h & w1 & Hinit & Hupd).
  destruct (Hupd (budget_record 1 (JStr "Personal Budget") (JNum 1500) 1700000000000))
    as (w2 & record' & Hu & Hg & _).
  { replace w1 with (initDB (legacy_world [])).2 by (by rewrite Hinit).
    vm_compute. reflexivity. }
  exists w2, record'. split; [exact Hu|]. split; [exact Hg|].
  assert (H : (getBudget 1 w2).1 = Resolved (Some record')) by (by rewrite Hg).
  replace w2 with (updateBudget 1 (<["target" := JNum 2000]> ∅) (legacy_world [])).2 in H
    by (by rewrite Hu).
  assert (H' : (getBudget 1
                  (updateBudget 1 (<["target" := JNum 2000]> ∅) (legacy_world [])).2).1
               = Resolved (Some (budget_record 1 (JStr "Personal Budget") (JNum 2000)
                                   1700000000000)))
    by (vm_compute; reflexivity).
  congruence.
Defined.

(** ** Settings *)

Lemma setSetting_served key value w h w1 :
  initDB w = (Resolved h, w1) → faults w1 = [] →
  setSetting key value w =
    (Resolved (),
     log_write (WSettingPut key value)
       (set_db (set_settings (<[key := setting_record key value]> (settings (db w1)))
                  (db w1)) w1)).
Proof.
  intros Hinit Hf. unfold setSetting.
  rewrite (bind_resolved _ _ _ _ _ Hinit). by apply setSettingInternal_served.
Qed.

Lemma getSetting_served key w h w1 :
  initDB w = (Resolved h, w1) → faults w1 = [] →
  getSetting key w = (Resolved (setting_value (db w1) key), w1).
Proof.
  intros Hinit Hf. unfold getSetting.
  rewrite (bind_resolved _ _ _ _ _ Hinit). by apply getSettingInternal_served.
Qed.

(** X8. [setSetting] then [getSetting]: the value is read back as stored,
    [undefined] and falsy values included, and every other key reads as
    before, provided the write is not a falsy value for [migrationV2Done]
    (which the next call's migration check would act upon).  Budgets and
    transactions are untouched. *)
Theorem setSetting_then_getSetting (key : string) (value : jsval) (w : World) :
  faults w = [] →
  key ≠ "migrationV2Done" ∨ truthy value = true →
  ∃ h w1 w2,
    initDB w = (Resolved h, w1) ∧
    setSetting key value w = (Resolved (), w2) ∧
    getSetting key w2 = (Resolved value, w2) ∧
    (∀ key', key' ≠ key →
       getSetting key' w2 = (Resolved (setting_value (db w1) key'), w2)) ∧
    budgets (db w2) = budgets (db w1) ∧
    transactions (db w2) = transactions (db w1).
Proof.
  intros Hf Hkey.
  destruct (initDB_served w Hf) as (h & w1 & Hinit & Hf1 & Hi1 & Hc & Hfl & _).
  pose proof (setSetting_served key value _ _ _ Hinit Hf1) as Hset.
  match type of Hset with _ = (Resolved (), ?w2') => set (w2 := w2') in * end.
  assert (Hready : initDB w2 = (Resolved h, w2)).
  { apply initDB_ready; [done|done|]. unfold w2. simpl.
    destruct (decide (key = "migrationV2Done")) as [->|Hne].
    - rewrite setting_value_insert. by destruct Hkey.
    - by rewrite setting_value_insert_ne. }
  exists h, w1, w2. split; [done|]. split; [done|]. split; [|split; [|done]].
  - rewrite (getSetting_served _ _ _ _ Hready) by done.
    unfold w2. simpl. by rewrite setting_value_insert.
  - intros key' Hne. rewrite (getSetting_served _ _ _ _ Hready) by done.
    unfold w2. simpl. by rewrite setting_value_insert_ne.
Qed.

Lemma setSetting_then_getSetting_witness :
  faults (legacy_world []) = [] ∧
  ∃ w2,
    setSetting "monthlyTarget" (JNum 0) (legacy_world []) = (Resolved (), w2) ∧
    getSetting "monthlyTarget" w2 = (Resolved (JNum 0), w2) ∧
    getSetting "currentBudgetId" w2 = (Resolved (JNum 1), w2).
Proof.
  split; [reflexivity|].
  destruct (setSetting_then_getSetting "monthlyTarget" (JNum 0) (legacy_world []) eq_refl)
    as (h & w1 & w2 & Hinit & Hset & Hget & Hother & _).
  { by left. }
  exists w2. split; [exact Hset|]. split; [exact Hget|].
  rewrite Hother by done. do 2 f_equal.
  replace w1 with (initDB (legacy_world [])).2 by (by rewrite Hinit).
  vm_compute. reflexivity.
Defined.

(** ** Transactions, one at a time *)

Lemma updateTransactionNote_served id note w h w1 record :
  initDB w = (Resolved h, w1) → faults w1 = [] →
  recs (transactions (db w1)) !! id = Some record →
  inline_key record = Some id →
  updateTransactionNote id note w =
    (Resolved (),
     log_write (WTxPut id)
       (set_db (set_transactions
          {| recs := <[id := <["note" := note]> record]> (recs (transactions (db w1)));
             keygen := Z.max (keygen (transactions (db w1))) (id + 1) |} (db w1)) w1)).
Proof.
  intros Hinit Hf Hrec Hin. unfold updateTransactionNote.
  rewrite (bind_resolved _ _ _ _ _ Hinit). apply transaction_resolved.
  rewrite (bind_resolved _ _ _ _ _ (request_served w1 Hf)).
  unfold mbind at 1, M_bind at 1, read. rewrite Hrec.
  rewrite (bind_resolved _ _ _ _ _ (request_served w1 Hf)).
  unfold transactions_put, os_put.
  assert (Hin2 : inline_key (<["note" := note]> record) = Some id).
  { unfold inline_key in *. by rewrite lookup_insert_ne. }
  by rewrite Hin2.
Qed.

(** X9. [updateTransactionNote] on a stored transaction replaces its [note]
    and nothing else: amount, category, budget, timestamp and id are as they
    were, and so are the other transactions, the key generator, the budgets
    and the settings. *)
Theorem updateTransactionNote_changes_note_only (id : Z) (note : jsval) (w : World) :
  faults w = [] →
  stores_ok (db w) →
  ∃ h w1,
    initDB w = (Resolved h, w1) ∧
    ∀ record, recs (transactions (db w1)) !! id = Some record →
      ∃ w2,
        updateTransactionNote id note w = (Resolved (), w2) ∧
        recs (transactions (db w2)) !! id = Some (<["note" := note]> record) ∧
        (∀ k, k ≠ id →
           recs (transactions (db w2)) !! k = recs (transactions (db w1)) !! k) ∧
        keygen (transactions (db w2)) = keygen (transactions (db w1)) ∧
        budgets (db w2) = budgets (db w1) ∧
        settings (db w2) = settings (db w1).
Proof.
  intros Hf Hok.
  destruct (initDB_served w Hf) as (h & w1 & Hinit & Hf1 & _).
  pose proof (preserves_ok_initDB _ _ _ Hinit Hok) as [[[_ Hk] Hi] _].
  exists h, w1. split; [done|]. intros record Hrec.
  pose proof (Hk _ _ Hrec) as Hlt. pose proof (Hi _ _ Hrec) as Hin.
  simpl in Hlt, Hin.
  eexists. split; [by eapply updateTransactionNote_served|]. simpl.
  split; [by rewrite lookup_insert_eq|]. split; [|split; [lia|done]].
  intros k Hne. by rewrite lookup_insert_ne.
Qed.

Lemma updateTransactionNote_changes_note_only_witness :
  faults (legacy_world []) = [] ∧ stores_ok (db (legacy_world [])) ∧
  ∃ w2,
    updateTransactionNote 2 (JStr "coffee") (legacy_world []) = (Resolved (), w2) ∧
    recs (transactions (db w2)) !! 2 =
      Some (<["note" := JStr "coffee"]>
              (<["budgetId" := JNum 1]> (legacy_transaction 2 50))).
Proof.
  split; [reflexivity|]. split; [exact legacy_store_ok|].
  destruct (updateTransactionNote_changes_note_only 2 (JStr "coffee") (legacy_world [])
              eq_refl legacy_store_ok) as (h & w1 & Hinit & Hupd).
  destruct (Hupd (<["budgetId" := JNum 1]> (legacy_transaction 2 50)))
    as (w2 & Hu & Hr & _).
  { replace w1 with (initDB (legacy_world [])).2 by (by rewrite Hinit).
    vm_compute. reflexivity. }
  exists w2. split; [exact Hu|exact Hr].
Defined.

(** X10. Ids are not reused: after [addTransaction] and [deleteTransaction]
    of the id it returned, the records are the ones from before the
    addition, and the next [addTransaction] returns the next id, not the
    freed one. *)
Theorem transaction_ids_are_not_reused (input1 input2 : obj) (w : World) :
  faults w = [] →
  stores_ok (db w) →
  ∃ h w1 id1 w2 w3 id2 w4,
    initDB w = (Resolved h, w1) ∧
    addTransaction input1 w = (Resolved id1, w2) ∧
    deleteTransaction id1 w2 = (Resolved (), w3) ∧
    recs (transactions (db w3)) = recs (transactions (db w1)) ∧
    addTransaction input2 w3 = (Resolved id2, w4) ∧
    id2 = id1 + 1 ∧
    recs (transactions (db w4)) !! id1 = None ∧
    is_Some (recs (transactions (db w4)) !! id2).
Proof.
  intros Hf Hok.
  destruct (initDB_served w Hf) as (h & w1 & Hinit & Hf1 & Hi1 & _ & Hfl & _).
  pose proof (preserves_ok_initDB _ _ _ Hinit Hok) as [[[_ Hk] _] _].
  assert (Hfresh : recs (transactions (db w1)) !! keygen (transactions (db w1)) = None).
  { destruct (recs (transactions (db w1)) !! _) as [r|] eqn:Hr; [|done].
    apply Hk in Hr. simpl in Hr. lia. }
  pose (id1 := keygen (transactions (db w1))).
  pose (w2 := log_write (WTxAdd id1)
       (set_db (set_transactions
          {| recs := <[id1 := <["id" := JNum id1]> (transaction_record input1 (clock w1))]>
                       (recs (transactions (db w1)));
             keygen := id1 + 1 |} (db w1)) w1)).
  assert (Hadd1 : addTransaction input1 w = (Resolved id1, w2))
    by (by eapply addTransaction_served).
  assert (Hready2 : initDB w2 = (Resolved h, w2)) by (by apply initDB_ready).
  pose (w3 := log_write (WTxDelete id1)
       (set_db (set_transactions (os_delete id1 (transactions (db w2))) (db w2)) w2)).
  assert (Hdel : deleteTransaction id1 w2 = (Resolved (), w3))
    by (by eapply deleteTransaction_served).
  assert (Hready3 : initDB w3 = (Resolved h, w3)) by (by apply initDB_ready).
  pose proof (addTransaction_served input2 w3 h w3 Hready3 Hf1) as Hadd2.
  simpl in Hadd2.
  match type of Hadd2 with _ = (Resolved ?i, ?w4') => set (w4 := w4') in * end.
  exists h, w1, id1, w2, w3, (id1 + 1), w4.
  split; [done|]. split; [done|]. split; [done|]. split.
  { simpl. by rewrite delete_insert_eq, delete_id. }
  split; [done|]. split; [done|]. simpl. split.
  - rewrite lookup_insert_ne by lia. by rewrite lookup_delete_eq.
  - rewrite lookup_insert_eq. eauto.
Qed.

Lemma transaction_ids_are_not_reused_witness :
  faults (legacy_world []) = [] ∧ stores_ok (db (legacy_world [])) ∧
  ∃ w2 w3 w4,
    addTransaction (transaction_input 1250 "Food" None 1) (legacy_world [])
      = (Resolved 4, w2) ∧
    deleteTransaction 4 w2 = (Resolved (), w3) ∧
    addTransaction (transaction_input 300 "Gas" None 1) w3 = (Resolved 5, w4).
Proof.
  split; [reflexivity|]. split; [exact legacy_store_ok|].
  destruct (transaction_ids_are_not_reused (transaction_input 1250 "Food" None 1)
              (transaction_input 300 "Gas" None 1) (legacy_world []) eq_refl
              legacy_store_ok)
    as (h & w1 & id1 & w2 & w3 & id2 & w4 & _ & Hadd1 & Hdel & _ & Hadd2 & Hid & _).
  assert (Hid1 : id1 = 4).
  { assert (H : (addTransaction (transaction_input 1250 "Food" None 1)
                   (legacy_world [])).1 = Resolved id1) by (by rewrite Hadd1).
    vm_compute in H. congruence. }
  subst id1 id2. exists w2, w3, w4. split; [exact Hadd1|]. split; [exact Hdel|exact Hadd2].
Defined.

(** ** The transactions of a budget *)

Lemma budgetId_index_perm budgetId st :
  budgetId_index budgetId st ≡ₚ
    filter (λ e, get_field e.2 "budgetId" = JNum budgetId) (map_to_list (recs st)).
Proof. apply merge_sort_Permutation. Qed.

Global Instance key_le_total : Total key_le.
Proof. intros a b. unfold key_le. lia. Qed.

Global Instance key_le_trans : Transitive key_le.
Proof. intros a b c. unfold key_le. lia. Qed.

Lemma getAllTransactions_served budgetId w h w1 :
  initDB w = (Resolved h, w1) → faults w1 = [] →
  getAllTransactions budgetId w =
    (Resolved ((budgetId_index budgetId (transactions (db w1))).*2), w1).
Proof.
  intros Hinit Hf. unfold getAllTransactions.
  rewrite (bind_resolved _ _ _ _ _ Hinit). apply transaction_resolved.
  by rewrite (bind_resolved _ _ _ _ _ (request_served w1 Hf)).
Qed.

(** X11. [getAllTransactions(budgetId)] resolves with exactly the stored
    transactions whose [budgetId] is that number, each once, in the order of
    their ids; a transaction without a [budgetId] is in no budget's list. *)
Theorem getAllTransactions_exact (budgetId : Z) (w : World) :
  faults w = [] →
  ∃ h w1 es,
    initDB w = (Resolved h, w1) ∧
    getAllTransactions budgetId w = (Resolved es.*2, w1) ∧
    StronglySorted key_le es ∧
    NoDup es.*1 ∧
    ∀ k record, (k, record) ∈ es ↔
      recs (transactions (db w1)) !! k = Some record ∧
      get_field record "budgetId" = JNum budgetId.
Proof.
  intros Hf.
  destruct (initDB_served w Hf) as (h & w1 & Hinit & Hf1 & _).
  exists h, w1, (budgetId_index budgetId (transactions (db w1))).
  split; [done|]. split; [by apply (getAllTransactions_served _ _ h)|].
  split; [apply StronglySorted_merge_sort; apply _|]. split.
  - rewrite budgetId_index_perm.
    eapply NoDup_fmap_fst; [|apply NoDup_filter, NoDup_map_to_list].
    intros k r1 r2 [_ H1]%list_elem_of_filter [_ H2]%list_elem_of_filter.
    apply elem_of_map_to_list in H1, H2. congruence.
  - intros k record. rewrite budgetId_index_perm, list_elem_of_filter.
    rewrite elem_of_map_to_list. simpl. tauto.
Qed.

Lemma getAllTransactions_exact_witness :
  faults calendar_world = [] ∧
  ∃ w1,
    getAllTransactions 2 calendar_world
      = (Resolved [dated_transaction 4 1707000000000 2], w1) ∧
    (getAllTransactions 3 calendar_world).1 = Resolved [].
Proof.
  split; [reflexivity|].
  destruct (getAllTransactions_exact 2 calendar_world eq_refl)
    as (h & w1 & es & _ & Hget & _).
  exists w1. split; [|vm_compute; reflexivity].
  rewrite Hget. f_equal.
  assert (H : (getAllTransactions 2 calendar_world).1 = Resolved es.*2)
    by (by rewrite Hget).
  assert (H' : (getAllTransactions 2 calendar_world).1
               = Resolved [dated_transaction 4 1707000000000 2])
    by (vm_compute; reflexivity).
  congruence.
Defined.

(** X12. A transaction added for a budget is listed for that budget right
    away: [getAllTransactions] of its budget resolves with the record that
    was stored together with the ones listed before, and the list of every
    other budget is unchanged. *)
Theorem addTransaction_then_getAllTransactions
    (amount : Z) (category : string) (note : option string) (budgetId : Z) (w : World) :
  faults w = [] →
  stores_ok (db w) →
  ∃ h w1 id w2 stored before after,
    initDB w = (Resolved h, w1) ∧
    getAllTransactions budgetId w = (Resolved before, w1) ∧
    addTransaction (transaction_input amount category note budgetId) w
      = (Resolved id, w2) ∧
    recs (transactions (db w2)) !! id = Some stored ∧
    getAllTransactions budgetId w2 = (Resolved after, w2) ∧
    after ≡ₚ stored :: before ∧
    ∀ other, other ≠ budgetId →
      ∃ l1 l2, getAllTransactions other w = (Resolved l1, w1) ∧
               getAllTransactions other w2 = (Resolved l2, w2) ∧ l2 ≡ₚ l1.
Proof.
  intros Hf Hok.
  destruct (initDB_served w Hf) as (h & w1 & Hinit & Hf1 & Hi1 & Hc & Hfl & _).
  pose proof (preserves_ok_initDB _ _ _ Hinit Hok) as [[[_ Hk] _] _].
  pose (id := keygen (transactions (db w1))).
  assert (Hfresh : recs (transactions (db w1)) !! id = None).
  { destruct (recs (transactions (db w1)) !! _) as [r|] eqn:Hr; [|done].
    apply Hk in Hr. simpl in Hr. unfold id in *. lia. }
  pose (stored := <["id" := JNum id]>
     (transaction_record (transaction_input amount category note budgetId) (clock w1))).
  pose (w2 := log_write (WTxAdd id)
       (set_db (set_transactions
          {| recs := <[id := stored]> (recs (transactions (db w1)));
             keygen := id + 1 |} (db w1)) w1)).
  assert (Hadd : addTransaction (transaction_input amount category note budgetId) w
                 = (Resolved id, w2)) by (by eapply addTransaction_served).
  assert (Hready : initDB w2 = (Resolved h, w2)) by (by apply initDB_ready).
  assert (Hb : get_field stored "budgetId" = JNum budgetId).
  { unfold stored. rewrite transaction_record_of_input.
    destruct note; vm_compute; reflexivity. }
  assert (Hlist : ∀ b,
    (budgetId_index b (transactions (db w2))).*2 ≡ₚ
    (if decide (b = budgetId) then [stored] else [])
      ++ (budgetId_index b (transactions (db w1))).*2).
  { intros b. rewrite !budgetId_index_perm. simpl.
    rewrite map_to_list_insert by done. rewrite filter_cons.
    simpl. rewrite Hb.
    destruct (decide (b = budgetId)) as [->|Hne].
    - by rewrite decide_True.
    - rewrite decide_False; [done|]. intros [=]. done. }
  eexists h, w1, id, w2, stored, _, _.
  split; [done|]. split; [by apply (getAllTransactions_served _ _ h)|].
  split; [done|]. split; [simpl; by rewrite lookup_insert_eq|].
  split; [by apply (getAllTransactions_served _ _ h)|]. split.
  - rewrite Hlist. by rewrite decide_True.
  - intros other Hne. eexists _, _.
    split; [by apply (getAllTransactions_served _ _ h)|].
    split; [by apply (getAllTransactions_served _ _ h)|].
    rewrite Hlist. by rewrite decide_False.
Qed.

Lemma addTransaction_then_getAllTransactions_witness :
  faults (legacy_world []) = [] ∧ stores_ok (db (legacy_world [])) ∧
  ∃ w2 after,
    addTransaction (transaction_input 1250 "Food" None 1) (legacy_world [])
      = (Resolved 4, w2) ∧
    getAllTransactions 1 w2 = (Resolved after, w2) ∧
    length after = 4%nat.
Proof.
  split; [reflexivity|]. split; [exact legacy_store_ok|].
  destruct (addTransaction_then_getAllTransactions 1250 "Food" None 1 (legacy_world [])
              eq_refl legacy_store_ok)
    as (h & w1 & id & w2 & stored & before & after & Hinit & Hbefore & Hadd & _ &
        Hafter & Hperm & _).
  assert (Hid : id = 4).
  { assert (H : (addTransaction (transaction_input 1250 "Food" None 1)
                   (legacy_world [])).1 = Resolved id) by (by rewrite Hadd).
    vm_compute in H. congruence. }
  subst id. exists w2, after. split; [exact Hadd|]. split; [exact Hafter|].
  rewrite Hperm. simpl. f_equal.
  assert (H : (getAllTransactions 1 (legacy_world [])).1 = Resolved before)
    by (by rewrite Hbefore).
  apply (f_equal (λ r, match r with Resolved l => length l | _ => 0%nat end)) in H.
  simpl in H. rewrite <- H. vm_compute. reflexivity.
Defined.

(** ** The date bounds of a budget *)

Section BoundsFacts.
Variable ToNumber : jsval → option Z.
Hypothesis ToNumber_number : ∀ n, ToNumber (JNum n) = Some n.

Lemma Math_min_numbers a vs :
  Forall (λ v, ∃ n, v = JNum n) vs →
  ∃ m, foldl (λ acc v, a ← acc; n ← ToNumber v; Some (Z.min a n)) (Some a) vs = Some m ∧
       m ≤ a ∧ (∀ n, JNum n ∈ vs → m ≤ n) ∧ (m = a ∨ JNum m ∈ vs).
Proof.
  intros Hvs. revert a. induction Hvs as [|v vs [n ->] _ IH]; intros a.
  - exists a. split; [done|]. split; [lia|]. split; [|by left].
    intros n Hn. by apply elem_of_nil in Hn.
  - simpl. rewrite ToNumber_number. simpl.
    destruct (IH (Z.min a n)) as (m & -> & Hle & Hall & Hin).
    exists m. split; [done|]. split; [lia|]. split.
    + intros n' [Hn'|Hn']%elem_of_cons; [|by apply Hall].
      inversion Hn'; subst. lia.
    + destruct Hin as [Hm|Hm]; [|right; by right].
      destruct (Z.min_spec a n) as [[_ Hmin]|[_ Hmin]]; rewrite Hmin in Hm.
      * by left.
      * right. subst m. by left.
Qed.

Lemma Math_max_numbers a vs :
  Forall (λ v, ∃ n, v = JNum n) vs →
  ∃ m, foldl (λ acc v, a ← acc; n ← ToNumber v; Some (Z.max a n)) (Some a) vs = Some m ∧
       a ≤ m ∧ (∀ n, JNum n ∈ vs → n ≤ m) ∧ (m = a ∨ JNum m ∈ vs).
Proof.
  intros Hvs. revert a. induction Hvs as [|v vs [n ->] _ IH]; intros a.
  - exists a. split; [done|]. split; [lia|]. split; [|by left].
    intros n Hn. by apply elem_of_nil in Hn.
  - simpl. rewrite ToNumber_number. simpl.
    destruct (IH (Z.max a n)) as (m & -> & Hle & Hall & Hin).
    exists m. split; [done|]. split; [lia|]. split.
    + intros n' [Hn'|Hn']%elem_of_cons; [|by apply Hall].
      inversion Hn'; subst. lia.
    + destruct Hin as [Hm|Hm]; [|right; by right].
      destruct (Z.max_spec a n) as [[_ Hmax]|[_ Hmax]]; rewrite Hmax in Hm.
      * right. subst m. by left.
      * by left.
Qed.

Lemma NaN_absorbs (op : Z → Z → Z) vs :
  foldl (λ acc v, a ← acc; n ← ToNumber v; Some (op a n)) None vs = None.
Proof. by induction vs. Qed.

Lemma NaN_argument (op : Z → Z → Z) acc vs v :
  v ∈ vs → ToNumber v = None →
  foldl (λ acc v, a ← acc; n ← ToNumber v; Some (op a n)) acc vs = None.
Proof.
  intros Hin Hv. revert acc.
  induction Hin as [v vs|v v' vs _ IH]; intros acc; simpl.
  - rewrite Hv. destruct acc; simpl; apply NaN_absorbs.
  - apply IH, Hv.
Qed.

Lemma getDataDateBounds_served budgetId w h w1 :
  faults w = [] → initDB w = (Resolved h, w1) →
  getDataDateBounds ToNumber budgetId w =
    (Resolved
       match (budgetId_index budgetId (transactions (db w1))).*2 with
       | [] => {| min_date := None; max_date := None |}
       | t :: ts =>
           let timestamp := get_field t "timestamp" in
           let timestamps := (λ t : obj, get_field t "timestamp") <$> ts in
           {| min_date := Some (Date_of_number (Math_min ToNumber timestamp timestamps));
              max_date := Some (Date_of_number (Math_max ToNumber timestamp timestamps)) |}
       end, w1).
Proof.
  intros Hf Hinit.
  destruct (initDB_served w Hf) as (h' & w1' & Hinit' & Hf1 & _).
  rewrite Hinit in Hinit'. inversion Hinit'; subst h' w1'.
  pose proof (initDB_again w h w1 Hf Hinit) as Hagain.
  unfold getDataDateBounds. rewrite (bind_resolved _ _ _ _ _ Hinit).
  rewrite (bind_resolved _ _ _ _ _
             (getAllTransactions_served budgetId w1 h w1 Hagain Hf1)).
  by destruct ((budgetId_index budgetId (transactions (db w1))).*2).
Qed.

(** X13. [getDataDateBounds(budgetId)] resolves with [{min: null, max: null}]
    for a budget without transactions.  For a budget whose transactions all
    have a number as timestamp, [min] and [max] are the dates of the least and
    of the greatest timestamp of the budget: both are timestamps of stored
    transactions of the budget and every other one lies between them.  One
    timestamp that does not convert to a number makes both bounds an invalid
    date. *)
Theorem getDataDateBounds_least_and_greatest (budgetId : Z) (w : World) :
  faults w = [] →
  ∃ h w1 l,
    initDB w = (Resolved h, w1) ∧
    getAllTransactions budgetId w = (Resolved l, w1) ∧
    (l = [] →
       getDataDateBounds ToNumber budgetId w
         = (Resolved {| min_date := None; max_date := None |}, w1)) ∧
    (l ≠ [] → Forall has_time l →
       ∃ lo hi,
         getDataDateBounds ToNumber budgetId w
           = (Resolved {| min_date := Some (TimeClip lo);
                          max_date := Some (TimeClip hi) |}, w1) ∧
         (∃ r, r ∈ l ∧ get_field r "timestamp" = JNum lo) ∧
         (∃ r, r ∈ l ∧ get_field r "timestamp" = JNum hi) ∧
         ∀ r t, r ∈ l → get_field r "timestamp" = JNum t → lo ≤ t ≤ hi) ∧
    (∀ r, r ∈ l → ToNumber (get_field r "timestamp") = None →
       getDataDateBounds ToNumber budgetId w
         = (Resolved {| min_date := Some None; max_date := Some None |}, w1)).
Proof.
  intros Hf.
  destruct (initDB_served w Hf) as (h & w1 & Hinit & Hf1 & _).
  exists h, w1, ((budgetId_index budgetId (transactions (db w1))).*2).
  split; [done|]. split; [by apply (getAllTransactions_served _ _ h)|].
  rewrite (getDataDateBounds_served budgetId w h w1 Hf Hinit).
  destruct ((budgetId_index budgetId (transactions (db w1))).*2) as [|t ts].
  { split; [done|]. split; [done|]. intros r Hr. by apply elem_of_nil in Hr. }
  split; [done|]. split.
  - intros _ Hall. apply Forall_cons in Hall as [[t0 Ht0] Hall].
    assert (Hnums : Forall (λ v, ∃ n, v = JNum n)
                      ((λ t : obj, get_field t "timestamp") <$> ts)).
    { apply Forall_fmap. eapply Forall_impl; [exact Hall|]. intros r [n Hn].
      by exists n. }
    destruct (Math_min_numbers t0 _ Hnums) as (lo & Hlo & Hlo0 & Hlos & Hloin).
    destruct (Math_max_numbers t0 _ Hnums) as (hi & Hhi & Hhi0 & His & Hhiin).
    exists lo, hi. cbv zeta. unfold Math_min, Math_max.
    rewrite Ht0, ToNumber_number, Hlo, Hhi. split; [done|].
    assert (Hmem : ∀ m, m = t0 ∨ JNum m ∈ (λ t : obj, get_field t "timestamp") <$> ts →
                        ∃ r, r ∈ t :: ts ∧ get_field r "timestamp" = JNum m).
    { intros m [->|Hm].
      - exists t. split; [by left|done].
      - apply list_elem_of_fmap in Hm as (r & Hr & Hin).
        exists r. split; [by right|done]. }
    split; [by apply Hmem|]. split; [by apply Hmem|].
    intros r n [->|Hr]%elem_of_cons Hn.
    + rewrite Ht0 in Hn. inversion Hn; subst. lia.
    + assert (Hin : JNum n ∈ (λ t : obj, get_field t "timestamp") <$> ts).
      { apply list_elem_of_fmap. exists r. by split. }
      specialize (Hlos n Hin). specialize (His n Hin). lia.
  - intros r Hr Hnan. cbv zeta. unfold Math_min, Math_max.
    apply elem_of_cons in Hr as [->|Hr].
    + rewrite Hnan. by rewrite !NaN_absorbs.
    + assert (Hin : get_field r "timestamp"
                      ∈ (λ t : obj, get_field t "timestamp") <$> ts).
      { apply list_elem_of_fmap. exists r. by split. }
      by rewrite !(NaN_argument _ _ _ _ Hin Hnan).
Qed.

End BoundsFacts.

Lemma getDataDateBounds_least_and_greatest_witness :
  (∀ n, (λ v, match v with JNum n => Some n | _ => None end) (JNum n) = Some n) ∧
  faults calendar_world = [] ∧
  (getDataDateBounds (λ v, match v with JNum n => Some n | _ => None end)
     1 calendar_world).1
    = Resolved {| min_date := Some (Some 915148800000);
                  max_date := Some (Some 1709251200000) |}.
Proof.
  split; [done|]. split; [reflexivity|].
  destruct (getDataDateBounds_least_and_greatest
              (λ v, match v with JNum n => Some n | _ => None end)
              (λ n, eq_refl) 1 calendar_world eq_refl)
    as (h & w1 & l & _ & Hget & _ & Hbounds & _).
  assert (Hl : l = [dated_transaction 1 1706745600000 1;
                    dated_transaction 2 1709251199999 1;
                    dated_transaction 3 1709251200000 1;
                    dated_transaction 5 915148800000 1]).
  { assert (H : (getAllTransactions 1 calendar_world).1 = Resolved l)
      by (by rewrite Hget).
    assert (H' : (getAllTransactions 1 calendar_world).1
                 = Resolved [dated_transaction 1 1706745600000 1;
                             dated_transaction 2 1709251199999 1;
                             dated_transaction 3 1709251200000 1;
                             dated_transaction 5 915148800000 1])
      by (vm_compute; reflexivity).
    congruence. }
  destruct Hbounds as (lo & hi & Hrun & (rlo & Hrlo & Hlo) & (rhi & Hrhi & Hhi) & Hall).
  { by rewrite Hl. }
  { rewrite Hl. repeat constructor; eexists; vm_compute; reflexivity. }
  rewrite Hrun. simpl.
  destruct (Hall (dated_transaction 5 915148800000 1) 915148800000) as [Hlo5 _];
    [rewrite Hl; do 3 right; left|vm_compute; reflexivity|].
  destruct (Hall (dated_transaction 3 1709251200000 1) 1709251200000) as [_ Hhi3];
    [rewrite Hl; do 2 right; left|vm_compute; reflexivity|].
  assert (Hts : ∀ r t, r ∈ l → get_field r "timestamp" = JNum t →
                       915148800000 ≤ t ≤ 1709251200000).
  { intros r t Hr Ht. rewrite Hl in Hr.
    repeat (apply elem_of_cons in Hr as [->|Hr]);
      [vm_compute in Ht; inversion Ht; lia ..|by apply elem_of_nil in Hr]. }
  assert (lo = 915148800000) as -> by (specialize (Hts rlo lo Hrlo Hlo); lia).
  assert (hi = 1709251200000) as -> by (specialize (Hts rhi hi Hrhi Hhi); lia).
  reflexivity.
Defined.

(** ** The order of the timestamp index *)

Global Instance index_le_total : Total index_le.
Proof. intros a b. unfold index_le. cbv zeta. lia. Qed.

Global Instance index_le_trans : Transitive index_le.
Proof. intros a b c. unfold index_le. cbv zeta. lia. Qed.

Lemma StronglySorted_filter {A} (R : relation A) (P : A → Prop)
    `{∀ x, Decision (P x)} (l : list A) :
  StronglySorted R l → StronglySorted R (filter P l).
Proof.
  induction 1 as [|x l Hl IH Hx]; [constructor|].
  rewrite filter_cons. case_decide; [|done]. constructor; [done|].
  apply Forall_forall. intros y [_ Hy]%list_elem_of_filter.
  rewrite Forall_forall in Hx. by apply Hx.
Qed.

Lemma index_le_timestamp_le a b : index_le a b → timestamp_le a.2 b.2.
Proof.
  unfold index_le, timestamp_le, timestamp_of, timestamp_key. cbv zeta.
  destruct (get_field a.2 "timestamp"), (get_field b.2 "timestamp"); simpl; lia.
Qed.

(** What a cursor loop hands over is ordered by timestamp. *)
Lemma matching_sorted lo hi budgetId st :
  StronglySorted timestamp_le
    (filter (budget_matches budgetId) (timestamp_cursor lo hi st)).*2.
Proof.
  eapply StronglySorted_fmap; [apply index_le_timestamp_le|].
  apply StronglySorted_filter, StronglySorted_merge_sort; apply _.
Qed.

Lemma elem_of_matching lo hi budgetId st record :
  record ∈ (filter (budget_matches budgetId) (timestamp_cursor lo hi st)).*2 ↔
  ∃ k t, recs st !! k = Some record ∧
         get_field record "timestamp" = JNum t ∧ lo ≤ t ≤ hi ∧
         strict_eq (get_field record "budgetId") budgetId = true.
Proof.
  rewrite list_elem_of_fmap. split.
  - intros ([k r] & -> & Hin).
    apply list_elem_of_filter in Hin as [Hb Hin].
    apply elem_of_timestamp_cursor in Hin as [Hr Hk].
    unfold in_range, timestamp_key in Hr. simpl in Hr.
    destruct (get_field r "timestamp") as [| | |t| |] eqn:Ht; try done.
    exists k, t. simpl. split; [done|]. split; [done|]. split; [lia|exact Hb].
  - intros (k & t & Hk & Ht & Hr & Hb). exists (k, record). split; [done|].
    apply list_elem_of_filter. split; [done|].
    apply elem_of_timestamp_cursor. split; [|done].
    unfold in_range, timestamp_key. simpl. by rewrite Ht.
Qed.

(** X14. For bounds in order, [getTransactionsByDateRange] resolves with
    exactly the transactions of the budget whose timestamp is a number
    between the bounds, both included, each stored record once, in
    ascending order of timestamp; it changes nothing. *)
Theorem getTransactionsByDateRange_exact_and_ordered
    (startDate endDate : Z) (budgetId : jsval) (w : World) :
  faults w = [] →
  startDate ≤ endDate →
  ∃ h w1 l,
    initDB w = (Resolved h, w1) ∧
    getTransactionsByDateRange (Some startDate) (Some endDate) budgetId w
      = (Resolved l, w1) ∧
    StronglySorted timestamp_le l ∧
    Forall has_time l ∧
    l ≡ₚ (filter (within startDate endDate budgetId)
            (map_to_list (recs (transactions (db w1))))).*2 ∧
    ∀ record, record ∈ l ↔
      ∃ k t, recs (transactions (db w1)) !! k = Some record ∧
             get_field record "timestamp" = JNum t ∧ startDate ≤ t ≤ endDate ∧
             strict_eq (get_field record "budgetId") budgetId = true.
Proof.
  intros Hf Hle.
  destruct (initDB_served w Hf) as (h & w1 & Hinit & Hf1 & _).
  exists h, w1. eexists. split; [done|].
  split; [by apply (getTransactionsByDateRange_served _ _ _ _ h)|].
  split; [apply matching_sorted|]. split.
  - apply Forall_forall. intros r (k & t & _ & Ht & _)%elem_of_matching.
    by exists t.
  - split; [by rewrite matching_in_cursor|]. intros record. apply elem_of_matching.
Qed.

Lemma getTransactionsByDateRange_exact_and_ordered_witness :
  faults calendar_world = [] ∧ 915148800000 ≤ 1709251199999 ∧
  ∃ l w1,
    getTransactionsByDateRange (Some 915148800000) (Some 1709251199999) (JNum 1)
      calendar_world = (Resolved l, w1) ∧
    StronglySorted timestamp_le l ∧
    l = [dated_transaction 5 915148800000 1;
         dated_transaction 1 1706745600000 1;
         dated_transaction 2 1709251199999 1].
Proof.
  split; [reflexivity|]. split; [lia|].
  destruct (getTransactionsByDateRange_exact_and_ordered
              915148800000 1709251199999 (JNum 1) calendar_world eq_refl)
    as (h & w1 & l & _ & Hget & Hsorted & _); [lia|].
  exists l, w1. split; [exact Hget|]. split; [exact Hsorted|].
  assert (H : (getTransactionsByDateRange (Some 915148800000) (Some 1709251199999)
                 (JNum 1) calendar_world).1 = Resolved l) by (by rewrite Hget).
  assert (H' : (getTransactionsByDateRange (Some 915148800000) (Some 1709251199999)
                  (JNum 1) calendar_world).1
               = Resolved [dated_transaction 5 915148800000 1;
                           dated_transaction 1 1706745600000 1;
                           dated_transaction 2 1709251199999 1])
    by (vm_compute; reflexivity).
  congruence.
Defined.

(** X15. Whenever the two bounds [getTransactionsByMonth] builds,
    [new Date(year, month, 1)] and
    [new Date(year, month + 1, 0, 23, 59, 59, 999)], are valid dates and the
    first is not after the second, the transactions it resolves with come in
    ascending order of timestamp, the order of the index its cursor walks. *)
Theorem getTransactionsByMonth_ordered
    (UTC : Z → Z) (year month : Z) (budgetId : jsval) (w : World) (lo hi : Z) :
  faults w = [] →
  new_Date UTC year month 1 0 0 0 0 = Some lo →
  new_Date UTC year (month + 1) 0 23 59 59 999 = Some hi →
  lo ≤ hi →
  ∃ h w1 l,
    initDB w = (Resolved h, w1) ∧
    getTransactionsByMonth UTC year month budgetId w = (Resolved l, w1) ∧
    StronglySorted timestamp_le l ∧
    Forall has_time l.
Proof.
  intros Hf Hlo Hhi Hle.
  destruct (initDB_served w Hf) as (h & w1 & Hinit & Hf1 & _).
  exists h, w1. eexists. split; [done|]. split.
  - by apply (getTransactionsByMonth_served UTC year month budgetId w h w1 lo hi).
  - split; [apply matching_sorted|].
    apply Forall_forall. intros r (k & t & _ & Ht & _)%elem_of_matching.
    by exists t.
Qed.

Lemma getTransactionsByMonth_ordered_witness :
  let UTC := λ t : Z, t in
  faults calendar_world = [] ∧
  new_Date UTC 2024 1 1 0 0 0 0 = Some 1706745600000 ∧
  new_Date UTC 2024 2 0 23 59 59 999 = Some 1709251199999 ∧
  ∃ l, (getTransactionsByMonth UTC 2024 1 (JNum 1) calendar_world).1 = Resolved l ∧
       StronglySorted timestamp_le l.
Proof.
  intros UTC.
  assert (Hlo : new_Date UTC 2024 1 1 0 0 0 0 = Some 1706745600000)
    by (vm_compute; reflexivity).
  assert (Hhi : new_Date UTC 2024 (1 + 1) 0 23 59 59 999 = Some 1709251199999)
    by (vm_compute; reflexivity).
  split; [reflexivity|]. split; [exact Hlo|]. split; [exact Hhi|].
  destruct (getTransactionsByMonth_ordered UTC 2024 1 (JNum 1) calendar_world
              1706745600000 1709251199999 eq_refl Hlo Hhi)
    as (h & w1 & l & _ & Hget & Hsorted & _); [lia|].
  exists l. split; [by rewrite Hget|exact Hsorted].
Defined.

(** ** Bounds that are no key range *)

Lemma IDBKeyRange_bound_throws lower upper w :
  match lower, upper with Some lo, Some hi => hi < lo | _, _ => True end →
  IDBKeyRange_bound lower upper w = (Rejected DataError, w).
Proof.
  intros H. unfold IDBKeyRange_bound.
  destruct lower as [lo|], upper as [hi|]; try done. by rewrite decide_True.
Qed.

(** X16. When a bound is an invalid date or the start is later than the
    end, [getTransactionsByDateRange] and [deleteTransactionsByDateRange]
    never resolve: both reject, leave the stores as [initDB] left them and
    issue no request of their own, so nothing is deleted.  Once [initDB]
    has resolved the error is the [DataError] of [IDBKeyRange.bound]. *)
Theorem range_operations_reject_bounds_out_of_order
    (startDate endDate : option Z) (budgetId : jsval) (w : World) :
  match startDate, endDate with Some lo, Some hi => hi < lo | _, _ => True end →
  ∃ e,
    getTransactionsByDateRange startDate endDate budgetId w
      = (Rejected e, (initDB w).2) ∧
    deleteTransactionsByDateRange startDate endDate budgetId w
      = (Rejected e, (initDB w).2) ∧
    ∀ h, (initDB w).1 = Resolved h → e = DataError.
Proof.
  intros Hbad. unfold getTransactionsByDateRange, deleteTransactionsByDateRange.
  destruct (initDB w) as [[h|e] w1] eqn:Hinit.
  - exists DataError. simpl.
    rewrite !(bind_resolved _ _ _ _ _ Hinit). unfold transaction.
    rewrite !(bind_rejected _ _ _ _ _ (IDBKeyRange_bound_throws _ _ w1 Hbad)).
    by rewrite set_db_same.
  - exists e. simpl. rewrite !(bind_rejected _ _ _ _ _ Hinit).
    split; [done|]. split; [done|]. intros h [=].
Qed.

Lemma range_operations_reject_bounds_out_of_order_witness :
  100 < 200 ∧
  ∃ w1,
    deleteTransactionsByDateRange (Some 200) (Some 100) (JNum 1) calendar_world
      = (Rejected DataError, w1) ∧
    (getTransactionsByDateRange (Some 200) None (JNum 1) settled_world).1
      = Rejected DataError ∧
    transactions (db w1) = transactions (db calendar_world).
Proof.
  split; [lia|].
  destruct (range_operations_reject_bounds_out_of_order
              (Some 200) (Some 100) (JNum 1) calendar_world) as (e & _ & Hdel & He);
    [simpl; lia|].
  destruct (range_operations_reject_bounds_out_of_order
              (Some 200) None (JNum 1) settled_world) as (e' & Hget & _ & He');
    [exact I|].
  exists (initDB calendar_world).2.
  rewrite (He 0) in Hdel by (vm_compute; reflexivity).
  rewrite (He' 0) in Hget by (vm_compute; reflexivity).
  split; [exact Hdel|]. split; [by rewrite Hget|vm_compute; reflexivity].
Defined.

(** ** What a range deletion removes *)

(** X17. For bounds in order, [deleteTransactionsByDateRange] removes the
    transactions of the budget whose timestamp lies between the bounds and
    nothing else: a transaction is stored afterwards exactly when it was
    stored before and is of another budget or outside the bounds.  Budgets,
    settings, the key generator, the connection and the clock are
    untouched. *)
Theorem deleteTransactionsByDateRange_removes_exactly
    (startDate endDate : Z) (budgetId : jsval) (w : World) :
  faults w = [] →
  startDate ≤ endDate →
  ∃ h w1 count w2,
    initDB w = (Resolved h, w1) ∧
    deleteTransactionsByDateRange (Some startDate) (Some endDate) budgetId w
      = (Resolved count, w2) ∧
    (∀ k record,
       recs (transactions (db w2)) !! k = Some record ↔
       recs (transactions (db w1)) !! k = Some record ∧
       ¬ within startDate endDate budgetId (k, record)) ∧
    keygen (transactions (db w2)) = keygen (transactions (db w1)) ∧
    budgets (db w2) = budgets (db w1) ∧
    settings (db w2) = settings (db w1) ∧
    dbInstance w2 = dbInstance w1 ∧ clock w2 = clock w1.
Proof.
  intros Hf Hle.
  destruct (initDB_served w Hf) as (h & w1 & Hinit & Hf1 & _).
  pose proof (deleteTransactionsByDateRange_served _ _ budgetId _ _ _ Hinit Hf1 Hle)
    as Hdel. simpl in Hdel.
  match type of Hdel with _ = (Resolved ?c, ?w2') => exists h, w1, c, w2' end.
  split; [done|]. split; [done|]. split; [|by destruct (db w1)].
  intros k record. simpl. rewrite delete_fold_lookup.
  assert (Hhit : k ∈ (filter (budget_matches budgetId)
                        (timestamp_cursor startDate endDate (transactions (db w1)))).*1
                 ↔ ∃ r, recs (transactions (db w1)) !! k = Some r ∧
                        within startDate endDate budgetId (k, r)).
  { rewrite list_elem_of_fmap. split.
    - intros ([k' r] & -> & [Hb [Hr Hk]%elem_of_timestamp_cursor]%list_elem_of_filter).
      exists r. by repeat split.
    - intros (r & Hk & Hb & Hr). exists (k, r). split; [done|].
      apply list_elem_of_filter. split; [done|].
      by apply elem_of_timestamp_cursor. }
  case_decide as Hin.
  - apply Hhit in Hin as (r & Hk & Hw). split; [done|].
    intros [Hk' Hn]. rewrite Hk in Hk'. inversion Hk'; subst. by destruct Hn.
  - split.
    + intros Hk. split; [done|]. intros Hw. apply Hin, Hhit. by exists record.
    + by intros [Hk _].
Qed.

Lemma deleteTransactionsByDateRange_removes_exactly_witness :
  faults calendar_world = [] ∧ 1706745600000 ≤ 1709251199999 ∧
  ∃ w2,
    deleteTransactionsByDateRange (Some 1706745600000) (Some 1709251199999) (JNum 1)
      calendar_world = (Resolved 2, w2) ∧
    dom (recs (transactions (db w2))) = {[ 3; 4; 5 ]}.
Proof.
  split; [reflexivity|]. split; [lia|].
  destruct (deleteTransactionsByDateRange_removes_exactly
              1706745600000 1709251199999 (JNum 1) calendar_world eq_refl)
    as (h & w1 & count & w2 & _ & Hdel & _); [lia|].
  assert (H : deleteTransactionsByDateRange (Some 1706745600000) (Some 1709251199999)
                (JNum 1) calendar_world
              = (Resolved 2,
                 (deleteTransactionsByDateRange (Some 1706745600000)
                    (Some 1709251199999) (JNum 1) calendar_world).2)).
  { rewrite Hdel at 1. rewrite Hdel. simpl. do 2 f_equal.
    assert (Hc : (deleteTransactionsByDateRange (Some 1706745600000)
                    (Some 1709251199999) (JNum 1) calendar_world).1 = Resolved 2)
      by (vm_compute; reflexivity).
    rewrite Hdel in Hc. by inversion Hc. }
  eexists. split; [exact H|]. vm_compute. reflexivity.
Defined.

(** ** The note sanitizer *)

Lemma trimStart_suffix s : trimStart s `suffix_of` s.
Proof.
  induction s as [|c s IH]; simpl; [done|].
  destruct (is_white_space c); [by apply suffix_cons_r|done].
Qed.

Lemma trimEnd_prefix s : trimEnd s `prefix_of` s.
Proof.
  unfold trimEnd. apply prefix_suffix_reverse. rewrite reverse_involutive.
  apply trimStart_suffix.
Qed.

Lemma trim_sublist s : trim s `sublist_of` s.
Proof.
  unfold trim. destruct (trimEnd_prefix (trimStart s)) as [k1 H1].
  destruct (trimStart_suffix s) as [k2 H2].
  rewrite H2 at 2. apply sublist_inserts_l. rewrite H1 at 2.
  by apply sublist_inserts_r.
Qed.

Lemma trimStart_head s c :
  head s = Some c → is_white_space c = false → trimStart s = s.
Proof. destruct s as [|c' s]; [done|]. simpl. intros [= ->] Hc. by rewrite Hc. Qed.

Lemma trimEnd_last s c :
  last s = Some c → is_white_space c = false → trimEnd s = s.
Proof.
  intros Hl Hc. unfold trimEnd.
  rewrite (trimStart_head (reverse s) c); [apply reverse_involutive| |done].
  by rewrite head_reverse.
Qed.

Lemma filter_all {A} (P : A → Prop) `{∀ x, Decision (P x)} (l : list A) :
  Forall P l → filter P l = l.
Proof.
  induction 1 as [|x l Hx _ IH]; [done|].
  by rewrite filter_cons, decide_True, IH.
Qed.

(** X18. What [sanitizeText] returns has at most 200 code units, holds
    neither [<] nor [>], and is made of code units of the text in their
    order: the sanitizer only ever removes. *)
Theorem sanitizeText_bounded_clean_and_only_removes (text : list N) :
  (length (sanitizeText text) ≤ 200)%nat ∧
  Forall not_angle (sanitizeText text) ∧
  sanitizeText text `sublist_of` text.
Proof.
  unfold sanitizeText. destruct text as [|c text].
  { split; [simpl; lia|]. split; [constructor|done]. }
  split; [rewrite length_take; lia|]. split.
  - apply Forall_take, Forall_forall. by intros x [Hx _]%list_elem_of_filter.
  - etrans; [apply sublist_take|]. etrans; [apply sublist_filter|].
    apply trim_sublist.
Qed.

(** X19. A text of at most 200 code units without [<] and [>] that neither
    starts nor ends with white space is returned as it is. *)
Theorem sanitizeText_keeps_a_clean_text (text : list N) (first last_unit : N) :
  (length text ≤ 200)%nat →
  Forall not_angle text →
  head text = Some first → is_white_space first = false →
  last text = Some last_unit → is_white_space last_unit = false →
  sanitizeText text = text.
Proof.
  intros Hlen Hclean Hhead Hfirst Hlast Hlast_unit. unfold sanitizeText.
  destruct text as [|c text]; [done|]. unfold trim.
  rewrite (trimStart_head _ _ Hhead Hfirst), (trimEnd_last _ _ Hlast Hlast_unit).
  rewrite filter_all by done. by apply take_ge.
Qed.

Lemma sanitizeText_keeps_a_clean_text_witness :
  sanitizeText [70; 111; 111; 100; 32; 38; 32; 99; 111]%N
    = [70; 111; 111; 100; 32; 38; 32; 99; 111]%N.
Proof.
  apply (sanitizeText_keeps_a_clean_text _ 70%N 111%N).
  - simpl. lia.
  - repeat constructor; vm_compute; discriminate.
  - reflexivity.
  - reflexivity.
  - reflexivity.
  - reflexivity.
Defined.

(** ** Calls of [initDB], in any interleaving *)

Module InitRaceCounts.
Import InitRace.

Lemma find_pending_shrinks r p c :
  find_pending r p = Some c → (length (drop_pending r p) < length p)%nat.
Proof.
  unfold find_pending, drop_pending. intros Hfind.
  destruct (list_find (λ x : nat * nat, x.1 = r) p) as [[i x]|] eqn:Hl; [|done].
  apply list_find_Some in Hl as (Hi & Hx & _).
  apply (length_filter_lt _ _ x); [by eapply list_elem_of_lookup_2|].
  intros Hne. by apply Hne.
Qed.

Lemma counts_step s e :
  (connections s + length (pending s) ≤ requests s ≤ calls s)%nat →
  (connections (step s e) + length (pending (step s e))
     ≤ requests (step s e) ≤ calls (step s e))%nat.
Proof.
  intros H. destruct e as [|r|r]; simpl.
  - destruct (dbInstance s); simpl; rewrite ?length_app; simpl; lia.
  - destruct (find_pending r (pending s)) as [c|] eqn:Hfind; [|done]. simpl.
    apply find_pending_shrinks in Hfind. lia.
  - destruct (find_pending r (pending s)) as [c|] eqn:Hfind; [|done]. simpl.
    apply find_pending_shrinks in Hfind. lia.
Qed.

(** X20. However calls of [initDB] and the events of their open requests
    interleave, each call opens at most one request and each request gives
    at most one connection: there are never more connections than requests,
    nor more requests than calls. *)
Theorem initDB_opens_at_most_one_request_per_call (tr : list Event) :
  (connections (run init tr) ≤ requests (run init tr) ≤ calls (run init tr))%nat.
Proof.
  assert (H : ∀ s,
    (connections s + length (pending s) ≤ requests s ≤ calls s)%nat →
    (connections (run s tr) + length (pending (run s tr))
       ≤ requests (run s tr) ≤ calls (run s tr))%nat).
  { induction tr as [|e tr IH]; intros s Hs; [done|].
    simpl. apply IH. by apply counts_step. }
  specialize (H init). simpl in H. lia.
Qed.




End InitRaceCounts.

(** ** Queries write nothing *)

Lemma same_but_faults_refl w : same_but_faults w w.
Proof. by repeat split. Qed.

Lemma same_but_faults_trans w1 w2 w3 :
  same_but_faults w1 w2 → same_but_faults w2 w3 → same_but_faults w1 w3.
Proof.
  intros (? & ? & ? & ? & ?) (? & ? & ? & ? & ?). repeat split; congruence.
Qed.

Lemma read_only_request : read_only request.
Proof. intros w r w' H. by apply request_inv in H. Qed.

Lemma read_only_ret {A} (a : A) : read_only (mret a).
Proof. intros w r w' H. inversion H; subst. apply same_but_faults_refl. Qed.

Lemma read_only_reject {A} e : read_only (reject (A:=A) e).
Proof. intros w r w' H. inversion H; subst. apply same_but_faults_refl. Qed.

Lemma read_only_read {A} (f : Database → A) : read_only (read f).
Proof. intros w r w' H. inversion H; subst. apply same_but_faults_refl. Qed.

Lemma read_only_bind {A B} (m : M A) (f : A → M B) :
  read_only m → (∀ a, read_only (f a)) → read_only (m ≫= f).
Proof.
  intros Hm Hf w r w' H.
  apply bind_inv in H as [(e & H & ->)|(a & w1 & H & H1)].
  - by apply Hm in H.
  - eapply same_but_faults_trans; [by eapply Hm|by eapply Hf].
Qed.

Lemma read_only_transaction {A} (body : M A) :
  read_only body → read_only (transaction body).
Proof.
  intros Hb w r w' H.
  apply transaction_inv in H as [(a & -> & H)|(e & w1 & -> & H & ->)].
  - by apply Hb in H.
  - apply Hb in H as (? & ? & ? & ? & ?). by repeat split.
Qed.

Lemma read_only_IDBKeyRange_bound lower upper :
  read_only (IDBKeyRange_bound lower upper).
Proof.
  unfold IDBKeyRange_bound. destruct lower, upper; try apply read_only_reject.
  case_decide; [apply read_only_reject|apply read_only_ret].
Qed.

Lemma read_only_collect_cursor budgetId es : ∀ results,
  read_only (collect_cursor budgetId es results).
Proof.
  induction es as [|[k value] es IH]; intros results; simpl.
  - apply read_only_bind; [apply read_only_request|intros; apply read_only_ret].
  - apply read_only_bind; [apply read_only_request|intros; apply IH].
Qed.

Create HintDb queries.
#[local] Hint Resolve read_only_request read_only_ret read_only_reject read_only_read
  read_only_bind read_only_transaction read_only_IDBKeyRange_bound
  read_only_collect_cursor : queries.

Lemma initDB_resolved_ready w h w' :
  initDB w = (Resolved h, w') →
  dbInstance w' = Some h ∧ truthy (setting_value (db w') "migrationV2Done") = true.
Proof.
  intros H.
  apply initDB_inv in H as [(h0 & rm & Hi & Hrun & Hr)|[(_ & ? & _)|
    (w1 & rm & Hi & Hsame & Hrun & Hr)]]; [|done|].
  - destruct rm as [[]|e]; [|done]. inversion Hr; subst.
    pose proof (keeps_connection_runMigrationIfNeeded _ _ _ Hrun) as (Hi' & Ho & _).
    apply runMigrationIfNeeded_outcome in Hrun as (l & _ & Hfl & _).
    by rewrite Hi', Hi.
  - destruct rm as [[]|e]; [|done]. inversion Hr; subst.
    pose proof (keeps_connection_runMigrationIfNeeded _ _ _ Hrun) as (Hi' & Ho & _).
    apply runMigrationIfNeeded_outcome in Hrun as (l & _ & Hfl & _).
    destruct Hsame as (_ & _ & Ho1 & _). simpl in *. by rewrite Hi', Ho1.
Qed.

(** A second [initDB], whatever fails in it, changes nothing. *)
Lemma initDB_ready_read_only w h r w' :
  dbInstance w = Some h →
  truthy (setting_value (db w) "migrationV2Done") = true →
  initDB w = (r, w') → same_but_faults w w'.
Proof.
  intros Hi Hfl H. unfold initDB in H.
  unfold mbind at 1, M_bind at 1 in H. rewrite Hi in H.
  apply bind_inv in H as [(e & H & ->)|([] & w1 & H & H1)].
  - unfold runMigrationIfNeeded in H.
    apply bind_inv in H as [(e' & H & _)|(v & w1 & H & H1)].
    + by apply getSettingInternal_inv in H as [? _].
    + apply getSettingInternal_inv in H as [Hs Hv].
      rewrite (Hv v eq_refl), Hfl in H1. inversion H1.
  - inversion H1; subst. unfold runMigrationIfNeeded in H.
    apply bind_inv in H as [(e' & H & ?)|(v & w1 & H & H1')]; [done|].
    apply getSettingInternal_inv in H as [Hs Hv].
    rewrite (Hv v eq_refl), Hfl in H1'. by inversion H1'; subst.
Qed.

Lemma reads_after_initDB_intro {A} (body : M A) :
  read_only body → reads_after_initDB (initDB ;; body).
Proof.
  intros Hb w r w' H.
  apply bind_inv in H as [(e & H & ->)|(a & w1 & H & H1)].
  - exists (Rejected e), w'. split; [done|apply same_but_faults_refl].
  - exists (Resolved a), w1. split; [done|by eapply Hb].
Qed.

Lemma getAllTransactions_after_initDB budgetId w h w1 r w' :
  initDB w = (Resolved h, w1) →
  getAllTransactions budgetId w1 = (r, w') → same_but_faults w1 w'.
Proof.
  intros Hinit H. apply initDB_resolved_ready in Hinit as [Hi Hfl].
  unfold getAllTransactions in H.
  apply bind_inv in H as [(e & H & ->)|(a & w2 & H & H1)].
  - by eapply initDB_ready_read_only.
  - eapply same_but_faults_trans; [by eapply initDB_ready_read_only|].
    revert H1. apply read_only_transaction. auto with queries.
Qed.

(** X22. The queries write nothing.  Whatever fails, after [getBudget],
    [getAllBudgets], [getAllTransactions], [getSetting],
    [getTransactionsByMonth], [getTransactionsByDateRange] and
    [getDataDateBounds] the stores, the connection, the clock and the log of
    writes are what the [initDB] at their start left. *)
Theorem queries_write_nothing :
  (∀ id, reads_after_initDB (getBudget id)) ∧
  reads_after_initDB getAllBudgets ∧
  (∀ budgetId, reads_after_initDB (getAllTransactions budgetId)) ∧
  (∀ key, reads_after_initDB (getSetting key)) ∧
  (∀ UTC year month budgetId,
     reads_after_initDB (getTransactionsByMonth UTC year month budgetId)) ∧
  (∀ startDate endDate budgetId,
     reads_after_initDB (getTransactionsByDateRange startDate endDate budgetId)) ∧
  (∀ ToNumber budgetId, reads_after_initDB (getDataDateBounds ToNumber budgetId)).
Proof.
  split; [intros; apply reads_after_initDB_intro; auto with queries|].
  split; [apply reads_after_initDB_intro; unfold getAllBudgetsInternal;
          auto with queries|].
  split; [intros; apply reads_after_initDB_intro; auto with queries|].
  split; [intros; apply reads_after_initDB_intro; unfold getSettingInternal;
          auto with queries|].
  split.
  { intros. apply reads_after_initDB_intro, read_only_transaction. cbv zeta.
    apply read_only_bind; [apply read_only_IDBKeyRange_bound|]. intros range.
    apply read_only_bind; [apply read_only_read|]. intros es.
    apply read_only_collect_cursor. }
  split.
  { intros. apply reads_after_initDB_intro, read_only_transaction.
    apply read_only_bind; [apply read_only_IDBKeyRange_bound|]. intros range.
    apply read_only_bind; [apply read_only_read|]. intros es.
    apply read_only_collect_cursor. }
  intros ToNumber budgetId w r w' H. unfold getDataDateBounds in H.
  apply bind_inv in H as [(e & H & ->)|(h & w1 & Hinit & H)].
  { exists (Rejected e), w'. split; [done|apply same_but_faults_refl]. }
  exists (Resolved h), w1. split; [done|].
  apply bind_inv in H as [(e & H & ->)|(l & w2 & H & H1)].
  { by eapply getAllTransactions_after_initDB. }
  eapply same_but_faults_trans; [by eapply getAllTransactions_after_initDB|].
  destruct l; inversion H1; subst; apply same_but_faults_refl.
Qed.

(** ** The order of the budget list *)

(** A list ordered by key with distinct keys is determined by its
    elements. *)
Lemma sorted_by_key_unique (l1 : list (Z * obj)) : ∀ l2,
  StronglySorted key_le l1 → StronglySorted key_le l2 →
  NoDup l1.*1 → l1 ≡ₚ l2 → l1 = l2.
Proof.
  induction l1 as [|x l1 IH]; intros l2 Hs1 Hs2 Hnd Hperm.
  { by apply Permutation_nil_l in Hperm. }
  destruct l2 as [|y l2]; [by apply Permutation_nil_r in Hperm|].
  apply StronglySorted_inv in Hs1 as [Hs1 Hx].
  apply StronglySorted_inv in Hs2 as [Hs2 Hy].
  rewrite Forall_forall in Hx, Hy.
  assert (Hxy : x = y).
  { assert (Hyin : y ∈ x :: l1) by (rewrite Hperm; left).
    assert (Hxin : x ∈ y :: l2) by (rewrite <- Hperm; left).
    apply elem_of_cons in Hyin as [?|Hyin]; [done|].
    apply elem_of_cons in Hxin as [?|Hxin]; [done|].
    specialize (Hx _ Hyin). specialize (Hy _ Hxin). unfold key_le in Hx, Hy.
    assert (Hk : x.1 = y.1) by lia.
    rewrite fmap_cons in Hnd. apply NoDup_cons in Hnd as [Hnin _].
    destruct Hnin. rewrite Hk. apply list_elem_of_fmap. by exists y. }
  subst y. f_equal. apply IH; [done..| |].
  - rewrite fmap_cons in Hnd. by apply NoDup_cons in Hnd as [_ ?].
  - by apply Permutation_cons_inv in Hperm.
Qed.

Lemma entries_by_key_sorted st : StronglySorted key_le (entries_by_key st).
Proof. apply StronglySorted_merge_sort; apply _. Qed.

Lemma entries_by_key_NoDup st : NoDup (entries_by_key st).*1.
Proof. rewrite entries_by_key_perm. apply NoDup_fst_map_to_list. Qed.

(** A record added under a key above all others comes last. *)
Lemma entries_by_key_insert_last (st : ObjectStore) k record next :
  map_Forall (λ k' _, k' < k) (recs st) →
  entries_by_key {| recs := <[k := record]> (recs st); keygen := next |}
  = entries_by_key st ++ [(k, record)].
Proof.
  intros Hk.
  assert (Hfresh : recs st !! k = None).
  { destruct (recs st !! k) as [r|] eqn:Hr; [|done]. apply Hk in Hr. lia. }
  apply sorted_by_key_unique.
  - apply entries_by_key_sorted.
  - apply StronglySorted_app_2; [|apply entries_by_key_sorted|repeat constructor].
    intros [k1 r1] [k2 r2] Hin [= -> ->]%list_elem_of_singleton.
    rewrite entries_by_key_perm in Hin. apply elem_of_map_to_list in Hin.
    apply Hk in Hin. unfold key_le. simpl. lia.
  - apply entries_by_key_NoDup.
  - rewrite !entries_by_key_perm. simpl.
    rewrite map_to_list_insert by done. by rewrite Permutation_cons_append.
Qed.

(** X23. Budgets are listed in the order they were created: after
    [createBudget], [getAllBudgets] resolves with the budgets it listed
    before followed by the new one, which is the record [getBudget] finds
    under the new id. *)
Theorem createBudget_then_getAllBudgets (name target : jsval) (w : World) :
  faults w = [] →
  stores_ok (db w) →
  ∃ h w1 id w2 before stored,
    initDB w = (Resolved h, w1) ∧
    getAllBudgets w = (Resolved before, w1) ∧
    createBudget name target w = (Resolved id, w2) ∧
    getBudget id w2 = (Resolved (Some stored), w2) ∧
    getAllBudgets w2 = (Resolved (before ++ [stored]), w2).
Proof.
  intros Hf Hok.
  destruct (initDB_served w Hf) as (h & w1 & Hinit & Hf1 & Hi1 & Hc & Hfl & _).
  pose proof (preserves_ok_initDB _ _ _ Hinit Hok) as [_ [[_ Hk] _]].
  pose proof (createBudget_served name target _ _ _ Hinit Hf1) as Hcreate.
  simpl in Hcreate.
  match type of Hcreate with _ = (Resolved ?i, ?w2') =>
    exists h, w1, i, w2'; set (w2 := w2') in * end.
  assert (Hready : initDB w2 = (Resolved h, w2)) by (by apply initDB_ready).
  eexists _, _. split; [done|].
  split; [by apply (getAllBudgets_served _ h)|]. split; [done|]. split.
  - rewrite (getBudget_served _ w2 h w2 Hready Hf1). simpl.
    by rewrite lookup_insert_eq.
  - rewrite (getAllBudgets_served w2 h w2 Hready Hf1). simpl.
    rewrite entries_by_key_insert_last by done. by rewrite fmap_app.
Qed.

Lemma createBudget_then_getAllBudgets_witness :
  faults (legacy_world []) = [] ∧ stores_ok (db (legacy_world [])) ∧
  ∃ w2 l,
    createBudget (JStr "Holiday") JUndefined (legacy_world []) = (Resolved 2, w2) ∧
    getAllBudgets w2 = (Resolved l, w2) ∧
    length l = 2%nat.
Proof.
  split; [reflexivity|]. split; [exact legacy_store_ok|].
  destruct (createBudget_then_getAllBudgets (JStr "Holiday") JUndefined (legacy_world [])
              eq_refl legacy_store_ok)
    as (h & w1 & id & w2 & before & stored & _ & Hbefore & Hcreate & _ & Hafter).
  assert (Hid : id = 2).
  { assert (H : (createBudget (JStr "Holiday") JUndefined (legacy_world [])).1
                = Resolved id) by (by rewrite Hcreate).
    assert (H' : (createBudget (JStr "Holiday") JUndefined (legacy_world [])).1
                 = Resolved 2) by (vm_compute; reflexivity).
    congruence. }
  subst id. exists w2, (before ++ [stored]).
  split; [exact Hcreate|]. split; [exact Hafter|].
  rewrite length_app. simpl.
  assert (H : (getAllBudgets (legacy_world [])).1 = Resolved before)
    by (by rewrite Hbefore).
  apply (f_equal (λ r, match r with Resolved l => length l | _ => 0%nat end)) in H.
  simpl in H. rewrite <- H. vm_compute. reflexivity.
Defined.
